(** * Real-time session and room messaging coordinator

    A shallow embedding of [src/utils/websocket.js] (class [WebSocketManager])
    and of the two operations of [src/utils/cache.js] (class [CacheManager])
    it relies on, together with the properties of the coordinator that the
    specification states.

    Conventions of the embedding.

    - JavaScript values that cross the wire or are kept in the cache are
      [JVal]s.  Strings are Rocq strings (code units below 256).
    - The mutable members of [WebSocketManager] are the fields of the record
      [WebSocketManager]; the cache singleton is the record [CacheManager];
      the rooms a socket has joined (Socket.IO's [socket.rooms]) are kept in
      [socketRooms], keyed by socket id, so that every alias of a socket
      object sees the same set.  A socket is open as long as it has an entry
      in [socketRooms].
    - A handler is a computation in the monad [M]: it threads the [World],
      may throw, and appends what it sends to [outbox].  A thrown exception
      does not undo earlier mutations, as in JavaScript.
    - Each handler runs to completion before the next event is handled (the
      single-threaded event loop, with every [await] and every promise
      continuation resolved in program order).
    - The clock, the random source, the i18n library, [JSON.stringify] and
      [JSON.parse] are host services; a handler receives them in an [Env].
      One clock reading is taken per handler invocation.
    - Redis holds text: the keyspace of the cache maps a key to the text
      [set] wrote, and [get] hands that text to [JSON.parse]. *)

From Stdlib Require Import ZArith NArith Ascii String List Lia Decimal.
From Stdlib Require Import DecimalString DecimalN.
From stdpp Require Import base gmap strings list fin_maps.

Set Warnings "-register-all,-clear-no-such-hyp".
Local Open Scope string_scope.
Local Open Scope list_scope.
Local Open Scope Z_scope.

(** ** JavaScript values *)

Inductive JVal : Type :=
| JNull                                   (* null and undefined *)
| JBool (b : bool)
| JNum (n : Z)
| JStr (s : string)
| JArr (l : list JVal)
| JObj (fields : list (string * JVal))
| JPromise (v : JVal).                    (* a promise that resolves to v *)

(** [!v] is true on the falsy values. *)
Definition falsy (v : JVal) : bool :=
  match v with
  | JNull => true
  | JBool b => negb b
  | JNum n => n =? 0
  | JStr s => match s with EmptyString => true | _ => false end
  | _ => false
  end.

(** [a || b] *)
Definition js_or (a b : JVal) : JVal := if falsy a then b else a.

(** Property read [o.k]: the value of field [k] of an object, [undefined]
    otherwise. *)
Fixpoint field_lookup (k : string) (fields : list (string * JVal)) : JVal :=
  match fields with
  | [] => JNull
  | (k', v) :: rest => if String.eqb k k' then v else field_lookup k rest
  end.

Definition get_field (k : string) (o : JVal) : JVal :=
  match o with
  | JObj fields => field_lookup k fields
  | _ => JNull
  end.

(** Property write [o.k = v]: an existing key keeps its position. *)
Fixpoint field_assign (k : string) (v : JVal) (fields : list (string * JVal))
  : list (string * JVal) :=
  match fields with
  | [] => [(k, v)]
  | (k', v') :: rest =>
      if String.eqb k k' then (k, v) :: rest
      else (k', v') :: field_assign k v rest
  end.

(** [arr.slice(-n)]: the last [n] elements. *)
Definition slice_last {A} (n : nat) (l : list A) : list A :=
  drop (length l - n)%nat l.

(** [arr.shift()]: drops the first element. *)
Definition shift {A} (l : list A) : list A := tail l.

(** ** White space and [String.prototype.trim] *)

(** The white space code units below 256: TAB, LF, VT, FF, CR, SP, NBSP. *)
Definition is_js_space (c : ascii) : bool :=
  let n := nat_of_ascii c in
  ((9 <=? n) && (n <=? 13) || (n =? 32) || (n =? 160))%nat.

Fixpoint trimStart (s : string) : string :=
  match s with
  | EmptyString => EmptyString
  | String c rest => if is_js_space c then trimStart rest else s
  end.

Fixpoint string_rev_onto (s acc : string) : string :=
  match s with
  | EmptyString => acc
  | String c rest => string_rev_onto rest (String c acc)
  end.

Definition string_rev (s : string) : string := string_rev_onto s EmptyString.

Definition trimEnd (s : string) : string := string_rev (trimStart (string_rev s)).

Definition trim (s : string) : string := trimEnd (trimStart s).

(** [s] starts with [p]. *)
Fixpoint starts_with (p s : string) : bool :=
  match p with
  | EmptyString => true
  | String a p' =>
      match s with
      | EmptyString => false
      | String b s' => Ascii.eqb a b && starts_with p' s'
      end
  end.

(** [s.includes(sub)] on strings. *)
Fixpoint contains (sub s : string) : bool :=
  starts_with sub s
  || match s with
     | EmptyString => false
     | String _ rest => contains sub rest
     end.

(** [s.slice(-n)] on strings. *)
Definition string_slice_last (n : nat) (s : string) : string :=
  string_of_list_ascii (slice_last n (list_ascii_of_string s)).

(** ** Calls that may raise *)

Inductive Outcome (A : Type) : Type :=
| Return (a : A)
| Throw (error : string).
Arguments Return {A} a.
Arguments Throw {A} error.

(** ** Host services *)

Record Env := {
  dateNow : N;                                  (* Date.now() *)
  isoNow : string;                              (* new Date().toISOString() *)
  random36 : string;       (* Math.random().toString(36).substr(2, 9) *)
  i18n__ : string -> string -> JVal -> string;  (* i18n.__({phrase, locale}, params) *)
  JSON_stringify : JVal -> string;
  JSON_parse : string -> option JVal            (* [None]: a SyntaxError *)
}.

Definition decimal (n : N) : string := NilEmpty.string_of_uint (N.to_uint n).

(** [String(v)], also what a template literal [`${v}`] interpolates; exact
    on strings, booleans and numbers, the other cases are kept coarse. *)
Definition js_string (v : JVal) : string :=
  match v with
  | JStr s => s
  | JNull => "undefined"
  | JBool true => "true"
  | JBool false => "false"
  | JNum n => if n <? 0 then "-" +:+ decimal (Z.to_N (- n)) else decimal (Z.to_N n)
  | _ => "[object Object]"
  end.

(** ** The cache ([src/utils/cache.js]) *)

(** What Redis holds under a key: a text and the expiry it was written
    with. *)
Record Entry := { value : string; ttl : option Z }.

(** The Redis client: its keyspace, and whether its commands currently
    succeed ([commandsFail] makes [client.get] and [client.setex] reject). *)
Record RedisClient := {
  keyspace : gmap string Entry;
  commandsFail : bool
}.

Record CacheManager := {
  client : option RedisClient;
  isConnected : bool
}.

(** [isReady() { return this.client && this.isConnected; }] *)
Definition isReady (c : CacheManager) : bool :=
  match client c with
  | Some _ => isConnected c
  | None => false
  end.

(** [cache.js] takes [logWarning] from [./logger], which exports [logWarn]
    and no [logWarning]: the name is [undefined] and calling it raises. *)
Definition logWarning_raises : string := "TypeError: logWarning is not a function".

(** [typeof v === 'object'] ([JNull] read as [null]). *)
Definition is_object (v : JVal) : bool :=
  match v with
  | JNull | JArr _ | JObj _ | JPromise _ => true
  | _ => false
  end.

(** The text [set] hands to Redis: [JSON.stringify(value)] for an object,
    the value itself otherwise, which the client writes as [String(value)]. *)
Definition serialized (env : Env) (v : JVal) : string :=
  if is_object v then JSON_stringify env v else js_string v.

(** [get(key)], with the default options, as a function of the cache.
    When Redis is not ready the call of [logWarning] raises.  A text that
    [JSON.parse] rejects makes the inner handler call [logWarning] too;
    that exception is caught by the outer handler, which answers [null],
    as it does when the command fails. *)
Definition cache_get (env : Env) (key : string) (c : CacheManager) : Outcome JVal :=
  if isReady c then
    match client c with
    | Some r =>
        if commandsFail r then Return JNull
        else match keyspace r !! key with
             | Some e =>
                 match JSON_parse env (value e) with
                 | Some v => Return v
                 | None => Return JNull
                 end
             | None => Return JNull
             end
    | None => Return JNull
    end
  else Throw logWarning_raises.

(** [set(key, value, ttl)], with the default options: the updated cache and
    the boolean the source returns, or the exception of [logWarning] when
    Redis is not ready. *)
Definition cache_set (env : Env) (key : string) (v : JVal) (seconds : Z)
    (c : CacheManager) : Outcome (CacheManager * bool) :=
  if isReady c then
    match client c with
    | Some r =>
        if commandsFail r then Return (c, false)
        else
          let e := {| value := serialized env v;
                      ttl := if 0 <? seconds then Some seconds else None |} in
          Return ({| client := Some {| keyspace := <[key := e]> (keyspace r);
                                       commandsFail := commandsFail r |};
                     isConnected := isConnected c |}, true)
    | None => Return (c, false)
    end
  else Throw logWarning_raises.

(** What is stored under a key, whatever the state of the connection. *)
Definition stored (key : string) (c : CacheManager) : option Entry :=
  match client c with
  | Some r => keyspace r !! key
  | None => None
  end.

(** ** Sockets and what the coordinator sends *)

(** The properties [authenticateSocket] attaches to a socket. *)
Record Socket := {
  socket_id : string;
  userId : string;
  userRole : string;
  userLanguage : string
}.

Inductive Effect : Type :=
| socket_emit (sid event : string) (payload : JVal)
    (* socket.emit(event, payload): to this socket only *)
| socket_to_emit (sid room event : string) (payload : JVal)
    (* socket.to(room).emit(event, payload): the room, except this socket *)
| io_to_emit (room event : string) (payload : JVal).
    (* this.io.to(room).emit(event, payload): every socket of the room *)

Definition event_of (e : Effect) : string :=
  match e with
  | socket_emit _ ev _ | socket_to_emit _ _ ev _ | io_to_emit _ ev _ => ev
  end.

(** ** The state *)

Record ConnectionStats := {
  totalConnections : Z;
  activeUsers : Z;
  totalRooms : Z;
  messagesCount : Z
}.

Record WebSocketManager := {
  connectedUsers : gmap string Socket;        (* userId -> socket *)
  userSockets : gmap string string;           (* socketId -> userId *)
  rooms : gmap string (gset string);          (* roomId -> Set of userIds *)
  activeRooms : gmap string JVal;             (* roomId -> room metadata *)
  messageHistory : gmap string (list JVal);   (* roomId -> messages array *)
  connectionStats : ConnectionStats
}.

Record World := {
  this : WebSocketManager;
  cache : CacheManager;
  socketRooms : gmap string (list string);    (* socket id -> socket.rooms *)
  outbox : list Effect;
  logs : list (string * string)
}.

Definition with_this (f : WebSocketManager -> WebSocketManager) (w : World) : World :=
  {| this := f (this w); cache := cache w; socketRooms := socketRooms w;
     outbox := outbox w; logs := logs w |}.

Definition with_cache (c : CacheManager) (w : World) : World :=
  {| this := this w; cache := c; socketRooms := socketRooms w;
     outbox := outbox w; logs := logs w |}.

Definition with_socketRooms (f : gmap string (list string) -> gmap string (list string))
    (w : World) : World :=
  {| this := this w; cache := cache w; socketRooms := f (socketRooms w);
     outbox := outbox w; logs := logs w |}.

Definition set_connectedUsers (f : gmap string Socket -> gmap string Socket)
    (m : WebSocketManager) : WebSocketManager :=
  {| connectedUsers := f (connectedUsers m); userSockets := userSockets m;
     rooms := rooms m; activeRooms := activeRooms m;
     messageHistory := messageHistory m; connectionStats := connectionStats m |}.

Definition set_userSockets (f : gmap string string -> gmap string string)
    (m : WebSocketManager) : WebSocketManager :=
  {| connectedUsers := connectedUsers m; userSockets := f (userSockets m);
     rooms := rooms m; activeRooms := activeRooms m;
     messageHistory := messageHistory m; connectionStats := connectionStats m |}.

Definition set_rooms (f : gmap string (gset string) -> gmap string (gset string))
    (m : WebSocketManager) : WebSocketManager :=
  {| connectedUsers := connectedUsers m; userSockets := userSockets m;
     rooms := f (rooms m); activeRooms := activeRooms m;
     messageHistory := messageHistory m; connectionStats := connectionStats m |}.

Definition set_activeRooms (f : gmap string JVal -> gmap string JVal)
    (m : WebSocketManager) : WebSocketManager :=
  {| connectedUsers := connectedUsers m; userSockets := userSockets m;
     rooms := rooms m; activeRooms := f (activeRooms m);
     messageHistory := messageHistory m; connectionStats := connectionStats m |}.

Definition set_messageHistory (f : gmap string (list JVal) -> gmap string (list JVal))
    (m : WebSocketManager) : WebSocketManager :=
  {| connectedUsers := connectedUsers m; userSockets := userSockets m;
     rooms := rooms m; activeRooms := activeRooms m;
     messageHistory := f (messageHistory m); connectionStats := connectionStats m |}.

Definition set_connectionStats (f : ConnectionStats -> ConnectionStats)
    (m : WebSocketManager) : WebSocketManager :=
  {| connectedUsers := connectedUsers m; userSockets := userSockets m;
     rooms := rooms m; activeRooms := activeRooms m;
     messageHistory := messageHistory m; connectionStats := f (connectionStats m) |}.

(** ** The handler monad: state, exceptions, and the outbox *)

Definition M (A : Type) : Type := World -> Outcome A * World.

#[export] Instance M_ret : MRet M := fun A a w => (Return a, w).

#[export] Instance M_bind : MBind M := fun A B k m w =>
  match m w with
  | (Return a, w') => k a w'
  | (Throw e, w') => (Throw e, w')
  end.

Definition throw {A} (e : string) : M A := fun w => (Throw e, w).

(** [try { body } catch (error) { handler }] *)
Definition try_catch {A} (body : M A) (handler : string -> M A) : M A :=
  fun w => match body w with
           | (Return a, w') => (Return a, w')
           | (Throw e, w') => handler e w'
           end.

Definition modify (f : World -> World) : M unit := fun w => (Return tt, f w).

Definition gets {A} (f : World -> A) : M A := fun w => (Return (f w), w).

(** The world a computation leaves behind. *)
Definition exec {A} (m : M A) (w : World) : World := snd (m w).

(** What a computation sent: the part of the outbox it appended. *)
Definition sent {A} (m : M A) (w : World) : list Effect :=
  drop (length (outbox w)) (outbox (exec m w)).

Definition push_outbox (e : Effect) (w : World) : World :=
  {| this := this w; cache := cache w; socketRooms := socketRooms w;
     outbox := outbox w ++ [e]; logs := logs w |}.

Definition push_log (level message : string) (w : World) : World :=
  {| this := this w; cache := cache w; socketRooms := socketRooms w;
     outbox := outbox w; logs := logs w ++ [(level, message)] |}.

Definition emit (e : Effect) : M unit := modify (push_outbox e).

Definition log (level message : string) : M unit := modify (push_log level message).

Definition logInfo := log "info".
Definition logError := log "error".

(** The [logWarning] of [cache.js]: [undefined], so the call raises. *)
Definition logWarning (message : string) : M unit := throw logWarning_raises.

(** A call whose promise is not awaited: a rejection does not reach the
    caller.  (What the process does with the unhandled rejection is decided
    outside the coordinator and is not part of the model.) *)
Definition unawaited {A} (m : M A) : M unit :=
  try_catch (m ;; mret tt) (fun error => mret tt).

(** [await this.client.get(key)] *)
Definition client_get (key : string) : M (option string) :=
  c ← gets cache;
  match client c with
  | Some r =>
      if commandsFail r then throw "Error: the Redis command failed"
      else mret (value <$> keyspace r !! key)
  | None => throw "TypeError: Cannot read properties of null"
  end.

(** [await this.client.setex(key, ttl, text)], and [this.client.set(key,
    text)] when there is no expiry. *)
Definition client_set (key text : string) (expiry : option Z) : M unit :=
  c ← gets cache;
  match client c with
  | Some r =>
      if commandsFail r then throw "Error: the Redis command failed"
      else modify (with_cache
             {| client := Some {| keyspace := <[key := {| value := text; ttl := expiry |}]>
                                                (keyspace r);
                                  commandsFail := commandsFail r |};
                isConnected := isConnected c |})
  | None => throw "TypeError: Cannot read properties of null"
  end.

(** [JSON.parse(text)] *)
Definition parse (env : Env) (text : string) : M JVal :=
  match JSON_parse env text with
  | Some v => mret v
  | None => throw "SyntaxError: Unexpected token in JSON"
  end.

(** [await cache.get(key)] *)
Definition cacheGet (env : Env) (key : string) : M JVal :=
  c ← gets cache;
  if negb (isReady c) then
    logWarning "Redis not connected, skipping cache get" ;;
    mret JNull
  else
    try_catch
      (value ← client_get key;
       match value with
       | None => mret JNull
       | Some text =>
           (* Parse JSON if needed *)
           try_catch (parse env text)
             (fun parseError =>
                logWarning "Failed to parse cached JSON" ;;
                mret (JStr text))
       end)
      (fun error => logError "Cache get error" ;; mret JNull).

(** [await cache.set(key, value, ttl)] *)
Definition cacheSet (env : Env) (key : string) (v : JVal) (seconds : Z) : M bool :=
  c ← gets cache;
  if negb (isReady c) then
    logWarning "Redis not connected, skipping cache set" ;;
    mret false
  else
    try_catch
      ((* Serialize to JSON if needed *)
       let serializedValue := serialized env v in
       (if 0 <? seconds then client_set key serializedValue (Some seconds)
        else client_set key serializedValue None) ;;
       mret true)
      (fun error => logError "Cache set error" ;; mret false).

(** [i18nManager.translate(key, params, locale)] (i18n.js): looks the
    rendered phrase up in the cache, renders it otherwise and caches it for
    an hour without awaiting the write; a failure of the lookup falls back
    to rendering.  The caller receives the promise. *)
Definition translate (env : Env) (key : string) (params : JVal) (locale : string)
  : M JVal :=
  let cacheKey := "i18n:" +:+ locale +:+ ":" +:+ key +:+ ":" +:+ JSON_stringify env params in
  try_catch
    (cached ← cacheGet env cacheKey ;
     if falsy cached then
       let translation := JStr (i18n__ env key locale params) in
       (* Cache the translation for 1 hour *)
       unawaited (cacheSet env cacheKey translation 3600) ;;
       mret (JPromise translation)
     else mret (JPromise cached))
    (fun error =>
       (* Fallback if cache fails *)
       mret (JPromise (JStr (i18n__ env key locale params)))).

(** [socket.join(room)] and [socket.leave(room)] *)
Definition rooms_of (sid : string) (w : World) : list string :=
  default [] (socketRooms w !! sid).

Definition set_add (x : string) (l : list string) : list string :=
  if bool_decide (x ∈ l) then l else l ++ [x].

Definition set_remove (x : string) (l : list string) : list string :=
  filter (fun y => y ≠ x) l.

Definition socket_join (socket : Socket) (room : string) : M unit :=
  modify (fun w => with_socketRooms
    <[socket_id socket := set_add room (rooms_of (socket_id socket) w)]> w).

Definition socket_leave (socket : Socket) (room : string) : M unit :=
  modify (fun w => with_socketRooms
    <[socket_id socket := set_remove room (rooms_of (socket_id socket) w)]> w).

(** ** Helper methods of [WebSocketManager] *)

(** [`msg_${Date.now()}_${Math.random().toString(36).substr(2, 9)}`] *)
Definition generateMessageId (env : Env) : string :=
  "msg_" +:+ decimal (dateNow env) +:+ "_" +:+ random36 env.

(** The placeholder of the source: every request is allowed. *)
Definition validateRoomAccess (userId roomId : string) (password : JVal)
  : M (bool * JVal) :=
  mret (true, JNull).

(** [v.push(...)]: only arrays have the method, on any other value the
    call raises a [TypeError]. *)
Definition as_array (what : string) (v : JVal) : M (list JVal) :=
  match v with
  | JArr l => mret l
  | _ => throw ("TypeError: " +:+ what)
  end.

Definition is_str (s : string) (v : JVal) : bool :=
  match v with
  | JStr s' => String.eqb s s'
  | _ => false
  end.

(** [o.k = v] on a value: only objects take the field. *)
Definition set_field (k : string) (v : JVal) (o : JVal) : JVal :=
  match o with
  | JObj fields => JObj (field_assign k v fields)
  | other => other
  end.

(** The membership update of [updateRoomMetadata]:
    [if (action === 'joined' && !metadata.members.includes(userId))
       metadata.members.push(userId);
     else if (action === 'left')
       metadata.members = metadata.members.filter(id => id !== userId);]
    Arrays and strings have [includes]; only arrays have [push] and
    [filter]. *)
Definition update_members (userId action : string) (metadata : JVal) : M JVal :=
  let members := get_field "members" metadata in
  if String.eqb action "joined" then
    match members with
    | JArr l =>
        if existsb (is_str userId) l then mret metadata
        else mret (set_field "members" (JArr (l ++ [JStr userId])) metadata)
    | JStr m =>
        if contains userId m then mret metadata
        else throw "TypeError: metadata.members.push is not a function"
    | _ => throw "TypeError: metadata.members.includes is not a function"
    end
  else if String.eqb action "left" then
    match members with
    | JArr l =>
        mret (set_field "members"
                (JArr (List.filter (fun id => negb (is_str userId id)) l)) metadata)
    | _ => throw "TypeError: metadata.members.filter is not a function"
    end
  else mret metadata.

Definition updateRoomMetadata (env : Env) (roomId userId action : string) : M unit :=
  let key := "room:" +:+ roomId +:+ ":metadata" in
  v ← cacheGet env key;
  let metadata := js_or v (JObj [("members", JArr []); ("activity", JArr [])]) in
  metadata ← update_members userId action metadata;
  activity ← as_array "metadata.activity.push" (get_field "activity" metadata);
  let activity :=
    activity ++ [JObj [("userId", JStr userId); ("action", JStr action);
                       ("timestamp", JStr (isoNow env))]] in
  (* Keep only last 100 activities *)
  let activity :=
    if (100 <? length activity)%nat then slice_last 100 activity else activity in
  cacheSet env key (set_field "activity" (JArr activity) metadata) 86400 ;;
  mret tt.

Definition storeMessage (env : Env) (messageObj : JVal) : M unit :=
  (* Store message in cache for recent history *)
  let key := "room:" +:+ js_string (get_field "roomId" messageObj) +:+ ":messages" in
  v ← cacheGet env key;
  messages ← as_array "messages.push" (js_or v (JArr []));
  let messages := messages ++ [messageObj] in
  (* Keep only last 50 messages in cache *)
  let messages := if (50 <? length messages)%nat then shift messages else messages in
  cacheSet env key (JArr messages) 3600 ;;
  mret tt.

(** [messages.slice(-20)]: arrays and strings have the method. *)
Definition last_20 (messages : JVal) : M JVal :=
  match messages with
  | JArr l => mret (JArr (slice_last 20 l))
  | JStr s => mret (JStr (string_slice_last 20 s))
  | _ => throw "TypeError: messages.slice is not a function"
  end.

Definition sendMessageHistory (env : Env) (socket : Socket) (roomId : string) : M unit :=
  let key := "room:" +:+ roomId +:+ ":messages" in
  v ← cacheGet env key;
  recent ← last_20 (js_or v (JArr []));
  emit (socket_emit (socket_id socket) "message_history"
          (JObj [("roomId", JStr roomId);
                 ("messages", recent);  (* Send last 20 messages *)
                 ("timestamp", JStr (isoNow env))])).

(** [this.io.to(roomId).emit(event, { ...data, timestamp })] *)
Definition broadcastToRoom (env : Env) (roomId event : string)
    (data : list (string * JVal)) : M unit :=
  emit (io_to_emit roomId event
          (JObj (field_assign "timestamp" (JStr (isoNow env)) data))).

Definition updateUserOnlineStatus (env : Env) (userId : string) (isOnline : bool)
  : M unit :=
  cacheSet env ("user:" +:+ userId +:+ ":online") (JBool isOnline) 300 ;;
  broadcastToRoom env ("user:" +:+ userId) "user_status_changed"
    [("userId", JStr userId); ("online", JBool isOnline);
     ("lastSeen", JStr (isoNow env))].

Definition sendUserActiveRooms (env : Env) (socket : Socket) : M unit :=
  emit (socket_emit (socket_id socket) "active_rooms"
          (JObj [("rooms", JArr []); ("timestamp", JStr (isoNow env))])).

(** The body of the loop of [cleanupEmptyRooms]. *)
Definition cleanupRoom (m : WebSocketManager) (entry : string * gset string)
  : WebSocketManager :=
  let '(roomId, members) := entry in
  if bool_decide (size members = 0%nat) then
    set_messageHistory (delete roomId)
      (set_activeRooms (delete roomId)
         (set_rooms (delete roomId) m))
  else m.

Definition cleanupEmptyRooms : M unit :=
  modify (with_this (fun m => foldl cleanupRoom m (map_to_list (rooms m)))).

Definition storePrivateMessage (env : Env) (messageObj : JVal) : M unit :=
  (* Store private message for offline delivery *)
  let key := "private_messages:" +:+ js_string (get_field "toUserId" messageObj) in
  v ← cacheGet env key;
  messages ← as_array "messages.push" (js_or v (JArr []));
  let messages := messages ++ [messageObj] in
  (* Keep only last 100 private messages *)
  let messages := if (100 <? length messages)%nat then shift messages else messages in
  cacheSet env key (JArr messages) (86400 * 7) ;;
  mret tt.

Definition storeOfflineNotification (env : Env) (userId : string)
    (notification : list (string * JVal)) : M unit :=
  let key := "offline_notifications:" +:+ userId in
  v ← cacheGet env key;
  notifications ← as_array "notifications.push" (js_or v (JArr []));
  let notifications :=
    notifications ++ [JObj (field_assign "timestamp" (JStr (isoNow env)) notification)] in
  (* Keep only last 50 notifications *)
  let notifications :=
    if (50 <? length notifications)%nat then shift notifications else notifications in
  cacheSet env key (JArr notifications) (86400 * 3) ;;
  mret tt.

(** ** Event handlers

    A handler takes the socket and the fields it destructures from the
    event's [data]; room ids and user ids are strings, a message body is
    any value, an absent optional field is [None]. *)

Definition handleConnection (env : Env) (socket : Socket) : M unit :=
  let userId := userId socket in
  (* Update connection stats *)
  modify (with_this (fun m => set_connectionStats (fun s =>
    {| totalConnections := totalConnections s + 1;
       activeUsers := Z.of_nat (size (connectedUsers m)) + 1;
       totalRooms := totalRooms s;
       messagesCount := messagesCount s |}) m)) ;;
  logInfo "User connected via WebSocket" ;;
  (* Store user-socket mapping *)
  modify (with_this (set_connectedUsers <[userId := socket]>)) ;;
  modify (with_this (set_userSockets <[socket_id socket := userId]>)) ;;
  (* Join user to their personal room *)
  socket_join socket ("user:" +:+ userId) ;;
  socket_join socket ("role:" +:+ userRole socket) ;;
  (* Send welcome message with localization *)
  welcomeMessage ← translate env "websocket.connected" (JObj []) (userLanguage socket);
  emit (socket_emit (socket_id socket) "connected"
          (JObj [("message", welcomeMessage);
                 ("userId", JStr userId);
                 ("socketId", JStr (socket_id socket));
                 ("language", JStr (userLanguage socket));
                 ("timestamp", JStr (isoNow env));
                 ("serverTime", JNum (Z.of_N (dateNow env)))])) ;;
  (* Send user their active rooms *)
  sendUserActiveRooms env socket ;;
  (* Update user's online status *)
  unawaited (updateUserOnlineStatus env userId true).

Definition handleJoinRoom (env : Env) (socket : Socket) (roomId : string)
    (password : JVal) : M unit :=
  try_catch
    (let userId := userId socket in
     (* Validate room access *)
     canJoin ← validateRoomAccess userId roomId password;
     if negb (fst canJoin) then
       emit (socket_emit (socket_id socket) "join_room_error"
               (JObj [("error", snd canJoin); ("roomId", JStr roomId)]))
     else
       (* Join the room *)
       socket_join socket roomId ;;
       (* Update room membership *)
       modify (with_this (set_rooms (fun rooms =>
         let rooms := if bool_decide (is_Some (rooms !! roomId)) then rooms
                      else <[roomId := ∅]> rooms in
         alter (fun members => members ∪ {[userId]}) roomId rooms))) ;;
       (* Update room metadata *)
       updateRoomMetadata env roomId userId "joined" ;;
       (* Send confirmation to user *)
       msg ← translate env "websocket.joined_room"
               (JObj [("roomId", JStr roomId)]) (userLanguage socket);
       emit (socket_emit (socket_id socket) "joined_room"
               (JObj [("roomId", JStr roomId); ("message", msg);
                      ("timestamp", JStr (isoNow env))])) ;;
       (* Notify other room members *)
       msg ← translate env "websocket.user_joined"
               (JObj [("userId", JStr userId)]) (userLanguage socket);
       emit (socket_to_emit (socket_id socket) roomId "user_joined_room"
               (JObj [("userId", JStr userId); ("roomId", JStr roomId);
                      ("message", msg); ("timestamp", JStr (isoNow env))])) ;;
       (* Send recent message history *)
       sendMessageHistory env socket roomId ;;
       logInfo "User joined room")
    (fun error =>
       logError "Failed to join room" ;;
       emit (socket_emit (socket_id socket) "join_room_error"
               (JObj [("error", JStr "Failed to join room");
                      ("roomId", JStr roomId)]))).

Definition handleLeaveRoom (env : Env) (socket : Socket) (roomId : string) : M unit :=
  try_catch
    (let userId := userId socket in
     (* Leave the room *)
     socket_leave socket roomId ;;
     (* Update room membership *)
     modify (with_this (fun m =>
       match rooms m !! roomId with
       | Some members =>
           let members := members ∖ {[userId]} in
           (* Clean up empty rooms *)
           if bool_decide (size members = 0%nat) then
             set_activeRooms (delete roomId) (set_rooms (delete roomId) m)
           else set_rooms <[roomId := members]> m
       | None => m
       end)) ;;
     (* Update room metadata *)
     updateRoomMetadata env roomId userId "left" ;;
     (* Send confirmation to user *)
     msg ← translate env "websocket.left_room"
             (JObj [("roomId", JStr roomId)]) (userLanguage socket);
     emit (socket_emit (socket_id socket) "left_room"
             (JObj [("roomId", JStr roomId); ("message", msg);
                    ("timestamp", JStr (isoNow env))])) ;;
     (* Notify other room members *)
     msg ← translate env "websocket.user_left"
             (JObj [("userId", JStr userId)]) (userLanguage socket);
     emit (socket_to_emit (socket_id socket) roomId "user_left_room"
             (JObj [("userId", JStr userId); ("roomId", JStr roomId);
                    ("message", msg); ("timestamp", JStr (isoNow env))])) ;;
     logInfo "User left room")
    (fun error => logError "Failed to leave room").

(** [message.trim()]: only strings have the method. *)
Definition call_trim (message : JVal) : M string :=
  match message with
  | JStr s => mret (trim s)
  | _ => throw "TypeError: message.trim is not a function"
  end.

Definition message_error (env : Env) (socket : Socket) (key : string) : M unit :=
  error ← translate env key (JObj []) (userLanguage socket);
  emit (socket_emit (socket_id socket) "message_error" (JObj [("error", error)])).

(** [!message || message.trim().length === 0] *)
Definition is_empty_message (message : JVal) : M bool :=
  if falsy message then mret true
  else trimmed ← call_trim message;
       mret (bool_decide (String.length trimmed = 0%nat)).

Definition handleSendMessage (env : Env) (socket : Socket) (roomId : string)
    (message : JVal) (messageType metadata : option JVal) : M unit :=
  try_catch
    (let messageType := default (JStr "text") messageType in
     let metadata := default (JObj []) metadata in
     let userId := userId socket in
     (* Validate message *)
     empty ← is_empty_message message;
     if (empty : bool) then message_error env socket "websocket.empty_message"
     else
       (* Check if user is in the room *)
       joined ← gets (rooms_of (socket_id socket));
       if negb (bool_decide (roomId ∈ joined)) then
         message_error env socket "websocket.not_in_room"
       else
         (* Create message object *)
         let id := generateMessageId env in
         trimmed ← call_trim message;
         let messageObj :=
           JObj [("id", JStr id); ("userId", JStr userId);
                 ("roomId", JStr roomId); ("message", JStr trimmed);
                 ("messageType", messageType); ("metadata", metadata);
                 ("timestamp", JStr (isoNow env)); ("edited", JBool false);
                 ("reactions", JObj [])] in
         (* Store message in history *)
         storeMessage env messageObj ;;
         (* Update stats *)
         modify (with_this (set_connectionStats (fun s =>
           {| totalConnections := totalConnections s;
              activeUsers := activeUsers s;
              totalRooms := totalRooms s;
              messagesCount := messagesCount s + 1 |}))) ;;
         (* Broadcast message to room *)
         emit (io_to_emit roomId "new_message" messageObj) ;;
         (* Send delivery confirmation to sender *)
         emit (socket_emit (socket_id socket) "message_sent"
                 (JObj [("messageId", JStr id);
                        ("timestamp", JStr (isoNow env))])) ;;
         logInfo "Message sent")
    (fun error =>
       logError "Failed to send message" ;;
       message_error env socket "websocket.message_failed").

Definition handlePrivateMessage (env : Env) (socket : Socket) (targetUserId : string)
    (message : JVal) (messageType : option JVal) : M unit :=
  try_catch
    (let messageType := default (JStr "text") messageType in
     let userId := userId socket in
     (* Check if target user is online *)
     targetSocket ← gets (fun w => connectedUsers (this w) !! targetUserId);
     match targetSocket with
     | None =>
         error ← translate env "websocket.user_offline"
                   (JObj [("userId", JStr targetUserId)]) (userLanguage socket);
         emit (socket_emit (socket_id socket) "private_message_error"
                 (JObj [("error", error)]))
     | Some targetSocket =>
         (* Create message object *)
         let id := generateMessageId env in
         trimmed ← call_trim message;
         let messageObj :=
           JObj [("id", JStr id); ("fromUserId", JStr userId);
                 ("toUserId", JStr targetUserId); ("message", JStr trimmed);
                 ("messageType", messageType);
                 ("timestamp", JStr (isoNow env)); ("private", JBool true)] in
         (* Send to target user *)
         emit (socket_emit (socket_id targetSocket) "private_message" messageObj) ;;
         (* Send confirmation to sender *)
         emit (socket_emit (socket_id socket) "private_message_sent"
                 (JObj [("messageId", JStr id);
                        ("targetUserId", JStr targetUserId);
                        ("timestamp", JStr (isoNow env))])) ;;
         (* Store in cache for offline delivery *)
         storePrivateMessage env messageObj ;;
         logInfo "Private message sent"
     end)
    (fun error => logError "Failed to send private message").

Definition handleDisconnection (env : Env) (socket : Socket) (reason : string)
  : M unit :=
  let userId := userId socket in
  logInfo "User disconnected from WebSocket" ;;
  (* Clean up user mappings *)
  modify (with_this (set_connectedUsers (delete userId))) ;;
  modify (with_this (set_userSockets (delete (socket_id socket)))) ;;
  (* Update connection stats *)
  modify (with_this (fun m => set_connectionStats (fun s =>
    {| totalConnections := totalConnections s;
       activeUsers := Z.of_nat (size (connectedUsers m));
       totalRooms := totalRooms s;
       messagesCount := messagesCount s |}) m)) ;;
  (* Update user's online status *)
  updateUserOnlineStatus env userId false ;;
  (* Notify rooms about user going offline *)
  userRooms ← gets (fun w =>
    List.filter (fun room => negb (String.eqb room (socket_id socket)))
      (rooms_of (socket_id socket) w));
  foldr (fun roomId rest =>
           emit (socket_to_emit (socket_id socket) roomId "user_offline"
                   (JObj [("userId", JStr userId); ("roomId", JStr roomId);
                          ("timestamp", JStr (isoNow env))])) ;;
           rest)
        (mret tt) userRooms ;;
  (* Clean up empty rooms *)
  cleanupEmptyRooms.

Definition sendNotificationToUser (env : Env) (userId : string)
    (notification : list (string * JVal)) : M bool :=
  try_catch
    (socket ← gets (fun w => connectedUsers (this w) !! userId);
     match socket with
     | Some socket =>
         (* User is online, send immediately *)
         emit (socket_emit (socket_id socket) "notification"
                 (JObj (field_assign "timestamp" (JStr (isoNow env)) notification))) ;;
         mret true
     | None =>
         (* User is offline, store for later delivery *)
         storeOfflineNotification env userId notification ;;
         mret false
     end)
    (fun error => logError "Failed to send notification" ;; mret false).

(** The sweep [setupPeriodicCleanup] installs: empty rooms are removed and
    the in-memory history is pruned to the last 24 hours.  [Date_parse]
    stands for [new Date(timestamp).getTime()], [None] for [NaN]. *)
Definition periodicCleanup (env : Env) (Date_parse : JVal -> option Z) : M unit :=
  cleanupEmptyRooms ;;
  let cutoff := Z.of_N (dateNow env) - 24 * 60 * 60 * 1000 in
  modify (with_this (set_messageHistory (fmap (List.filter (fun msg =>
    match Date_parse (get_field "timestamp" msg) with
    | Some t => cutoff <? t
    | None => false
    end))))).

(** ** Events *)

Inductive Event : Type :=
| connection (socket : Socket)
| disconnect (socket : Socket) (reason : string)
| join_room (socket : Socket) (roomId : string) (password : JVal)
| leave_room (socket : Socket) (roomId : string)
| send_message (socket : Socket) (roomId : string) (message : JVal)
    (messageType metadata : option JVal)
| send_private_message (socket : Socket) (targetUserId : string) (message : JVal)
    (messageType : option JVal)
| notification (userId : string) (fields : list (string * JVal))
| sweep (Date_parse : JVal -> option Z).

(** A socket is open while the transport keeps its room set. *)
Definition is_open (sid : string) (w : World) : bool :=
  bool_decide (is_Some (socketRooms w !! sid)).

(** The transport puts a new socket in the room named by its own id before
    it raises [connection].  When a socket closes, the transport takes it
    out of all its rooms and forgets it before it raises [disconnect]:
    [handleDisconnection] finds [socket.rooms] empty. *)
Definition step (env : Env) (ev : Event) : M unit :=
  match ev with
  | connection socket =>
      modify (with_socketRooms <[socket_id socket := [socket_id socket]]>) ;;
      handleConnection env socket
  | disconnect socket reason =>
      modify (with_socketRooms (delete (socket_id socket))) ;;
      handleDisconnection env socket reason
  | join_room socket roomId password => handleJoinRoom env socket roomId password
  | leave_room socket roomId => handleLeaveRoom env socket roomId
  | send_message socket roomId message messageType metadata =>
      handleSendMessage env socket roomId message messageType metadata
  | send_private_message socket targetUserId message messageType =>
      handlePrivateMessage env socket targetUserId message messageType
  | notification userId fields =>
      sendNotificationToUser env userId fields ;; mret tt
  | sweep Date_parse => periodicCleanup env Date_parse
  end.

Definition run (events : list (Env * Event)) (w : World) : World :=
  foldl (fun w ev => exec (step ev.1 ev.2) w) w events.

(** The coordinator as constructed, over a given cache. *)
Definition initial (c : CacheManager) : World :=
  {| this := {| connectedUsers := ∅; userSockets := ∅; rooms := ∅;
                activeRooms := ∅; messageHistory := ∅;
                connectionStats := {| totalConnections := 0; activeUsers := 0;
                                      totalRooms := 0; messagesCount := 0 |} |};
     cache := c; socketRooms := ∅; outbox := []; logs := [] |}.

(** [resolve(P)]: the lookup in the connected-users registry. *)
Definition resolve (P : string) (w : World) : option Socket :=
  connectedUsers (this w) !! P.

(** The sockets an emission reaches. *)
Definition in_room (room : string) (w : World) : gset string :=
  dom (filter (fun entry => room ∈ entry.2) (socketRooms w)).

Definition recipients (e : Effect) (w : World) : gset string :=
  match e with
  | socket_emit sid _ _ => {[sid]}
  | socket_to_emit sid room _ _ => in_room room w ∖ {[sid]}
  | io_to_emit room _ _ => in_room room w
  end.

(** The value the promise returned by [translate] resolves to. *)
Definition translation (env : Env) (key : string) (params : JVal) (locale : string)
    (w : World) : JVal :=
  let cacheKey := "i18n:" +:+ locale +:+ ":" +:+ key +:+ ":" +:+ JSON_stringify env params in
  match cache_get env cacheKey (cache w) with
  | Return cached => if falsy cached then JStr (i18n__ env key locale params) else cached
  | Throw _ => JStr (i18n__ env key locale params)
  end.

(** ** Sample data *)

(** A JSON printer and parser for the sample environment: strings of code
    units, integers, and no insignificant white space in what is printed. *)
Module Json.

Definition quote : ascii := ascii_of_nat 34.
Definition backslash : ascii := ascii_of_nat 92.

Definition hex_digit (n : nat) : ascii :=
  ascii_of_nat (if (n <? 10)%nat then 48 + n else 87 + n).

Fixpoint escape (s : string) : string :=
  match s with
  | EmptyString => EmptyString
  | String c rest =>
      let n := nat_of_ascii c in
      if Ascii.eqb c quote then String backslash (String quote (escape rest))
      else if Ascii.eqb c backslash then String backslash (String backslash (escape rest))
      else if (n =? 10)%nat then String backslash (String "n" (escape rest))
      else if (n =? 13)%nat then String backslash (String "r" (escape rest))
      else if (n =? 9)%nat then String backslash (String "t" (escape rest))
      else if (n =? 8)%nat then String backslash (String "b" (escape rest))
      else if (n =? 12)%nat then String backslash (String "f" (escape rest))
      else if (n <? 32)%nat then
        String backslash
          (String "u" (String "0" (String "0"
             (String (hex_digit (n / 16)) (String (hex_digit (n mod 16)) (escape rest))))))
      else String c (escape rest)
  end.

Definition quoted (s : string) : string :=
  String quote (escape s +:+ String quote EmptyString).

Fixpoint join (sep : string) (l : list string) : string :=
  match l with
  | [] => EmptyString
  | [x] => x
  | x :: rest => x +:+ sep +:+ join sep rest
  end.

(** [JSON.stringify]: [undefined] ([JNull]) prints as [null], a promise as
    an empty object. *)
Fixpoint stringify (v : JVal) : string :=
  match v with
  | JNull => "null"
  | JBool b => if b then "true" else "false"
  | JNum n => js_string (JNum n)
  | JStr s => quoted s
  | JArr l => "[" +:+ join "," (map stringify l) +:+ "]"
  | JObj fields =>
      "{" +:+ join "," (map (fun field => match field with
                                          | (k, v) => quoted k +:+ ":" +:+ stringify v
                                          end) fields) +:+ "}"
  | JPromise _ => "{}"
  end.

Definition is_space (c : ascii) : bool :=
  let n := nat_of_ascii c in
  ((n =? 32) || (n =? 9) || (n =? 10) || (n =? 13))%nat.

Fixpoint skip (s : string) : string :=
  match s with
  | String c rest => if is_space c then skip rest else s
  | EmptyString => EmptyString
  end.

Definition digit (c : ascii) : option N :=
  let n := nat_of_ascii c in
  if ((48 <=? n) && (n <=? 57))%nat then Some (N.of_nat (n - 48)) else None.

Definition hex (c : ascii) : option nat :=
  let n := nat_of_ascii c in
  if ((48 <=? n) && (n <=? 57))%nat then Some (n - 48)%nat
  else if ((97 <=? n) && (n <=? 102))%nat then Some (n - 87)%nat
  else if ((65 <=? n) && (n <=? 70))%nat then Some (n - 55)%nat
  else None.

Fixpoint digits (s : string) (acc : N) : N * string :=
  match s with
  | String c rest =>
      match digit c with
      | Some d => digits rest (10 * acc + d)%N
      | None => (acc, s)
      end
  | EmptyString => (acc, s)
  end.

(** The code unit an escape letter stands for. *)
Definition unescape (e : ascii) : option ascii :=
  if Ascii.eqb e quote then Some quote
  else if Ascii.eqb e backslash then Some backslash
  else if Ascii.eqb e "/" then Some "/"%char
  else if Ascii.eqb e "n" then Some (ascii_of_nat 10)
  else if Ascii.eqb e "r" then Some (ascii_of_nat 13)
  else if Ascii.eqb e "t" then Some (ascii_of_nat 9)
  else if Ascii.eqb e "b" then Some (ascii_of_nat 8)
  else if Ascii.eqb e "f" then Some (ascii_of_nat 12)
  else None.

(** The text after an opening quote, up to the closing one, and what
    follows it. *)
Fixpoint text (s : string) : option (string * string) :=
  match s with
  | EmptyString => None
  | String c rest =>
      if Ascii.eqb c quote then Some (EmptyString, rest)
      else if Ascii.eqb c backslash then
        match rest with
        | String "u" (String "0" (String "0" (String h (String l rest')))) =>
            match hex h, hex l, text rest' with
            | Some h, Some l, Some (body, after) =>
                Some (String (ascii_of_nat (16 * h + l)) body, after)
            | _, _, _ => None
            end
        | String e rest' =>
            match unescape e, text rest' with
            | Some c', Some (body, after) => Some (String c' body, after)
            | _, _ => None
            end
        | EmptyString => None
        end
      else if (nat_of_ascii c <? 32)%nat then None
      else match text rest with
           | Some (body, after) => Some (String c body, after)
           | None => None
           end
  end.

Fixpoint after_prefix (p s : string) : option string :=
  match p with
  | EmptyString => Some s
  | String a p' =>
      match s with
      | String b s' => if Ascii.eqb a b then after_prefix p' s' else None
      | EmptyString => None
      end
  end.

Definition word (s : string) : option (JVal * string) :=
  match after_prefix "null" s, after_prefix "true" s, after_prefix "false" s with
  | Some rest, _, _ => Some (JNull, rest)
  | _, Some rest, _ => Some (JBool true, rest)
  | _, _, Some rest => Some (JBool false, rest)
  | _, _, _ => None
  end.

Fixpoint element (fuel : nat) (s : string) : option (JVal * string) :=
  match fuel with
  | O => None
  | S fuel =>
      match skip s with
      | EmptyString => None
      | String c rest =>
          if Ascii.eqb c quote then
            match text rest with
            | Some (str, after) => Some (JStr str, after)
            | None => None
            end
          else if Ascii.eqb c "[" then
            match skip rest with
            | String "]" after => Some (JArr [], after)
            | _ => match elements fuel rest with
                   | Some (l, after) => Some (JArr l, after)
                   | None => None
                   end
            end
          else if Ascii.eqb c "{" then
            match skip rest with
            | String "}" after => Some (JObj [], after)
            | _ => match members fuel rest with
                   | Some (l, after) => Some (JObj l, after)
                   | None => None
                   end
            end
          else if Ascii.eqb c "-" then
            match rest with
            | String d _ =>
                match digit d with
                | Some _ => let '(n, after) := digits rest 0 in
                            Some (JNum (- Z.of_N n), after)
                | None => None
                end
            | EmptyString => None
            end
          else match digit c with
               | Some _ => let '(n, after) := digits (String c rest) 0 in
                           Some (JNum (Z.of_N n), after)
               | None => word (String c rest)
               end
      end
  end
with elements (fuel : nat) (s : string) : option (list JVal * string) :=
  match fuel with
  | O => None
  | S fuel =>
      match element fuel s with
      | Some (v, after) =>
          match skip after with
          | String "," after' =>
              match elements fuel after' with
              | Some (l, rest) => Some (v :: l, rest)
              | None => None
              end
          | String "]" after' => Some ([v], after')
          | _ => None
          end
      | None => None
      end
  end
with members (fuel : nat) (s : string) : option (list (string * JVal) * string) :=
  match fuel with
  | O => None
  | S fuel =>
      match skip s with
      | String c rest =>
          if Ascii.eqb c quote then
            match text rest with
            | Some (k, after) =>
                match skip after with
                | String ":" after' =>
                    match element fuel after' with
                    | Some (v, after'') =>
                        match skip after'' with
                        | String "," r =>
                            match members fuel r with
                            | Some (l, r') => Some ((k, v) :: l, r')
                            | None => None
                            end
                        | String "}" r => Some ([(k, v)], r)
                        | _ => None
                        end
                    | None => None
                    end
                | _ => None
                end
            | None => None
            end
          else None
      | EmptyString => None
      end
  end.

(** [JSON.parse], [None] for a [SyntaxError]. *)
Definition parse (s : string) : option JVal :=
  match element (2 * String.length s + 2) s with
  | Some (v, rest) =>
      match skip rest with
      | EmptyString => Some v
      | _ => None
      end
  | None => None
  end.

End Json.

Definition env0 : Env :=
  {| dateNow := 1700000000000%N; isoNow := "2023-11-14T22:13:20.000Z";
     random36 := "k3j9x0q2a";
     i18n__ := fun key _ _ => key;
     JSON_stringify := Json.stringify;
     JSON_parse := Json.parse |}.

Example json_round_trip :
  let v := JObj [("id", JStr "msg_1"); ("n", JNum (-12)); ("ok", JBool false);
                 ("tags", JArr [JStr "a b"; JNull; JArr []]); ("meta", JObj [])] in
  Json.parse (Json.stringify v) = Some v
  /\ Json.parse "websocket.connected" = None
  /\ Json.parse "true" = Some (JBool true)
  /\ Json.parse "12" = Some (JNum 12).
Proof. vm_compute. repeat split. Qed.

Definition redis_up : CacheManager :=
  {| client := Some {| keyspace := ∅; commandsFail := false |}; isConnected := true |}.

Definition redis_down : CacheManager :=
  {| client := Some {| keyspace := ∅; commandsFail := false |}; isConnected := false |}.

Definition alice1 : Socket :=
  {| socket_id := "s1"; userId := "alice"; userRole := "user"; userLanguage := "en" |}.
Definition alice2 : Socket :=
  {| socket_id := "s2"; userId := "alice"; userRole := "user"; userLanguage := "en" |}.
Definition bob1 : Socket :=
  {| socket_id := "s3"; userId := "bob"; userRole := "user"; userLanguage := "en" |}.

Example connect_twice :
  let w := run [(env0, connection alice1); (env0, connection alice2)] (initial redis_up) in
  resolve "alice" w = Some alice2 /\ is_open "s1" w = true.
Proof. vm_compute. split; reflexivity. Qed.

(** * Reasoning about handlers *)

Lemma exec_bind {A B} (m : M A) (k : A -> M B) (w : World) :
  exec (m ≫= k) w =
  match m w with
  | (Return a, w') => exec (k a) w'
  | (Throw _, w') => w'
  end.
Proof.
  unfold exec, mbind, M_bind. destruct (m w) as [[a|e] w']; reflexivity.
Qed.

Lemma bind_run {A B} (m : M A) (k : A -> M B) (w w1 : World) (a : A) :
  m w = (Return a, w1) -> (m ≫= k) w = k a w1.
Proof. intros Hm. unfold mbind, M_bind. by rewrite Hm. Qed.

Lemma bind_throw {A B} (m : M A) (k : A -> M B) (w w1 : World) (e : string) :
  m w = (Throw e, w1) -> (m ≫= k) w = (Throw e, w1).
Proof. intros Hm. unfold mbind, M_bind. by rewrite Hm. Qed.

Lemma modify_bind_run {B} (f : World -> World) (k : unit -> M B) (w : World) :
  (modify f ≫= k) w = k tt (f w).
Proof. reflexivity. Qed.

Lemma gets_bind_run {A B} (f : World -> A) (k : A -> M B) (w : World) :
  (gets f ≫= k) w = k (f w) w.
Proof. reflexivity. Qed.

Lemma exec_modify_bind {B} (f : World -> World) (k : unit -> M B) (w : World) :
  exec (modify f ≫= k) w = exec (k tt) (f w).
Proof. reflexivity. Qed.

(** A computation never throws. *)
Definition returns {A} (m : M A) : Prop :=
  forall w, exists a, fst (m w) = Return a.

Section frame.
Context (R : relation World) `{!PreOrder R}.

(** Every run of [m] relates the world before to the world after. *)
Definition preserves {A} (m : M A) : Prop := forall w, R w (exec m w).

Lemma preserves_ret {A} (a : A) : preserves (mret a).
Proof. intros w. reflexivity. Qed.

Lemma preserves_throw {A} (e : string) : preserves (@throw A e).
Proof. intros w. reflexivity. Qed.

Lemma preserves_gets {A} (f : World -> A) : preserves (gets f).
Proof. intros w. reflexivity. Qed.

Lemma preserves_modify (f : World -> World) :
  (forall w, R w (f w)) -> preserves (modify f).
Proof. intros Hf w. apply Hf. Qed.

Lemma preserves_bind {A B} (m : M A) (k : A -> M B) :
  preserves m -> (forall a, preserves (k a)) -> preserves (m ≫= k).
Proof.
  intros Hm Hk w. rewrite exec_bind. specialize (Hm w). unfold exec in Hm.
  destruct (m w) as [[a|e] w']; simpl in Hm; [|assumption].
  etransitivity; [eassumption | apply Hk].
Qed.

Lemma preserves_try_catch {A} (body : M A) (handler : string -> M A) :
  preserves body -> (forall e, preserves (handler e)) ->
  preserves (try_catch body handler).
Proof.
  intros Hb Hh w. specialize (Hb w). unfold exec, try_catch in *.
  destruct (body w) as [[a|e] w']; simpl in *; [assumption|].
  etransitivity; [eassumption | apply Hh].
Qed.

Lemma preserves_unawaited {A} (m : M A) : preserves m -> preserves (unawaited m).
Proof.
  intros Hm. unfold unawaited. apply preserves_try_catch.
  - apply preserves_bind; [exact Hm | intros a; apply preserves_ret].
  - intros e. apply preserves_ret.
Qed.

Lemma preserves_foldr {A} (f : A -> M unit -> M unit) (l : list A) :
  (forall a rest, preserves rest -> preserves (f a rest)) ->
  preserves (foldr f (mret tt) l).
Proof.
  intros Hf. induction l as [|a l IH]; simpl; [apply preserves_ret | by apply Hf].
Qed.
End frame.

(** Splits a goal [preserves R m] along the structure of [m]; what is left
    are the primitive operations. *)
Ltac frame_step :=
  lazymatch goal with
  | |- preserves _ (mret _) => apply preserves_ret; typeclasses eauto
  | |- preserves _ (throw _) => apply preserves_throw; typeclasses eauto
  | |- preserves _ (gets _) => apply preserves_gets; typeclasses eauto
  | |- preserves _ (mbind _ _) =>
      apply preserves_bind; [typeclasses eauto | | intros ?]
  | |- preserves _ (try_catch _ _) =>
      apply preserves_try_catch; [typeclasses eauto | | intros ?]
  | |- preserves _ (unawaited _) =>
      apply preserves_unawaited; [typeclasses eauto | ]
  | |- preserves _ (match ?x with _ => _ end) => destruct x
  end.

(** ** Frames *)

(** The coordinator's own state is untouched. *)
Definition same_this : relation World := fun w w' => this w' = this w.

(** The sockets' room sets are untouched. *)
Definition same_socketRooms : relation World :=
  fun w w' => socketRooms w' = socketRooms w.

(** Nothing is sent. *)
Definition same_outbox : relation World := fun w w' => outbox w' = outbox w.

(** The cache is untouched at the keys outside the family [touched]. *)
Definition cache_outside (touched : string -> bool) : relation World :=
  fun w w' => forall k, touched k = false -> stored k (cache w') = stored k (cache w).

(** Only emissions satisfying [Q] are appended to the outbox. *)
Definition sends_only (Q : Effect -> Prop) : relation World :=
  fun w w' => exists l, outbox w' = outbox w ++ l /\ Forall Q l.

#[export] Instance same_this_preorder : PreOrder same_this.
Proof. split; [intros w; reflexivity | intros a b c; unfold same_this; congruence]. Qed.

#[export] Instance same_socketRooms_preorder : PreOrder same_socketRooms.
Proof.
  split; [intros w; reflexivity | intros a b c; unfold same_socketRooms; congruence].
Qed.

#[export] Instance same_outbox_preorder : PreOrder same_outbox.
Proof. split; [intros w; reflexivity | intros a b c; unfold same_outbox; congruence]. Qed.

#[export] Instance cache_outside_preorder touched : PreOrder (cache_outside touched).
Proof.
  split; [intros w k _; reflexivity |].
  intros a b c Hab Hbc k Hk. rewrite (Hbc k Hk). apply Hab, Hk.
Qed.

#[export] Instance sends_only_preorder Q : PreOrder (sends_only Q).
Proof.
  split.
  - intros w. exists []. split; [by rewrite app_nil_r | constructor].
  - intros a b c [l1 [H1 F1]] [l2 [H2 F2]]. exists (l1 ++ l2). split.
    + rewrite H2, H1. by rewrite app_assoc.
    + by apply Forall_app.
Qed.

(** A relation is a frame for a component of the world when changing that
    component alone stays within the relation. *)
Class FrameLog (R : relation World) : Prop :=
  frame_log : forall w level message, R w (push_log level message w).
Class FrameOutbox (R : relation World) : Prop :=
  frame_outbox : forall w e, R w (push_outbox e w).
Class FrameCache (R : relation World) : Prop :=
  frame_cache : forall w c, R w (with_cache c w).
Class FrameSockets (R : relation World) : Prop :=
  frame_sockets : forall w f, R w (with_socketRooms f w).
Class FrameThis (R : relation World) : Prop :=
  frame_this : forall w f, R w (with_this f w).

#[export] Instance same_this_log : FrameLog same_this.
Proof. intros w l m. reflexivity. Qed.
#[export] Instance same_this_outbox : FrameOutbox same_this.
Proof. intros w e. reflexivity. Qed.
#[export] Instance same_this_cache : FrameCache same_this.
Proof. intros w c. reflexivity. Qed.
#[export] Instance same_this_sockets : FrameSockets same_this.
Proof. intros w f. reflexivity. Qed.

#[export] Instance same_socketRooms_log : FrameLog same_socketRooms.
Proof. intros w l m. reflexivity. Qed.
#[export] Instance same_socketRooms_outbox : FrameOutbox same_socketRooms.
Proof. intros w e. reflexivity. Qed.
#[export] Instance same_socketRooms_cache : FrameCache same_socketRooms.
Proof. intros w c. reflexivity. Qed.
#[export] Instance same_socketRooms_this : FrameThis same_socketRooms.
Proof. intros w f. reflexivity. Qed.

#[export] Instance same_outbox_log : FrameLog same_outbox.
Proof. intros w l m. reflexivity. Qed.
#[export] Instance same_outbox_cache : FrameCache same_outbox.
Proof. intros w c. reflexivity. Qed.
#[export] Instance same_outbox_sockets : FrameSockets same_outbox.
Proof. intros w f. reflexivity. Qed.
#[export] Instance same_outbox_this : FrameThis same_outbox.
Proof. intros w f. reflexivity. Qed.

#[export] Instance cache_outside_log touched : FrameLog (cache_outside touched).
Proof. intros w l m k _. reflexivity. Qed.
#[export] Instance cache_outside_outbox touched : FrameOutbox (cache_outside touched).
Proof. intros w e k _. reflexivity. Qed.
#[export] Instance cache_outside_sockets touched : FrameSockets (cache_outside touched).
Proof. intros w f k _. reflexivity. Qed.
#[export] Instance cache_outside_this touched : FrameThis (cache_outside touched).
Proof. intros w f k _. reflexivity. Qed.

#[export] Instance sends_only_log Q : FrameLog (sends_only Q).
Proof. intros w l m. exists []. split; [symmetry; apply app_nil_r | constructor]. Qed.
#[export] Instance sends_only_cache Q : FrameCache (sends_only Q).
Proof. intros w c. exists []. split; [symmetry; apply app_nil_r | constructor]. Qed.
#[export] Instance sends_only_sockets Q : FrameSockets (sends_only Q).
Proof. intros w f. exists []. split; [symmetry; apply app_nil_r | constructor]. Qed.
#[export] Instance sends_only_this Q : FrameThis (sends_only Q).
Proof. intros w f. exists []. split; [symmetry; apply app_nil_r | constructor]. Qed.

Create HintDb frame.

Ltac frame_leaf :=
  solve [ apply frame_this; typeclasses eauto
        | apply frame_log; typeclasses eauto
        | apply frame_outbox; typeclasses eauto
        | apply frame_cache; typeclasses eauto
        | apply frame_sockets; typeclasses eauto ].

Ltac frame :=
  repeat first
    [ solve [eauto with frame typeclass_instances]
    | frame_step
    | lazymatch goal with
      | |- preserves _ (modify _) => apply preserves_modify; intros ?; try frame_leaf
      end ].

(** *** The operations under a frame *)

Section operations.
Context (R : relation World) `{!PreOrder R}.

Lemma frame_emit `{!FrameOutbox R} e : preserves R (emit e).
Proof. intros w. apply frame_outbox. Qed.

Lemma frame_log_op `{!FrameLog R} level message : preserves R (log level message).
Proof. intros w. apply frame_log. Qed.

Lemma frame_socket_join `{!FrameSockets R} socket room :
  preserves R (socket_join socket room).
Proof. intros w. apply frame_sockets. Qed.

Lemma frame_socket_leave `{!FrameSockets R} socket room :
  preserves R (socket_leave socket room).
Proof. intros w. apply frame_sockets. Qed.

Lemma frame_as_array what v : preserves R (as_array what v).
Proof. unfold as_array. frame. Qed.

Lemma frame_call_trim message : preserves R (call_trim message).
Proof. unfold call_trim. frame. Qed.

Lemma frame_last_20 messages : preserves R (last_20 messages).
Proof. unfold last_20. frame. Qed.

Lemma frame_update_members userId action metadata :
  preserves R (update_members userId action metadata).
Proof. unfold update_members. frame. Qed.

Lemma frame_cacheGet `{!FrameLog R} env key : preserves R (cacheGet env key).
Proof.
  pose proof frame_log_op.
  unfold cacheGet, client_get, parse, logError, logWarning. frame.
Qed.

Lemma frame_cacheSet `{!FrameLog R} `{!FrameCache R} env key v seconds :
  preserves R (cacheSet env key v seconds).
Proof.
  pose proof frame_log_op.
  unfold cacheSet, client_set, logError, logWarning. frame.
Qed.

Lemma frame_translate `{!FrameLog R} `{!FrameCache R} env key params locale :
  preserves R (translate env key params locale).
Proof.
  pose proof frame_cacheGet. pose proof frame_cacheSet.
  unfold translate. frame.
Qed.
End operations.

#[export] Hint Resolve frame_emit frame_log_op frame_socket_join frame_socket_leave
  frame_as_array frame_call_trim frame_last_20 frame_update_members
  frame_cacheGet frame_cacheSet frame_translate : frame.

Section methods.
Context (R : relation World) `{!PreOrder R} `{!FrameLog R} `{!FrameCache R}.

Lemma frame_updateRoomMetadata env roomId userId action :
  preserves R (updateRoomMetadata env roomId userId action).
Proof. unfold updateRoomMetadata. frame. Qed.

Lemma frame_storeMessage env messageObj : preserves R (storeMessage env messageObj).
Proof. unfold storeMessage. frame. Qed.

Lemma frame_storePrivateMessage env messageObj :
  preserves R (storePrivateMessage env messageObj).
Proof. unfold storePrivateMessage. frame. Qed.

Lemma frame_storeOfflineNotification env userId notification :
  preserves R (storeOfflineNotification env userId notification).
Proof. unfold storeOfflineNotification. frame. Qed.

Context `{!FrameOutbox R}.

Lemma frame_sendMessageHistory env socket roomId :
  preserves R (sendMessageHistory env socket roomId).
Proof. unfold sendMessageHistory. frame. Qed.

Lemma frame_updateUserOnlineStatus env userId isOnline :
  preserves R (updateUserOnlineStatus env userId isOnline).
Proof. unfold updateUserOnlineStatus, broadcastToRoom. frame. Qed.

Lemma frame_sendUserActiveRooms env socket :
  preserves R (sendUserActiveRooms env socket).
Proof. unfold sendUserActiveRooms. frame. Qed.

Lemma frame_message_error env socket key :
  preserves R (message_error env socket key).
Proof. unfold message_error. frame. Qed.
End methods.

#[export] Hint Resolve frame_updateRoomMetadata frame_storeMessage
  frame_storePrivateMessage frame_storeOfflineNotification frame_sendMessageHistory
  frame_updateUserOnlineStatus frame_sendUserActiveRooms frame_message_error : frame.

(** * The connection registry *)

Lemma run_app (l1 l2 : list (Env * Event)) (w : World) :
  run (l1 ++ l2) w = run l2 (run l1 w).
Proof. unfold run. apply foldl_app. Qed.

Lemma run_snoc (l : list (Env * Event)) (env : Env) (ev : Event) (w : World) :
  run (l ++ [(env, ev)]) w = exec (step env ev) (run l w).
Proof. rewrite run_app. reflexivity. Qed.

(** What [handleConnection] does to the registry and to the socket. *)
Lemma handleConnection_registry (env : Env) (socket : Socket) (w : World) :
  let w' := exec (handleConnection env socket) w in
  connectedUsers (this w') = <[userId socket := socket]> (connectedUsers (this w))
  /\ userSockets (this w') = <[socket_id socket := userId socket]> (userSockets (this w))
  /\ rooms (this w') = rooms (this w)
  /\ dom (socketRooms w') = {[socket_id socket]} ∪ dom (socketRooms w).
Proof.
  unfold handleConnection, logInfo, log, socket_join.
  rewrite !exec_modify_bind.
  match goal with |- context [exec ?rest ?w1] =>
    assert (Ht : preserves same_this rest) by frame;
    assert (Hs : preserves same_socketRooms rest) by frame;
    specialize (Ht w1); specialize (Hs w1)
  end.
  cbv zeta. unfold same_this in Ht. unfold same_socketRooms in Hs.
  rewrite Ht, Hs. simpl. repeat split; try reflexivity.
  rewrite !dom_insert_L. set_solver.
Qed.

(** The events of a sequence of connections. *)
Definition opened (conns : list (Env * Socket)) : list (Env * Event) :=
  map (fun c => (c.1, connection c.2)) conns.

Lemma run_opened_cons (env : Env) (s : Socket) (conns : list (Env * Socket))
    (w : World) :
  run (opened ((env, s) :: conns)) w
  = run (opened conns) (exec (step env (connection s)) w).
Proof. reflexivity. Qed.

Lemma step_connection_registry (env : Env) (socket : Socket) (w : World) :
  let w' := exec (step env (connection socket)) w in
  connectedUsers (this w') = <[userId socket := socket]> (connectedUsers (this w))
  /\ dom (socketRooms w') = {[socket_id socket]} ∪ dom (socketRooms w).
Proof.
  simpl. rewrite exec_modify_bind.
  destruct (handleConnection_registry env socket
              (with_socketRooms <[socket_id socket := [socket_id socket]]> w))
    as (Hc & _ & _ & Hd).
  split; [exact Hc|]. rewrite Hd. simpl. rewrite dom_insert_L. set_solver.
Qed.

Lemma step_connection_userSockets (env : Env) (socket : Socket) (w : World) :
  userSockets (this (exec (step env (connection socket)) w))
  = <[socket_id socket := userId socket]> (userSockets (this w)).
Proof.
  simpl. rewrite exec_modify_bind.
  destruct (handleConnection_registry env socket
              (with_socketRooms <[socket_id socket := [socket_id socket]]> w))
    as (_ & Hu & _). exact Hu.
Qed.

Lemma opened_keeps_userSockets (P : string) (conns : list (Env * Socket))
    (w : World) (sid : string) :
  Forall (fun c => userId c.2 = P) conns ->
  userSockets (this w) !! sid = Some P ->
  userSockets (this (run (opened conns) w)) !! sid = Some P.
Proof.
  intros HP. revert w. induction HP as [|[env s] conns Hs _ IH]; intros w Hw; [exact Hw|].
  rewrite run_opened_cons. apply IH. rewrite step_connection_userSockets. simpl in Hs.
  destruct (decide (socket_id s = sid)) as [->|Hne].
  - rewrite lookup_insert_eq. by rewrite Hs.
  - by rewrite lookup_insert_ne.
Qed.

Lemma opened_userSockets (P : string) (conns : list (Env * Socket)) (w : World) :
  Forall (fun c => userId c.2 = P) conns ->
  Forall (fun c => userSockets (this (run (opened conns) w)) !! socket_id c.2 = Some P)
    conns.
Proof.
  intros HP. revert w. induction HP as [|[env s] conns Hs HP IH]; intros w; constructor.
  - rewrite run_opened_cons. apply opened_keeps_userSockets; [exact HP|].
    rewrite step_connection_userSockets. simpl in Hs. rewrite Hs.
    apply lookup_insert_eq.
  - apply IH.
Qed.

Lemma opened_keeps_open (conns : list (Env * Socket)) (w : World) (sid : string) :
  is_open sid w = true -> is_open sid (run (opened conns) w) = true.
Proof.
  revert w. induction conns as [|[env s] conns IH]; intros w Hopen; [exact Hopen|].
  simpl. apply IH. unfold is_open in *.
  apply bool_decide_eq_true. apply bool_decide_eq_true in Hopen.
  apply elem_of_dom. apply elem_of_dom in Hopen.
  destruct (step_connection_registry env s w) as [_ Hd].
  cbv zeta in Hd. simpl in Hd. simpl. rewrite Hd. set_solver.
Qed.

Lemma opened_opens (conns : list (Env * Socket)) (w : World) :
  Forall (fun c => is_open (socket_id c.2) (run (opened conns) w) = true) conns.
Proof.
  revert w. induction conns as [|[env s] conns IH]; intros w; constructor.
  - simpl. apply opened_keeps_open. unfold is_open.
    apply bool_decide_eq_true, elem_of_dom.
    destruct (step_connection_registry env s w) as [_ Hd].
    cbv zeta in Hd. simpl in Hd. rewrite Hd. set_solver.
  - apply IH.
Qed.

(** C1, as the code has it.  After any sequence of connections of one
    principal [P], the registry resolves [P] to the socket of the most
    recent connection; the coordinator closes none of the earlier sockets:
    every socket of the sequence is still open and still recorded as a
    socket of [P]. *)
Theorem connections_last_writer_wins (P : string) (w : World)
    (earlier : list (Env * Socket)) (env : Env) (latest : Socket) :
  Forall (fun c => userId c.2 = P) earlier ->
  userId latest = P ->
  let conns := earlier ++ [(env, latest)] in
  let w' := run (opened conns) w in
  resolve P w' = Some latest
  /\ Forall (fun c => is_open (socket_id c.2) w' = true) conns
  /\ Forall (fun c => userSockets (this w') !! socket_id c.2 = Some P) conns.
Proof.
  intros Hearlier HP conns w'. split; [|split].
  - subst w' conns. unfold opened. rewrite map_app. simpl. rewrite run_snoc.
    destruct (step_connection_registry env latest
                (run (map (fun c => (c.1, connection c.2)) earlier) w)) as [Hc _].
    unfold resolve. cbv zeta in Hc. rewrite Hc, HP. apply lookup_insert_eq.
  - apply opened_opens.
  - apply opened_userSockets. apply Forall_app. split; [exact Hearlier|].
    constructor; [exact HP | constructor].
Qed.

Lemma connections_last_writer_wins_witness :
  let conns := [(env0, alice1); (env0, alice2)] in
  let w' := run (opened conns) (initial redis_up) in
  resolve "alice" w' = Some alice2
  /\ Forall (fun c => is_open (socket_id c.2) w' = true) conns
  /\ Forall (fun c => userSockets (this w') !! socket_id c.2 = Some "alice") conns.
Proof.
  apply (connections_last_writer_wins "alice" (initial redis_up)
           [(env0, alice1)] env0 alice2).
  - repeat constructor.
  - reflexivity.
Defined.

(** C1 fails as stated: the first socket of a principal is still open after
    the principal's second connection, and when that older socket later
    disconnects the registry loses the principal although the newer socket
    is open. *)
Lemma superseded_socket_counterexample :
  let w := run [(env0, connection alice1); (env0, connection alice2)]
             (initial redis_up) in
  let w' := run [(env0, disconnect alice1 "transport close")] w in
  resolve "alice" w = Some alice2
  /\ is_open "s1" w = true
  /\ is_open "s2" w' = true
  /\ resolve "alice" w' = None.
Proof. vm_compute. repeat split; reflexivity. Qed.

(** * Translations and error replies *)

Lemma cacheGet_value (env : Env) (key : string) (w : World) :
  fst (cacheGet env key w) = cache_get env key (cache w).
Proof.
  unfold cacheGet, client_get, parse, cache_get, logWarning, logError, log, try_catch,
    throw, gets, modify, mbind, M_bind, mret, M_ret.
  destruct (isReady (cache w)); simpl; [|reflexivity].
  destruct (client (cache w)) as [r|]; simpl; [|reflexivity].
  destruct (commandsFail r); simpl; [reflexivity|].
  destruct (keyspace r !! key) as [e|]; simpl; [|reflexivity].
  destruct (JSON_parse env (value e)); reflexivity.
Qed.

Lemma unawaited_returns {A} (m : M A) (w : World) :
  unawaited m w = (Return tt, exec m w).
Proof.
  unfold unawaited, try_catch, exec, mbind, M_bind, mret, M_ret.
  destruct (m w) as [[a|e] w1]; reflexivity.
Qed.

Lemma translate_value (env : Env) (key : string) (params : JVal) (locale : string)
    (w : World) :
  fst (translate env key params locale w)
  = Return (JPromise (translation env key params locale w)).
Proof.
  unfold translate, translation, try_catch.
  set (cacheKey := _ +:+ _).
  pose proof (cacheGet_value env cacheKey w) as Hv.
  unfold mbind at 1. unfold M_bind.
  destruct (cacheGet env cacheKey w) as [[v|e] w1]; simpl in Hv; rewrite <- Hv;
    [|reflexivity].
  destruct (falsy v); [|reflexivity].
  unfold mbind, M_bind. rewrite unawaited_returns. reflexivity.
Qed.

(** The keys [translate] may write. *)
Definition i18n_key (k : string) : bool := starts_with "i18n:" k.

Lemma cacheSet_outside (touched : string -> bool) (env : Env) (key : string)
    (v : JVal) (seconds : Z) :
  touched key = true -> preserves (cache_outside touched) (cacheSet env key v seconds).
Proof.
  intros Hkey w k Hk.
  assert (Hne : key <> k) by (intros ->; congruence).
  unfold exec, cacheSet, client_set, logError, logWarning, log, try_catch, throw, gets,
    modify, mbind, M_bind, mret, M_ret, stored, isReady.
  destruct w as [t [[[ks cf]|] conn] sr ob lg]; simpl;
    destruct conn; simpl; try reflexivity;
    destruct cf, (0 <? seconds); simpl; try reflexivity; by rewrite lookup_insert_ne.
Qed.

Lemma translate_outside (touched : string -> bool) env key params locale :
  (forall k, i18n_key k = true -> touched k = true) ->
  preserves (cache_outside touched) (translate env key params locale).
Proof.
  intros Hsub. unfold translate. frame.
  apply cacheSet_outside, Hsub. reflexivity.
Qed.

(** [message_error] replies to the socket alone, with the translation of
    the given key, and writes nothing but the translation cache. *)
Lemma message_error_run (env : Env) (socket : Socket) (key : string) (w : World) :
  exists w1,
    message_error env socket key w
    = (Return tt,
       push_outbox
         (socket_emit (socket_id socket) "message_error"
            (JObj [("error", JPromise (translation env key (JObj [])
                                         (userLanguage socket) w))])) w1)
    /\ this w1 = this w /\ socketRooms w1 = socketRooms w /\ outbox w1 = outbox w
    /\ cache_outside i18n_key w w1.
Proof.
  unfold message_error.
  pose proof (translate_value env key (JObj []) (userLanguage socket) w) as Hv.
  assert (Ht : preserves same_this (translate env key (JObj []) (userLanguage socket)))
    by frame.
  assert (Hs : preserves same_socketRooms
                 (translate env key (JObj []) (userLanguage socket))) by frame.
  assert (Ho : preserves same_outbox
                 (translate env key (JObj []) (userLanguage socket))) by frame.
  assert (Hc : preserves (cache_outside i18n_key)
                 (translate env key (JObj []) (userLanguage socket)))
    by (apply translate_outside; auto).
  specialize (Ht w). specialize (Hs w). specialize (Ho w). specialize (Hc w).
  unfold exec in *.
  destruct (translate _ _ _ _ w) as [[v|e] w1] eqn:Htr; simpl in *; [|discriminate].
  injection Hv as ->. exists w1. rewrite (bind_run _ _ _ _ _ Htr).
  repeat split; assumption.
Qed.

Lemma sent_push_outbox {A} (m : M A) (w w1 : World) (a : A) (e : Effect) :
  m w = (Return a, push_outbox e w1) -> outbox w1 = outbox w -> sent m w = [e].
Proof.
  intros Hm Ho. unfold sent, exec. rewrite Hm. simpl. rewrite Ho.
  by rewrite drop_app_length.
Qed.

Lemma sends_only_emit (Q : Effect -> Prop) (e : Effect) :
  Q e -> preserves (sends_only Q) (emit e).
Proof. intros HQ w. exists [e]. split; [reflexivity | by constructor]. Qed.

(** * Private messages *)

(** What [handlePrivateMessage] does when the registry has no socket for
    the target. *)
Lemma handlePrivateMessage_offline_run (env : Env) (socket : Socket)
    (targetUserId : string) (message : JVal) (messageType : option JVal) (w : World) :
  resolve targetUserId w = None ->
  exists w1,
    handlePrivateMessage env socket targetUserId message messageType w
    = (Return tt,
       push_outbox
         (socket_emit (socket_id socket) "private_message_error"
            (JObj [("error",
                    JPromise (translation env "websocket.user_offline"
                                (JObj [("userId", JStr targetUserId)])
                                (userLanguage socket) w))])) w1)
    /\ this w1 = this w /\ socketRooms w1 = socketRooms w /\ outbox w1 = outbox w
    /\ cache_outside i18n_key w w1.
Proof.
  unfold resolve. intros Hoff.
  unfold handlePrivateMessage, try_catch.
  unfold mbind at 1. unfold M_bind, gets. rewrite Hoff.
  set (tr := translate env "websocket.user_offline"
               (JObj [("userId", JStr targetUserId)]) (userLanguage socket)).
  pose proof (translate_value env "websocket.user_offline"
                (JObj [("userId", JStr targetUserId)]) (userLanguage socket) w) as Hv.
  assert (Ht : preserves same_this tr) by (subst tr; frame).
  assert (Hs : preserves same_socketRooms tr) by (subst tr; frame).
  assert (Ho : preserves same_outbox tr) by (subst tr; frame).
  assert (Hc : preserves (cache_outside i18n_key) tr)
    by (subst tr; apply translate_outside; auto).
  specialize (Ht w). specialize (Hs w). specialize (Ho w). specialize (Hc w).
  unfold exec in *. fold tr in Hv.
  destruct (tr w) as [[v|e] w1] eqn:Htr; simpl in *; [|discriminate].
  injection Hv as ->. exists w1. rewrite (bind_run _ _ _ _ _ Htr).
  repeat split; assumption.
Qed.

(** C3, as the code has it.  A private message whose target has no socket
    in the registry is answered with a [private_message_error] event on the
    sender's socket and with nothing else: nothing is delivered, the
    coordinator's state is unchanged, and no key of the cache other than
    the translation cache is written, so the target's offline queue and
    private-message store stay as they were. *)
Theorem private_message_to_offline_target (env : Env) (socket : Socket)
    (targetUserId : string) (message : JVal) (messageType : option JVal) (w : World) :
  resolve targetUserId w = None ->
  let handler := handlePrivateMessage env socket targetUserId message messageType in
  sent handler w
  = [socket_emit (socket_id socket) "private_message_error"
       (JObj [("error",
               JPromise (translation env "websocket.user_offline"
                           (JObj [("userId", JStr targetUserId)])
                           (userLanguage socket) w))])]
  /\ this (exec handler w) = this w
  /\ stored ("offline_notifications:" +:+ targetUserId) (cache (exec handler w))
     = stored ("offline_notifications:" +:+ targetUserId) (cache w)
  /\ stored ("private_messages:" +:+ targetUserId) (cache (exec handler w))
     = stored ("private_messages:" +:+ targetUserId) (cache w).
Proof.
  intros Hoff handler.
  destruct (handlePrivateMessage_offline_run env socket targetUserId message
              messageType w Hoff) as (w1 & Hrun & Ht & _ & Ho & Hc).
  fold handler in Hrun. split; [|split; [|split]].
  - eapply sent_push_outbox; eassumption.
  - unfold exec. rewrite Hrun. exact Ht.
  - unfold exec. rewrite Hrun. simpl. by apply Hc.
  - unfold exec. rewrite Hrun. simpl. by apply Hc.
Qed.

Lemma private_message_to_offline_target_witness :
  let handler := handlePrivateMessage env0 alice1 "bob" (JStr "hi") None in
  let w := run [(env0, connection alice1)] (initial redis_up) in
  sent handler w
  = [socket_emit "s1" "private_message_error"
       (JObj [("error",
               JPromise (translation env0 "websocket.user_offline"
                           (JObj [("userId", JStr "bob")]) "en" w))])]
  /\ this (exec handler w) = this w
  /\ stored "offline_notifications:bob" (cache (exec handler w))
     = stored "offline_notifications:bob" (cache w)
  /\ stored "private_messages:bob" (cache (exec handler w))
     = stored "private_messages:bob" (cache w).
Proof.
  apply (private_message_to_offline_target env0 alice1 "bob" (JStr "hi") None
           (run [(env0, connection alice1)] (initial redis_up))).
  vm_compute. reflexivity.
Defined.

(** C3 fails as stated: bob is offline, alice sends him a private message;
    alice's socket receives an error event and bob's offline queue stays
    empty. *)
Lemma offline_private_message_counterexample :
  let handler := handlePrivateMessage env0 alice1 "bob" (JStr "hi") None in
  let w := run [(env0, connection alice1)] (initial redis_up) in
  resolve "bob" w = None
  /\ sent handler w
     = [socket_emit "s1" "private_message_error"
          (JObj [("error", JPromise (JStr "websocket.user_offline"))])]
  /\ stored "offline_notifications:bob" (cache (exec handler w)) = None.
Proof. vm_compute. repeat split; reflexivity. Qed.

(** * Connection-opened handling and the offline queue *)

(** The events [handleConnection] sends. *)
Definition connection_event (e : Effect) : Prop :=
  event_of e ∈ ["connected"; "active_rooms"; "user_status_changed"].

(** The keys [handleConnection] may write: translations and the online
    mark of the user. *)
Definition connection_key (k : string) : bool :=
  i18n_key k || starts_with "user:" k.

Lemma handleConnection_sends (env : Env) (socket : Socket) :
  preserves (sends_only connection_event) (handleConnection env socket).
Proof.
  unfold handleConnection, sendUserActiveRooms, updateUserOnlineStatus, broadcastToRoom.
  frame; apply sends_only_emit; unfold connection_event; simpl; set_solver.
Qed.

Lemma handleConnection_cache (env : Env) (socket : Socket) :
  preserves (cache_outside connection_key) (handleConnection env socket).
Proof.
  unfold handleConnection, updateUserOnlineStatus, broadcastToRoom.
  frame.
  - apply translate_outside. intros k Hk. unfold connection_key. by rewrite Hk.
  - by apply cacheSet_outside.
Qed.

Lemma step_connection_sends (env : Env) (socket : Socket) :
  preserves (sends_only connection_event) (step env (connection socket)).
Proof. pose proof handleConnection_sends. simpl. frame. Qed.

Lemma step_connection_cache (env : Env) (socket : Socket) :
  preserves (cache_outside connection_key) (step env (connection socket)).
Proof. pose proof handleConnection_cache. simpl. frame. Qed.

Lemma opened_preserves (R : relation World) `{!PreOrder R}
    (conns : list (Env * Socket)) (w : World) :
  (forall env socket, preserves R (step env (connection socket))) ->
  R w (run (opened conns) w).
Proof.
  intros Hstep. revert w. induction conns as [|[env s] conns IH]; intros w.
  - reflexivity.
  - rewrite run_opened_cons. etransitivity; [apply Hstep | apply IH].
Qed.

(** What was sent while a list of events was handled. *)
Definition sent_during (events : list (Env * Event)) (w : World) : list Effect :=
  drop (length (outbox w)) (outbox (run events w)).

(** C2, as the code has it.  A private message addressed to a principal
    without a socket in the registry is not put in the principal's offline
    queue, and connection-opened handling neither reads nor clears that
    queue: whatever the target's later connections, all that is sent while
    they are handled are the [connected], [active_rooms] and
    [user_status_changed] events, so the message is replayed zero times. *)
Theorem offline_private_message_not_replayed (env : Env) (sender : Socket)
    (targetUserId : string) (message : JVal) (messageType : option JVal)
    (reconnects : list (Env * Socket)) (w : World) :
  resolve targetUserId w = None ->
  let queue := "offline_notifications:" +:+ targetUserId in
  let w1 := exec (handlePrivateMessage env sender targetUserId message messageType) w in
  stored queue (cache w1) = stored queue (cache w)
  /\ Forall connection_event (sent_during (opened reconnects) w1)
  /\ stored queue (cache (run (opened reconnects) w1)) = stored queue (cache w).
Proof.
  intros Hoff queue w1.
  assert (Hq : stored queue (cache w1) = stored queue (cache w)).
  { destruct (handlePrivateMessage_offline_run env sender targetUserId message
                messageType w Hoff) as (w0 & Hrun & _ & _ & _ & Hc).
    subst w1. unfold exec. rewrite Hrun. simpl. by apply Hc. }
  split; [exact Hq | split].
  - destruct (opened_preserves (sends_only connection_event) reconnects w1
                step_connection_sends) as [l [Hl HQ]].
    unfold sent_during. rewrite Hl. by rewrite drop_app_length.
  - rewrite <- Hq.
    apply (opened_preserves (cache_outside connection_key) reconnects w1
             step_connection_cache).
    reflexivity.
Qed.

Lemma offline_private_message_not_replayed_witness :
  let w := run [(env0, connection alice1)] (initial redis_up) in
  let reconnects := [(env0, bob1); (env0, bob1)] in
  let w1 := exec (handlePrivateMessage env0 alice1 "bob" (JStr "hi") None) w in
  stored "offline_notifications:bob" (cache w1)
  = stored "offline_notifications:bob" (cache w)
  /\ Forall connection_event (sent_during (opened reconnects) w1)
  /\ stored "offline_notifications:bob" (cache (run (opened reconnects) w1))
     = stored "offline_notifications:bob" (cache w).
Proof.
  apply (offline_private_message_not_replayed env0 alice1 "bob" (JStr "hi") None
           [(env0, bob1); (env0, bob1)]
           (run [(env0, connection alice1)] (initial redis_up))).
  vm_compute. reflexivity.
Defined.

(** C2 fails as stated: alice sends a private message to bob, who is
    offline; bob then connects.  All that bob's connection triggers are the
    three connection events; the message is delivered zero times, not
    once. *)
Lemma offline_replay_counterexample :
  let w := run [(env0, connection alice1)] (initial redis_up) in
  let w1 := exec (handlePrivateMessage env0 alice1 "bob" (JStr "hi") None) w in
  resolve "bob" w = None
  /\ stored "offline_notifications:bob" (cache w1) = None
  /\ map event_of (sent_during [(env0, connection bob1)] w1)
     = ["connected"; "active_rooms"; "user_status_changed"].
Proof. vm_compute. repeat split; reflexivity. Qed.

(** The queue that [sendNotificationToUser] fills for an offline user is
    not drained by a connection either. *)
Example offline_notification_stays_queued :
  let w := run [(env0, notification "bob" [("type", JStr "welcome")])]
             (initial redis_up) in
  let w' := run (opened [(env0, bob1)]) w in
  value <$> stored "offline_notifications:bob" (cache w)
  = Some (JSON_stringify env0
            (JArr [JObj [("type", JStr "welcome"); ("timestamp", JStr (isoNow env0))]]))
  /\ stored "offline_notifications:bob" (cache w')
     = stored "offline_notifications:bob" (cache w)
  /\ map event_of (sent_during (opened [(env0, bob1)]) w)
     = ["connected"; "active_rooms"; "user_status_changed"].
Proof. vm_compute. repeat split; reflexivity. Qed.

(** * Room messages: validation *)

(** A string of white space only (the empty string included). *)
Fixpoint whitespace_only (s : string) : bool :=
  match s with
  | EmptyString => true
  | String c rest => is_js_space c && whitespace_only rest
  end.

(** The body of a command is empty: it is missing (or another falsy
    value), or it is a string of white space only. *)
Definition empty_body (message : JVal) : bool :=
  match message with
  | JStr s => whitespace_only s
  | other => falsy other
  end.

Lemma trimStart_empty (s : string) :
  trimStart s = EmptyString <-> whitespace_only s = true.
Proof.
  induction s as [|c s IH]; simpl; [tauto|].
  destruct (is_js_space c); simpl; [exact IH|]. split; discriminate.
Qed.

Lemma whitespace_only_trimStart (s : string) :
  whitespace_only (trimStart s) = true -> whitespace_only s = true.
Proof.
  induction s as [|c s IH]; simpl; [tauto|].
  destruct (is_js_space c) eqn:Hc; simpl; [exact IH|].
  rewrite Hc. discriminate.
Qed.

Lemma whitespace_only_rev_onto (s acc : string) :
  whitespace_only (string_rev_onto s acc) = whitespace_only s && whitespace_only acc.
Proof.
  revert acc. induction s as [|c s IH]; intros acc; simpl; [reflexivity|].
  rewrite IH. simpl. destruct (is_js_space c), (whitespace_only s); reflexivity.
Qed.

Lemma string_rev_onto_empty (s acc : string) :
  string_rev_onto s acc = EmptyString -> s = EmptyString /\ acc = EmptyString.
Proof.
  revert acc. induction s as [|c s IH]; intros acc; simpl; [tauto|].
  intros H. apply IH in H as [_ H]. discriminate.
Qed.

(** [trim] leaves nothing exactly of the strings of white space. *)
Lemma trim_empty (s : string) :
  String.length (trim s) = 0%nat <-> whitespace_only s = true.
Proof.
  split.
  - intros Hlen. assert (Htrim : trim s = EmptyString)
      by (destruct (trim s); [reflexivity | discriminate]).
    unfold trim, trimEnd, string_rev in Htrim.
    apply string_rev_onto_empty in Htrim as [Htrim _].
    apply trimStart_empty in Htrim.
    rewrite whitespace_only_rev_onto in Htrim.
    apply andb_true_iff in Htrim as [Htrim _].
    by apply whitespace_only_trimStart.
  - intros Hws. apply trimStart_empty in Hws. unfold trim. rewrite Hws. reflexivity.
Qed.

Lemma is_empty_message_run (message : JVal) (w : World) :
  match message with JStr _ => True | other => falsy other = true end ->
  is_empty_message message w = (Return (empty_body message), w).
Proof.
  unfold is_empty_message. destruct message as [| b | n | s | l | f | v]; simpl;
    try (intros ->; reflexivity); try discriminate; try reflexivity.
  intros _. destruct s as [|c s]; [reflexivity|]. simpl falsy. cbv iota.
  unfold call_trim, mbind, M_bind, mret, M_ret. f_equal. f_equal.
  destruct (whitespace_only (String c s)) eqn:Hws.
  - apply bool_decide_eq_true. by apply trim_empty.
  - apply bool_decide_eq_false. intros Hlen. apply trim_empty in Hlen. congruence.
Qed.

(** The two validation failures of a room message, in the order the
    handler checks them, with the translation key of the error each
    produces. *)
Inductive Rejection (socket : Socket) (roomId : string) (message : JVal) (w : World)
  : string -> Prop :=
| EmptyMessage :
    empty_body message = true ->
    Rejection socket roomId message w "websocket.empty_message"
| NotInRoom (s : string) :
    message = JStr s ->
    whitespace_only s = false ->
    roomId ∉ rooms_of (socket_id socket) w ->
    Rejection socket roomId message w "websocket.not_in_room".

Lemma handleSendMessage_rejected_run (env : Env) (socket : Socket) (roomId : string)
    (message : JVal) (messageType metadata : option JVal) (w : World) (key : string) :
  Rejection socket roomId message w key ->
  handleSendMessage env socket roomId message messageType metadata w
  = message_error env socket key w.
Proof.
  intros Hrej. unfold handleSendMessage, try_catch.
  assert (Hbody : forall k : bool -> M unit,
             (is_empty_message message ≫= k) w = k (empty_body message) w).
  { intros k. apply bind_run, is_empty_message_run.
    destruct Hrej as [Hempty | s -> _ _]; [|exact I].
    destruct message; simpl in *; trivial. }
  rewrite Hbody.
  destruct (message_error_run env socket key w) as (w1 & Hrun & _).
  destruct Hrej as [Hempty | s -> Hws Hnot].
  - rewrite Hempty. rewrite Hrun. reflexivity.
  - change (empty_body (JStr s)) with (whitespace_only s). rewrite Hws. cbv iota.
    unfold mbind at 1. unfold M_bind, gets.
    rewrite bool_decide_eq_false_2 by exact Hnot.
    change (negb false) with true. cbv iota.
    rewrite Hrun. reflexivity.
Qed.

(** C7, as the code has it.  A room message whose body is empty or white
    space only is rejected with the empty-message error, and a room message
    with a proper body whose sender's socket is not in the room (the test
    is [socket.rooms.has(roomId)]) is rejected with the not-in-room error.
    In both cases the one thing sent is a [message_error] event on the
    originating socket, which only that socket receives; the coordinator's
    state (its message counter included) and every room history are as
    before, and nothing is broadcast. *)
Theorem rejected_room_message (env : Env) (socket : Socket) (roomId : string)
    (message : JVal) (messageType metadata : option JVal) (w : World) (key : string) :
  Rejection socket roomId message w key ->
  let handler := handleSendMessage env socket roomId message messageType metadata in
  let w' := exec handler w in
  sent handler w
  = [socket_emit (socket_id socket) "message_error"
       (JObj [("error", JPromise (translation env key (JObj [])
                                    (userLanguage socket) w))])]
  /\ Forall (fun e => recipients e w' = {[socket_id socket]}) (sent handler w)
  /\ this w' = this w
  /\ socketRooms w' = socketRooms w
  /\ (forall room, stored ("room:" +:+ room +:+ ":messages") (cache w')
                   = stored ("room:" +:+ room +:+ ":messages") (cache w)).
Proof.
  intros Hrej handler w'.
  pose proof (handleSendMessage_rejected_run env socket roomId message messageType
                metadata w key Hrej) as Heq.
  destruct (message_error_run env socket key w) as (w1 & Hrun & Ht & Hs & Ho & Hc).
  fold handler in Heq. rewrite Hrun in Heq.
  assert (Hsent : sent handler w
                  = [socket_emit (socket_id socket) "message_error"
                       (JObj [("error", JPromise (translation env key (JObj [])
                                                    (userLanguage socket) w))])])
    by (eapply sent_push_outbox; eassumption).
  split; [exact Hsent|]. rewrite Hsent.
  subst w'. unfold exec. rewrite Heq. simpl.
  repeat split; try assumption.
  - constructor; [reflexivity | constructor].
  - intros room. by apply Hc.
Qed.

Lemma rejected_room_message_witness :
  let w := run [(env0, connection alice1)] (initial redis_up) in
  let handler := handleSendMessage env0 alice1 "general" (JStr "hello") None None in
  let w' := exec handler w in
  sent handler w
  = [socket_emit "s1" "message_error"
       (JObj [("error", JPromise (translation env0 "websocket.not_in_room" (JObj [])
                                    "en" w))])]
  /\ Forall (fun e => recipients e w' = {[ "s1" ]}) (sent handler w)
  /\ this w' = this w
  /\ socketRooms w' = socketRooms w
  /\ (forall room, stored ("room:" +:+ room +:+ ":messages") (cache w')
                   = stored ("room:" +:+ room +:+ ":messages") (cache w)).
Proof.
  apply (rejected_room_message env0 alice1 "general" (JStr "hello") None None
           (run [(env0, connection alice1)] (initial redis_up))
           "websocket.not_in_room").
  apply (NotInRoom _ _ _ _ "hello").
  - reflexivity.
  - reflexivity.
  - refine (proj1 (bool_decide_eq_false _) _). vm_compute. reflexivity.
Defined.

(** C7, where the claim fails.  The handler tests [socket.rooms.has(roomId)],
    not membership in the room tracker.  A socket is in [role:{role}] from
    its connection on, a room its user never joined and the tracker does
    not know: a message to it is accepted, counted, stored and broadcast.
    And a sender outside a room whose body is a number is answered with the
    general failure, not with the not-in-room error. *)
Lemma not_in_room_counterexample :
  let w := run [(env0, connection alice1)] (initial redis_up) in
  let handler := handleSendMessage env0 alice1 "role:user" (JStr "hello") None None in
  let numeric := handleSendMessage env0 alice1 "general" (JNum 7) None None in
  rooms (this w) !! "role:user" = None
  /\ map event_of (sent handler w) = ["new_message"; "message_sent"]
  /\ messagesCount (connectionStats (this (exec handler w)))
     = messagesCount (connectionStats (this w)) + 1
  /\ is_Some (stored "room:role:user:messages" (cache (exec handler w)))
  /\ ("general" ∉ rooms_of "s1" w)
  /\ sent numeric w
     = [socket_emit "s1" "message_error"
          (JObj [("error", JPromise (translation env0 "websocket.message_failed"
                                       (JObj []) "en" w))])].
Proof.
  split; [vm_compute; reflexivity|].
  split; [vm_compute; reflexivity|].
  split; [vm_compute; reflexivity|].
  split; [vm_compute; by eexists|].
  split; [|vm_compute; reflexivity].
  refine (proj1 (bool_decide_eq_false _) _). vm_compute. reflexivity.
Qed.

Example blank_body_rejected :
  let w := run [(env0, connection alice1);
                (env0, join_room alice1 "general" JNull)] (initial redis_up) in
  let handler := handleSendMessage env0 alice1 "general" (JStr "  ") None None in
  map event_of (sent handler w) = ["message_error"]
  /\ stored "room:general:messages" (cache (exec handler w)) = None.
Proof. vm_compute. split; reflexivity. Qed.

(** * The history and offline store *)

(** The store answers: Redis is connected and its commands succeed. *)
Definition available (c : CacheManager) : bool :=
  match client c with
  | Some r => isConnected c && negb (commandsFail r)
  | None => false
  end.

(** The array a store operation starts from, [(await cache.get(key)) || []],
    when [get] answers. *)
Definition held (env : Env) (key : string) (c : CacheManager) : option JVal :=
  match cache_get env key c with
  | Return v => Some (js_or v (JArr []))
  | Throw _ => None
  end.

(** What [get] answers for the text of an entry. *)
Definition parsed (env : Env) (e : option Entry) : JVal :=
  match e with
  | Some e => default JNull (JSON_parse env (value e))
  | None => JNull
  end.

(** The cache a call of [set] leaves behind. *)
Definition after_set (env : Env) (key : string) (v : JVal) (seconds : Z)
    (c : CacheManager) : CacheManager :=
  match cache_set env key v seconds c with
  | Return (c', _) => c'
  | Throw _ => c
  end.

Lemma available_ready (c : CacheManager) : available c = true -> isReady c = true.
Proof.
  unfold available, isReady. destruct (client c); [|discriminate].
  by destruct (isConnected c).
Qed.

Lemma cache_get_available (env : Env) (key : string) (c : CacheManager) :
  available c = true -> cache_get env key c = Return (parsed env (stored key c)).
Proof.
  unfold available, cache_get, isReady, stored, parsed.
  destruct (client c) as [r|]; [|discriminate].
  destruct (isConnected c), (commandsFail r); simpl; try discriminate. intros _.
  destruct (keyspace r !! key) as [e|]; [|reflexivity].
  by destruct (JSON_parse env (value e)).
Qed.

Lemma cache_get_failing (env : Env) (key : string) (c : CacheManager) :
  isReady c = true -> available c = false -> cache_get env key c = Return JNull.
Proof.
  unfold available, cache_get, isReady. destruct (client c) as [r|]; [|discriminate].
  intros ->. simpl. by intros ->%negb_false_iff.
Qed.

Lemma cache_get_not_ready (env : Env) (key : string) (c : CacheManager) :
  isReady c = false -> cache_get env key c = Throw logWarning_raises.
Proof. unfold cache_get. by intros ->. Qed.

Lemma cache_get_returns (env : Env) (key : string) (c : CacheManager) (v : JVal) :
  cache_get env key c = Return v -> isReady c = true.
Proof. unfold cache_get. by destruct (isReady c). Qed.

Lemma cache_get_ready (env : Env) (key : string) (c : CacheManager) :
  isReady c = true -> exists v, cache_get env key c = Return v.
Proof.
  unfold cache_get. intros ->. destruct (client c) as [r|]; [|by eexists].
  destruct (commandsFail r); [by eexists|].
  destruct (keyspace r !! key) as [e|]; [|by eexists].
  destruct (JSON_parse env (value e)); by eexists.
Qed.

Lemma held_ready (env : Env) (key : string) (c : CacheManager) (v : JVal) :
  held env key c = Some v -> isReady c = true.
Proof.
  unfold held. destruct (cache_get env key c) eqn:Hget; [|discriminate].
  intros _. by eapply cache_get_returns.
Qed.

Lemma cache_set_available (env : Env) (key : string) (v : JVal) (seconds : Z)
    (c : CacheManager) :
  available c = true ->
  cache_set env key v seconds c = Return (after_set env key v seconds c, true)
  /\ available (after_set env key v seconds c) = true
  /\ stored key (after_set env key v seconds c)
     = Some {| value := serialized env v;
               ttl := if 0 <? seconds then Some seconds else None |}
  /\ (forall k, k <> key -> stored k (after_set env key v seconds c) = stored k c).
Proof.
  unfold after_set, available, cache_set, isReady, stored.
  destruct (client c) as [r|]; [|discriminate].
  destruct (isConnected c), (commandsFail r); simpl; try discriminate.
  intros _. repeat split.
  - apply lookup_insert_eq.
  - intros k Hk. by apply lookup_insert_ne.
Qed.

Lemma cache_set_failing (env : Env) (key : string) (v : JVal) (seconds : Z)
    (c : CacheManager) :
  isReady c = true -> available c = false ->
  cache_set env key v seconds c = Return (c, false).
Proof.
  unfold available, cache_set, isReady. destruct (client c) as [r|]; [|discriminate].
  intros ->. simpl. by intros ->%negb_false_iff.
Qed.

Lemma cache_set_not_ready (env : Env) (key : string) (v : JVal) (seconds : Z)
    (c : CacheManager) :
  isReady c = false -> cache_set env key v seconds c = Throw logWarning_raises.
Proof. unfold cache_set. by intros ->. Qed.

Lemma after_set_ready (env : Env) (key : string) (v : JVal) (seconds : Z)
    (c : CacheManager) :
  isReady (after_set env key v seconds c) = isReady c.
Proof.
  destruct c as [[[ks cf]|] conn]; destruct conn; try reflexivity.
  by destruct cf.
Qed.

(** Only the log has grown. *)
Definition only_logs : relation World := fun w w' =>
  this w' = this w /\ cache w' = cache w
  /\ socketRooms w' = socketRooms w /\ outbox w' = outbox w.

#[export] Instance only_logs_preorder : PreOrder only_logs.
Proof.
  split; [intros w; repeat split |].
  intros a b c (H1 & H2 & H3 & H4) (G1 & G2 & G3 & G4).
  repeat split; congruence.
Qed.

#[export] Instance only_logs_log : FrameLog only_logs.
Proof. intros w l m. repeat split. Qed.

Lemma cacheGet_run (env : Env) (key : string) (w : World) (v : JVal) :
  cache_get env key (cache w) = Return v ->
  exists w1, cacheGet env key w = (Return v, w1) /\ only_logs w w1.
Proof.
  intros Hget. pose proof (cacheGet_value env key w) as Hv. rewrite Hget in Hv.
  assert (Hp : preserves only_logs (cacheGet env key)) by frame.
  specialize (Hp w). unfold exec in Hp.
  destruct (cacheGet env key w) as [[v'|e] w1]; simpl in *; [|discriminate].
  injection Hv as ->. by exists w1.
Qed.

(** While Redis is not ready [get] and [set] raise, and nothing has
    changed, the log included. *)
Lemma cacheGet_not_ready (env : Env) (key : string) (w : World) :
  isReady (cache w) = false -> cacheGet env key w = (Throw logWarning_raises, w).
Proof.
  intros Hnr. unfold cacheGet, logWarning, throw, gets, mbind, M_bind. by rewrite Hnr.
Qed.


(** Everything but the cache and the log is as before. *)
Definition only_cache : relation World := fun w w' =>
  this w' = this w /\ socketRooms w' = socketRooms w /\ outbox w' = outbox w.

#[export] Instance only_cache_preorder : PreOrder only_cache.
Proof.
  split; [intros w; repeat split |].
  intros a b c (H1 & H2 & H3) (G1 & G2 & G3). repeat split; congruence.
Qed.

#[export] Instance only_cache_log : FrameLog only_cache.
Proof. intros w l m. repeat split. Qed.

#[export] Instance only_cache_cache : FrameCache only_cache.
Proof. intros w c. repeat split. Qed.

Lemma cacheSet_run (env : Env) (key : string) (v : JVal) (seconds : Z) (w : World) :
  isReady (cache w) = true ->
  exists ok w1, cacheSet env key v seconds w = (Return ok, w1)
                /\ cache_set env key v seconds (cache w) = Return (cache w1, ok)
                /\ cache w1 = after_set env key v seconds (cache w)
                /\ only_cache w w1.
Proof.
  intros Hready.
  assert (Hp : preserves only_cache (cacheSet env key v seconds)) by frame.
  specialize (Hp w). unfold exec in Hp. revert Hp Hready.
  unfold after_set, cacheSet, client_set, cache_set, logError, logWarning, log, try_catch,
    throw, gets, modify, mbind, M_bind, mret, M_ret, isReady.
  destruct w as [t [[[ks cf]|] conn] sr ob lg]; simpl; [|discriminate].
  intros Hp ->. simpl in *.
  destruct cf, (0 <? seconds); simpl in *; do 2 eexists; repeat split; apply Hp.
Qed.

(** [push] followed by the bound check of the three stores. *)
Definition append_bounded (capacity : nat) (l : list JVal) (x : JVal) : list JVal :=
  if (capacity <? length (l ++ [x]))%nat then shift (l ++ [x]) else l ++ [x].

Lemma held_run (env : Env) (key : string) (w : World) (v : JVal) :
  held env key (cache w) = Some v ->
  exists v0 w1, cacheGet env key w = (Return v0, w1)
                /\ js_or v0 (JArr []) = v /\ only_logs w w1.
Proof.
  unfold held. destruct (cache_get env key (cache w)) as [v0|e] eqn:Hget; [|discriminate].
  intros [= <-]. destruct (cacheGet_run env key w v0 Hget) as (w1 & Hrun & Hlogs).
  by exists v0, w1.
Qed.

Lemma storeMessage_run (env : Env) (messageObj : JVal) (l : list JVal) (w : World) :
  let key := "room:" +:+ js_string (get_field "roomId" messageObj) +:+ ":messages" in
  held env key (cache w) = Some (JArr l) ->
  exists w1,
    storeMessage env messageObj w = (Return tt, w1)
    /\ cache w1 = after_set env key (JArr (append_bounded 50 l messageObj)) 3600 (cache w)
    /\ only_cache w w1.
Proof.
  intros key Hheld. unfold storeMessage. fold key.
  pose proof (held_ready _ _ _ _ Hheld) as Hready.
  destruct (held_run env key w _ Hheld) as (v0 & w0 & Hget & Hv0 & Ht0 & Hc0 & Hs0 & Ho0).
  rewrite (bind_run _ _ _ _ _ Hget). cbv beta. rewrite Hv0. simpl as_array.
  unfold mbind at 1. unfold M_bind, mret, M_ret.
  fold (append_bounded 50 l messageObj).
  destruct (cacheSet_run env key (JArr (append_bounded 50 l messageObj)) 3600 w0)
    as (ok & w1 & Hset & _ & Hc1 & Ht1 & Hs1 & Ho1); [by rewrite Hc0|].
  rewrite (bind_run _ _ _ _ _ Hset).
  exists w1. split; [reflexivity|]. split; [by rewrite Hc1, Hc0|].
  repeat split; congruence.
Qed.

(** C6.  When the history of a room holds 50 messages, storing one more
    leaves 50: the oldest is dropped, the others keep their order and the
    new message comes last (and the key is written with a one-hour
    expiry).  What the key holds is the JSON text of the list. *)
Theorem history_window_fifo (env : Env) (messageObj : JVal) (roomId : string)
    (history : list JVal) (text : string) (expiry : option Z) (w : World) :
  get_field "roomId" messageObj = JStr roomId ->
  available (cache w) = true ->
  stored ("room:" +:+ roomId +:+ ":messages") (cache w)
  = Some {| value := text; ttl := expiry |} ->
  JSON_parse env text = Some (JArr history) ->
  length history = 50%nat ->
  let w' := exec (storeMessage env messageObj) w in
  stored ("room:" +:+ roomId +:+ ":messages") (cache w')
  = Some {| value := JSON_stringify env (JArr (drop 1 history ++ [messageObj]));
            ttl := Some 3600 |}
  /\ length (drop 1 history ++ [messageObj]) = 50%nat.
Proof.
  intros Hroom Havail Hstored Hparse Hlen w'.
  pose proof (storeMessage_run env messageObj history w) as Hrun.
  rewrite Hroom in Hrun. simpl js_string in Hrun. cbv zeta in Hrun.
  destruct Hrun as (w1 & Hrun & Hc & _).
  { unfold held. rewrite cache_get_available by exact Havail.
    rewrite Hstored. simpl. rewrite Hparse. reflexivity. }
  subst w'. unfold exec. rewrite Hrun. simpl snd. rewrite Hc.
  destruct (cache_set_available env ("room:" +:+ roomId +:+ ":messages")
              (JArr (append_bounded 50 history messageObj)) 3600 (cache w) Havail)
    as (_ & _ & Hkey & _).
  rewrite Hkey. unfold append_bounded.
  rewrite length_app, Hlen. simpl.
  split; [|rewrite length_app, length_drop, Hlen; reflexivity].
  destruct history as [|oldest rest]; [discriminate|].
  simpl. rewrite drop_0. reflexivity.
Qed.

(** A cache whose history for room "general" holds the given messages. *)
Definition redis_with_history (messages : list JVal) : CacheManager :=
  {| client := Some {| keyspace := {[ "room:general:messages" :=
                                       {| value := JSON_stringify env0 (JArr messages);
                                          ttl := Some 3600 |} ]};
                       commandsFail := false |};
     isConnected := true |}.

Definition numbered (n : nat) : JVal :=
  JObj [("id", JNum (Z.of_nat n)); ("roomId", JStr "general")].

Lemma history_window_fifo_witness :
  let history := numbered <$> seq 0 50 in
  let w' := exec (storeMessage env0 (numbered 50))
              (initial (redis_with_history history)) in
  stored ("room:" +:+ "general" +:+ ":messages") (cache w')
  = Some {| value := JSON_stringify env0 (JArr (drop 1 history ++ [numbered 50]));
            ttl := Some 3600 |}
  /\ length (drop 1 history ++ [numbered 50]) = 50%nat.
Proof.
  apply (history_window_fifo env0 (numbered 50) "general" (numbered <$> seq 0 50)
           (JSON_stringify env0 (JArr (numbered <$> seq 0 50)))
           (Some 3600) (initial (redis_with_history (numbered <$> seq 0 50)))).
  - reflexivity.
  - reflexivity.
  - vm_compute. reflexivity.
  - vm_compute. reflexivity.
  - reflexivity.
Defined.

Example history_after_51_appends :
  let w := foldl (fun w n => exec (storeMessage env0 (numbered n)) w)
             (initial redis_up) (seq 0 51) in
  value <$> stored "room:general:messages" (cache w)
  = Some (JSON_stringify env0 (JArr (numbered <$> seq 1 50))).
Proof. vm_compute. reflexivity. Qed.

(** * Private messages to an online target *)

Lemma storePrivateMessage_run (env : Env) (messageObj : JVal) (toUserId : string)
    (l : list JVal) (w : World) :
  get_field "toUserId" messageObj = JStr toUserId ->
  held env ("private_messages:" +:+ toUserId) (cache w) = Some (JArr l) ->
  exists w1,
    storePrivateMessage env messageObj w = (Return tt, w1)
    /\ cache w1 = after_set env ("private_messages:" +:+ toUserId)
                    (JArr (append_bounded 100 l messageObj)) (86400 * 7) (cache w)
    /\ only_cache w w1.
Proof.
  intros Hto Hheld. unfold storePrivateMessage. rewrite Hto. simpl js_string.
  set (key := "private_messages:" +:+ toUserId) in *.
  pose proof (held_ready _ _ _ _ Hheld) as Hready.
  destruct (held_run env key w _ Hheld) as (v0 & w0 & Hget & Hv0 & Ht0 & Hc0 & Hs0 & Ho0).
  rewrite (bind_run _ _ _ _ _ Hget). cbv beta. rewrite Hv0. simpl as_array.
  unfold mbind at 1. unfold M_bind, mret, M_ret.
  fold (append_bounded 100 l messageObj).
  destruct (cacheSet_run env key (JArr (append_bounded 100 l messageObj)) (86400 * 7) w0)
    as (ok & w1 & Hset & _ & Hc1 & Ht1 & Hs1 & Ho1); [by rewrite Hc0|].
  rewrite (bind_run _ _ _ _ _ Hset).
  exists w1. split; [reflexivity|]. split; [by rewrite Hc1, Hc0|].
  repeat split; congruence.
Qed.

Lemma append_bounded_slice (capacity : nat) (l : list JVal) (x : JVal) :
  (length l <= capacity)%nat ->
  append_bounded capacity l x = slice_last capacity (l ++ [x]).
Proof.
  intros Hle. unfold append_bounded, slice_last, shift.
  rewrite length_app. simpl length.
  destruct (Nat.ltb_spec capacity (length l + 1)) as [Hlt|Hge].
  - replace (length l + 1 - capacity)%nat with 1%nat by lia.
    destruct l; reflexivity.
  - replace (length l + 1 - capacity)%nat with 0%nat by lia. reflexivity.
Qed.

(** The object [handlePrivateMessage] builds for a message with text [s]. *)
Definition privateMessage (env : Env) (socket : Socket) (targetUserId s : string)
    (messageType : option JVal) : JVal :=
  JObj [("id", JStr (generateMessageId env)); ("fromUserId", JStr (userId socket));
        ("toUserId", JStr targetUserId); ("message", JStr (trim s));
        ("messageType", default (JStr "text") messageType);
        ("timestamp", JStr (isoNow env)); ("private", JBool true)].

Lemma handlePrivateMessage_online_run (env : Env) (socket targetSocket : Socket)
    (targetUserId s : string) (messageType : option JVal) (l : list JVal) (w : World) :
  resolve targetUserId w = Some targetSocket ->
  held env ("private_messages:" +:+ targetUserId) (cache w) = Some (JArr l) ->
  let messageObj := privateMessage env socket targetUserId s messageType in
  exists w',
    handlePrivateMessage env socket targetUserId (JStr s) messageType w = (Return tt, w')
    /\ outbox w'
       = outbox w
         ++ [socket_emit (socket_id targetSocket) "private_message" messageObj;
             socket_emit (socket_id socket) "private_message_sent"
               (JObj [("messageId", JStr (generateMessageId env));
                      ("targetUserId", JStr targetUserId);
                      ("timestamp", JStr (isoNow env))])]
    /\ cache w'
       = after_set env ("private_messages:" +:+ targetUserId)
           (JArr (append_bounded 100 l messageObj)) (86400 * 7) (cache w)
    /\ this w' = this w.
Proof.
  intros Hon Hheld messageObj. unfold resolve in Hon.
  unfold handlePrivateMessage, try_catch.
  unfold mbind at 1. unfold M_bind, gets. rewrite Hon.
  unfold call_trim. unfold mbind at 1. unfold M_bind, mret, M_ret.
  fold (privateMessage env socket targetUserId s messageType). fold messageObj.
  unfold emit. unfold mbind at 1. unfold M_bind, modify.
  unfold mbind at 1. unfold M_bind.
  set (w2 := push_outbox _ (push_outbox _ w)).
  destruct (storePrivateMessage_run env messageObj targetUserId l w2)
    as (w3 & Hrun & Hc & Ht & Hs & Ho); [reflexivity | exact Hheld |].
  rewrite (bind_run _ _ _ _ _ Hrun).
  eexists. split; [reflexivity|]. simpl. repeat split.
  - rewrite Ho. subst w2. simpl. by rewrite <- app_assoc.
  - exact Hc.
  - rewrite Ht. reflexivity.
Qed.

(** C10.  A private message for a target with a socket in the registry is
    delivered to that socket, acknowledged to the sender, and then also
    appended to the list kept under [private_messages:{targetUserId}],
    which holds the last 100 messages, as JSON text, and is written with a
    seven-day expiry. *)
Theorem delivered_private_message_is_stored (env : Env) (socket targetSocket : Socket)
    (targetUserId s : string) (messageType : option JVal) (kept : list JVal)
    (w : World) :
  resolve targetUserId w = Some targetSocket ->
  available (cache w) = true ->
  held env ("private_messages:" +:+ targetUserId) (cache w) = Some (JArr kept) ->
  (length kept <= 100)%nat ->
  let handler := handlePrivateMessage env socket targetUserId (JStr s) messageType in
  let messageObj := privateMessage env socket targetUserId s messageType in
  sent handler w
  = [socket_emit (socket_id targetSocket) "private_message" messageObj;
     socket_emit (socket_id socket) "private_message_sent"
       (JObj [("messageId", JStr (generateMessageId env));
              ("targetUserId", JStr targetUserId);
              ("timestamp", JStr (isoNow env))])]
  /\ stored ("private_messages:" +:+ targetUserId) (cache (exec handler w))
     = Some {| value := JSON_stringify env (JArr (slice_last 100 (kept ++ [messageObj])));
               ttl := Some (7 * 24 * 60 * 60) |}.
Proof.
  intros Hon Havail Hheld Hlen handler messageObj.
  destruct (handlePrivateMessage_online_run env socket targetSocket targetUserId s
              messageType kept w Hon Hheld) as (w' & Hrun & Ho & Hc & _).
  fold handler messageObj in Hrun, Ho, Hc.
  split.
  - unfold sent, exec. rewrite Hrun. simpl snd. rewrite Ho.
    by rewrite drop_app_length.
  - unfold exec. rewrite Hrun. simpl snd. rewrite Hc.
    destruct (cache_set_available env ("private_messages:" +:+ targetUserId)
                (JArr (append_bounded 100 kept messageObj)) (86400 * 7) (cache w)
                Havail) as (_ & _ & Hkey & _).
    rewrite Hkey. by rewrite append_bounded_slice.
Qed.

Lemma delivered_private_message_is_stored_witness :
  let w := run [(env0, connection alice1); (env0, connection bob1)] (initial redis_up) in
  let handler := handlePrivateMessage env0 alice1 "bob" (JStr " hi ") None in
  let messageObj := privateMessage env0 alice1 "bob" " hi " None in
  sent handler w
  = [socket_emit "s3" "private_message" messageObj;
     socket_emit "s1" "private_message_sent"
       (JObj [("messageId", JStr (generateMessageId env0));
              ("targetUserId", JStr "bob");
              ("timestamp", JStr (isoNow env0))])]
  /\ stored ("private_messages:" +:+ "bob") (cache (exec handler w))
     = Some {| value := JSON_stringify env0 (JArr (slice_last 100 ([] ++ [messageObj])));
               ttl := Some (7 * 24 * 60 * 60) |}.
Proof.
  apply (delivered_private_message_is_stored env0 alice1 bob1 "bob" " hi " None []
           (run [(env0, connection alice1); (env0, connection bob1)]
              (initial redis_up))).
  - vm_compute. reflexivity.
  - vm_compute. reflexivity.
  - vm_compute. reflexivity.
  - simpl. lia.
Defined.

(** * The store is not ready *)

Lemma storeMessage_not_ready (env : Env) (messageObj : JVal) (w : World) :
  isReady (cache w) = false ->
  storeMessage env messageObj w = (Throw logWarning_raises, w).
Proof. intros Hnr. unfold storeMessage. by apply bind_throw, cacheGet_not_ready. Qed.

Lemma sendMessageHistory_not_ready (env : Env) (socket : Socket) (roomId : string)
    (w : World) :
  isReady (cache w) = false ->
  sendMessageHistory env socket roomId w = (Throw logWarning_raises, w).
Proof. intros Hnr. unfold sendMessageHistory. by apply bind_throw, cacheGet_not_ready. Qed.

(** The object [handleSendMessage] builds for a message with text [s]. *)
Definition roomMessage (env : Env) (socket : Socket) (roomId s : string)
    (messageType metadata : option JVal) : JVal :=
  JObj [("id", JStr (generateMessageId env)); ("userId", JStr (userId socket));
        ("roomId", JStr roomId); ("message", JStr (trim s));
        ("messageType", default (JStr "text") messageType);
        ("metadata", default (JObj []) metadata);
        ("timestamp", JStr (isoNow env)); ("edited", JBool false);
        ("reactions", JObj [])].

(** A room message that passes validation reaches [storeMessage]. *)
Lemma handleSendMessage_validated (env : Env) (socket : Socket) (roomId s : string)
    (messageType metadata : option JVal) (w : World) :
  whitespace_only s = false ->
  roomId ∈ rooms_of (socket_id socket) w ->
  let messageObj := roomMessage env socket roomId s messageType metadata in
  handleSendMessage env socket roomId (JStr s) messageType metadata w
  = try_catch
      (storeMessage env messageObj ;;
       modify (with_this (set_connectionStats (fun s =>
         {| totalConnections := totalConnections s;
            activeUsers := activeUsers s;
            totalRooms := totalRooms s;
            messagesCount := messagesCount s + 1 |}))) ;;
       emit (io_to_emit roomId "new_message" messageObj) ;;
       emit (socket_emit (socket_id socket) "message_sent"
               (JObj [("messageId", JStr (generateMessageId env));
                      ("timestamp", JStr (isoNow env))])) ;;
       logInfo "Message sent")
      (fun error =>
         logError "Failed to send message" ;;
         message_error env socket "websocket.message_failed") w.
Proof.
  intros Hws Hin messageObj.
  unfold handleSendMessage, try_catch.
  rewrite (bind_run _ _ w w false).
  2:{ rewrite is_empty_message_run by exact I. simpl. by rewrite Hws. }
  cbv iota. unfold mbind at 1. unfold M_bind, gets.
  rewrite bool_decide_eq_true_2 by exact Hin.
  change (negb true) with false. cbv iota.
  unfold call_trim. unfold mbind at 1. unfold M_bind, mret, M_ret.
  reflexivity.
Qed.

(** An accepted room message, whatever the store does with it as long as
    [storeMessage] returns. *)
Lemma handleSendMessage_accepted_run (env : Env) (socket : Socket) (roomId s : string)
    (messageType metadata : option JVal) (w w1 : World) :
  whitespace_only s = false ->
  roomId ∈ rooms_of (socket_id socket) w ->
  let messageObj := roomMessage env socket roomId s messageType metadata in
  storeMessage env messageObj w = (Return tt, w1) ->
  only_cache w w1 ->
  exists w',
    handleSendMessage env socket roomId (JStr s) messageType metadata w = (Return tt, w')
    /\ outbox w'
       = outbox w
         ++ [io_to_emit roomId "new_message" messageObj;
             socket_emit (socket_id socket) "message_sent"
               (JObj [("messageId", JStr (generateMessageId env));
                      ("timestamp", JStr (isoNow env))])]
    /\ cache w' = cache w1
    /\ socketRooms w' = socketRooms w
    /\ messagesCount (connectionStats (this w'))
       = messagesCount (connectionStats (this w)) + 1.
Proof.
  intros Hws Hin messageObj Hstore (Ht & Hs & Ho).
  rewrite handleSendMessage_validated by assumption. fold messageObj.
  unfold try_catch. rewrite (bind_run _ _ _ _ _ Hstore).
  eexists. split; [reflexivity|]. simpl. repeat split.
  - rewrite Ho. by rewrite <- app_assoc.
  - exact Hs.
  - by rewrite Ht.
Qed.

(** The reply to a handler failure: the translation is rendered, the cache
    being out of reach or not. *)
Lemma translation_push_log (env : Env) (key : string) (params : JVal) (locale : string)
    (level message : string) (w : World) :
  translation env key params locale (push_log level message w)
  = translation env key params locale w.
Proof. reflexivity. Qed.

(** C9, as the code has it.  While Redis is not ready [cache.get] and
    [cache.set] do not answer [null] and [false]: the [logWarning] they
    call first is not defined, so they raise.  [storeMessage] and
    [sendMessageHistory] raise with them, and a room message that passed
    validation is not broadcast: its sender gets [message_error] with the
    [websocket.message_failed] text, the message is not counted, and the
    store is as before. *)
Theorem store_not_ready_blocks_delivery (env : Env) (socket : Socket)
    (roomId s : string) (messageType metadata : option JVal) (w : World) :
  isReady (cache w) = false ->
  whitespace_only s = false ->
  roomId ∈ rooms_of (socket_id socket) w ->
  let messageObj := roomMessage env socket roomId s messageType metadata in
  let handler := handleSendMessage env socket roomId (JStr s) messageType metadata in
  (forall key, cache_get env key (cache w) = Throw logWarning_raises)
  /\ (forall key v seconds, cache_set env key v seconds (cache w) = Throw logWarning_raises)
  /\ storeMessage env messageObj w = (Throw logWarning_raises, w)
  /\ sendMessageHistory env socket roomId w = (Throw logWarning_raises, w)
  /\ sent handler w
     = [socket_emit (socket_id socket) "message_error"
          (JObj [("error", JPromise (JStr (i18n__ env "websocket.message_failed"
                                             (userLanguage socket) (JObj []))))])]
  /\ messagesCount (connectionStats (this (exec handler w)))
     = messagesCount (connectionStats (this w))
  /\ cache (exec handler w) = cache w.
Proof.
  intros Hnr Hws Hin messageObj handler.
  split; [intros; by apply cache_get_not_ready|].
  split; [intros; by apply cache_set_not_ready|].
  split; [by apply storeMessage_not_ready|].
  split; [by apply sendMessageHistory_not_ready|].
  destruct (message_error_run env socket "websocket.message_failed"
              (push_log "error" "Failed to send message" w))
    as (w1 & Hrun & Ht & _ & Ho & _).
  assert (Hc : cache_get env
                 ("i18n:" +:+ userLanguage socket +:+ ":" +:+ "websocket.message_failed"
                  +:+ ":" +:+ JSON_stringify env (JObj [])) (cache w)
               = Throw logWarning_raises) by (by apply cache_get_not_ready).
  assert (Hc1 : cache w1 = cache w).
  { assert (Hp : preserves (fun w w' => isReady (cache w) = false -> cache w' = cache w)
                   (message_error env socket "websocket.message_failed")).
    { unfold message_error, translate, cacheGet, logWarning.
      intros w0. unfold exec, try_catch, throw, gets, mbind, M_bind, mret, M_ret, emit,
        modify. intros Hw0. rewrite Hw0. reflexivity. }
    specialize (Hp (push_log "error" "Failed to send message" w) Hnr).
    unfold exec in Hp. rewrite Hrun in Hp. exact Hp. }
  assert (Heq : handler w
                = (Return tt,
                   push_outbox
                     (socket_emit (socket_id socket) "message_error"
                        (JObj [("error", JPromise (translation env "websocket.message_failed"
                                                     (JObj []) (userLanguage socket) w))]))
                     w1)).
  { unfold handler. rewrite handleSendMessage_validated by assumption.
    unfold try_catch.
    rewrite (bind_throw _ _ _ _ _ (storeMessage_not_ready env _ w Hnr)).
    unfold logError, log. rewrite modify_bind_run. exact Hrun. }
  assert (Htr : translation env "websocket.message_failed" (JObj [])
                  (userLanguage socket) w
                = JStr (i18n__ env "websocket.message_failed" (userLanguage socket)
                          (JObj []))).
  { unfold translation. by rewrite Hc. }
  rewrite Htr in Heq.
  split; [eapply sent_push_outbox; [exact Heq | exact Ho]|].
  unfold exec. rewrite Heq. simpl. split; [by rewrite Ht | exact Hc1].
Qed.

Lemma store_not_ready_blocks_delivery_witness :
  let w := run [(env0, connection alice1); (env0, join_room alice1 "general" JNull)]
             (initial redis_down) in
  let messageObj := roomMessage env0 alice1 "general" "hello" None None in
  let handler := handleSendMessage env0 alice1 "general" (JStr "hello") None None in
  (forall key, cache_get env0 key (cache w) = Throw logWarning_raises)
  /\ (forall key v seconds,
        cache_set env0 key v seconds (cache w) = Throw logWarning_raises)
  /\ storeMessage env0 messageObj w = (Throw logWarning_raises, w)
  /\ sendMessageHistory env0 alice1 "general" w = (Throw logWarning_raises, w)
  /\ sent handler w
     = [socket_emit "s1" "message_error"
          (JObj [("error", JPromise (JStr (i18n__ env0 "websocket.message_failed"
                                             "en" (JObj []))))])]
  /\ messagesCount (connectionStats (this (exec handler w)))
     = messagesCount (connectionStats (this w))
  /\ cache (exec handler w) = cache w.
Proof.
  apply (store_not_ready_blocks_delivery env0 alice1 "general" "hello" None None
           (run [(env0, connection alice1); (env0, join_room alice1 "general" JNull)]
              (initial redis_down))).
  - vm_compute. reflexivity.
  - reflexivity.
  - refine (proj1 (bool_decide_eq_true _) _). vm_compute. reflexivity.
Defined.

(** The same message with Redis connected: it is broadcast and stored. *)
Example message_delivered_when_ready :
  let w := run [(env0, connection alice1); (env0, join_room alice1 "general" JNull)]
             (initial redis_up) in
  let handler := handleSendMessage env0 alice1 "general" (JStr "hello") None None in
  map event_of (sent handler w) = ["new_message"; "message_sent"]
  /\ map event_of
       (sent handler
          (run [(env0, connection alice1); (env0, join_room alice1 "general" JNull)]
             (initial redis_down)))
     = ["message_error"].
Proof. vm_compute. split; reflexivity. Qed.

(** * Room membership *)

Lemma try_catch_after (R : relation World) `{!PreOrder R} {A}
    (body : M A) (handler : string -> M A) (w : World) :
  (forall e, preserves R (handler e)) ->
  R (exec body w) (exec (try_catch body handler) w).
Proof.
  intros Hh. unfold exec, try_catch.
  destruct (body w) as [[a|e] w1]; simpl; [reflexivity | apply Hh].
Qed.

(** What [handleLeaveRoom] does to the coordinator's maps. *)
Lemma handleLeaveRoom_this (env : Env) (socket : Socket) (roomId : string) (w : World) :
  this (exec (handleLeaveRoom env socket roomId) w)
  = match rooms (this w) !! roomId with
    | Some members =>
        if bool_decide (size (members ∖ {[userId socket]}) = 0%nat) then
          set_activeRooms (delete roomId) (set_rooms (delete roomId) (this w))
        else set_rooms <[roomId := members ∖ {[userId socket]}]> (this w)
    | None => this w
    end.
Proof.
  unfold handleLeaveRoom.
  rewrite (try_catch_after same_this _ _ w) by (intros e; unfold logError; frame).
  unfold socket_leave. rewrite !exec_modify_bind.
  match goal with |- context [exec ?rest ?w1] =>
    assert (Ht : preserves same_this rest) by (unfold logInfo; frame);
    rewrite (Ht w1)
  end.
  reflexivity.
Qed.

(** C8, as the code has it.  A leave that empties the member set of a room
    removes the room at once, from [rooms] and from [activeRooms], within
    the handling of the leave itself; no sweep is awaited. *)
Theorem leave_deletes_empty_room (env : Env) (socket : Socket) (roomId : string)
    (members : gset string) (w : World) :
  rooms (this w) !! roomId = Some members ->
  members ⊆ {[userId socket]} ->
  let w' := exec (handleLeaveRoom env socket roomId) w in
  rooms (this w') !! roomId = None /\ activeRooms (this w') !! roomId = None.
Proof.
  intros Hroom Hsub w'. subst w'. rewrite handleLeaveRoom_this, Hroom.
  rewrite bool_decide_eq_true_2.
  - simpl. split; apply lookup_delete_eq.
  - apply size_empty_iff. set_solver.
Qed.

Lemma leave_deletes_empty_room_witness :
  let w := run [(env0, connection alice1); (env0, join_room alice1 "general" JNull)]
             (initial redis_up) in
  let w' := exec (handleLeaveRoom env0 alice1 "general") w in
  rooms (this w') !! "general" = None /\ activeRooms (this w') !! "general" = None.
Proof.
  apply (leave_deletes_empty_room env0 alice1 "general" {[ "alice" ]}
           (run [(env0, connection alice1); (env0, join_room alice1 "general" JNull)]
              (initial redis_up))).
  - vm_compute. reflexivity.
  - simpl. reflexivity.
Defined.

(** C8 fails as stated: alice alone joins "general" and leaves it; right
    after the leave, with no sweep in between, the room is gone. *)
Lemma synchronous_room_deletion_counterexample :
  let joined := run [(env0, connection alice1); (env0, join_room alice1 "general" JNull)]
                  (initial redis_up) in
  let left := run [(env0, leave_room alice1 "general")] joined in
  elements <$> (rooms (this joined) !! "general") = Some ["alice"]
  /\ rooms (this left) !! "general" = None.
Proof. vm_compute. split; reflexivity. Qed.

(** ** Cleanup of empty rooms *)

Lemma cleanupRoom_rooms (m : WebSocketManager) (roomId : string) (members : gset string) :
  rooms (cleanupRoom m (roomId, members))
  = if bool_decide (size members = 0%nat) then delete roomId (rooms m) else rooms m.
Proof. unfold cleanupRoom. by destruct (bool_decide _). Qed.

Lemma cleanup_fold_rooms (entries : list (string * gset string)) (m : WebSocketManager)
    (roomId : string) (members : gset string) :
  rooms (foldl cleanupRoom m entries) !! roomId = Some members
  <-> rooms m !! roomId = Some members
      /\ forall members', (roomId, members') ∈ entries -> size members' <> 0%nat.
Proof.
  revert m. induction entries as [|[k v] entries IH]; intros m; cbn [foldl].
  - split; [intros H; split; [exact H | intros ? Hin; by apply elem_of_nil in Hin]
           | tauto].
  - rewrite IH, cleanupRoom_rooms. split.
    + intros [Hlook Hrest]. case_bool_decide as Hsize.
      * destruct (decide (k = roomId)) as [->|Hne].
        -- by rewrite lookup_delete_eq in Hlook.
        -- rewrite lookup_delete_ne in Hlook by exact Hne. split; [exact Hlook|].
           intros v' Hin. apply elem_of_cons in Hin as [Heq|Hin]; [congruence|].
           by apply Hrest.
      * split; [exact Hlook|]. intros v' Hin.
        apply elem_of_cons in Hin as [Heq|Hin]; [congruence | by apply Hrest].
    + intros [Hlook Hall]. split.
      * case_bool_decide as Hsize; [|exact Hlook].
        destruct (decide (k = roomId)) as [->|Hne].
        -- exfalso. apply (Hall v); [left | exact Hsize].
        -- by rewrite lookup_delete_ne.
      * intros v' Hin. apply Hall. by right.
Qed.

(** [cleanupEmptyRooms] keeps exactly the rooms that have a member. *)
Lemma cleanupEmptyRooms_rooms (w : World) (roomId : string) (members : gset string) :
  rooms (this (exec cleanupEmptyRooms w)) !! roomId = Some members
  <-> rooms (this w) !! roomId = Some members /\ size members <> 0%nat.
Proof.
  unfold cleanupEmptyRooms, exec, modify. simpl.
  rewrite cleanup_fold_rooms. split.
  - intros [Hlook Hall]. split; [exact Hlook|].
    apply Hall. by apply elem_of_map_to_list.
  - intros [Hlook Hsize]. split; [exact Hlook|].
    intros v' Hin. apply elem_of_map_to_list in Hin. congruence.
Qed.

(** No room is added and no room with a member is changed. *)
Definition rooms_kept : relation World := fun w w' =>
  forall roomId members,
    (rooms (this w') !! roomId = Some members -> rooms (this w) !! roomId = Some members)
    /\ (rooms (this w) !! roomId = Some members -> size members <> 0%nat ->
        rooms (this w') !! roomId = Some members).

#[export] Instance rooms_kept_preorder : PreOrder rooms_kept.
Proof.
  split.
  - intros w k v. tauto.
  - intros a b c Hab Hbc k v. destruct (Hab k v) as [H1 H2], (Hbc k v) as [G1 G2].
    split; auto.
Qed.

#[export] Instance rooms_kept_log : FrameLog rooms_kept.
Proof. intros w l m k v. simpl. tauto. Qed.
#[export] Instance rooms_kept_outbox : FrameOutbox rooms_kept.
Proof. intros w e k v. simpl. tauto. Qed.
#[export] Instance rooms_kept_cache : FrameCache rooms_kept.
Proof. intros w c k v. simpl. tauto. Qed.
#[export] Instance rooms_kept_sockets : FrameSockets rooms_kept.
Proof. intros w f k v. simpl. tauto. Qed.

Lemma cleanupEmptyRooms_kept : preserves rooms_kept cleanupEmptyRooms.
Proof.
  intros w k v. rewrite cleanupEmptyRooms_rooms. tauto.
Qed.

(** [handleDisconnection] takes no member out of any room: a room that has
    a member, the disconnecting user included, is left as it is. *)
Lemma handleDisconnection_kept (env : Env) (socket : Socket) (reason : string) :
  preserves rooms_kept (handleDisconnection env socket reason).
Proof.
  pose proof cleanupEmptyRooms_kept.
  unfold handleDisconnection, logInfo. frame.
  all: try (intros k v; simpl; tauto).
  apply preserves_foldr; [typeclasses eauto|]. intros room rest Hrest. frame.
Qed.

(** A member of a room is still a member after any socket disconnects. *)
Lemma disconnection_keeps_member (env : Env) (socket : Socket) (reason : string)
    (w : World) (roomId user : string) (members : gset string) :
  rooms (this w) !! roomId = Some members ->
  user ∈ members ->
  rooms (this (exec (handleDisconnection env socket reason) w)) !! roomId = Some members.
Proof.
  intros Hroom Hin.
  apply (handleDisconnection_kept env socket reason w roomId members); [exact Hroom|].
  intros Hsize. apply size_empty_iff in Hsize. set_solver.
Qed.

(** After the sweep no room is without members. *)
Lemma periodicCleanup_no_empty_room (env : Env) (Date_parse : JVal -> option Z)
    (w : World) (roomId : string) (members : gset string) :
  rooms (this (exec (periodicCleanup env Date_parse) w)) !! roomId = Some members ->
  size members <> 0%nat.
Proof.
  unfold periodicCleanup. rewrite exec_bind.
  change (cleanupEmptyRooms w) with (Return tt, exec cleanupEmptyRooms w).
  cbv iota beta. unfold exec at 1. simpl.
  intros Hroom. by apply cleanupEmptyRooms_rooms in Hroom as [_ Hsize].
Qed.

(** C4, at the input where the code departs from it: alice joins "general"
    as its only member and her connection closes.  After the close, and
    after a sweep on top of it, alice is offline and her socket is gone,
    but she is still recorded as a member of "general" and the room is
    still there. *)
Theorem disconnect_leaves_membership :
  let joined := run [(env0, connection alice1); (env0, join_room alice1 "general" JNull)]
                  (initial redis_up) in
  let closed := run [(env0, disconnect alice1 "transport close");
                     (env0, sweep (fun _ => None))] joined in
  elements <$> (rooms (this joined) !! "general") = Some ["alice"]
  /\ resolve "alice" closed = None
  /\ is_open "s1" closed = false
  /\ elements <$> (rooms (this closed) !! "general") = Some ["alice"].
Proof. vm_compute. repeat split; reflexivity. Qed.

(** * Message identifiers *)

(** ** Decimal notation *)

Fixpoint digits (d : Decimal.uint) : list N :=
  match d with
  | Decimal.Nil => []
  | Decimal.D0 d => 0%N :: digits d
  | Decimal.D1 d => 1%N :: digits d
  | Decimal.D2 d => 2%N :: digits d
  | Decimal.D3 d => 3%N :: digits d
  | Decimal.D4 d => 4%N :: digits d
  | Decimal.D5 d => 5%N :: digits d
  | Decimal.D6 d => 6%N :: digits d
  | Decimal.D7 d => 7%N :: digits d
  | Decimal.D8 d => 8%N :: digits d
  | Decimal.D9 d => 9%N :: digits d
  end.

Definition digit_char (n : N) : ascii := ascii_of_N (48 + n).

Fixpoint digit_string (l : list N) : string :=
  match l with
  | [] => EmptyString
  | n :: l => String (digit_char n) (digit_string l)
  end.

(** The number a digit sequence denotes, by Horner's rule. *)
Fixpoint horner (l : list N) (acc : N) : N :=
  match l with
  | [] => acc
  | n :: l => horner l (10 * acc + n)
  end.

(** Lexicographic comparison of digit sequences. *)
Fixpoint lex (l1 l2 : list N) : comparison :=
  match l1, l2 with
  | [], [] => Eq
  | [], _ :: _ => Lt
  | _ :: _, [] => Gt
  | n1 :: l1, n2 :: l2 =>
      match (n1 ?= n2)%N with
      | Eq => lex l1 l2
      | c => c
      end
  end.

Definition small (n : N) : Prop := (n < 10)%N.

Lemma string_of_uint_digits (d : Decimal.uint) :
  NilEmpty.string_of_uint d = digit_string (digits d).
Proof. induction d; simpl; [reflexivity | rewrite IHd; reflexivity ..]. Qed.

Lemma digits_small (d : Decimal.uint) : Forall small (digits d).
Proof. induction d; simpl; constructor; (assumption || (unfold small; lia)). Qed.

Lemma digits_inj (d1 d2 : Decimal.uint) : digits d1 = digits d2 -> d1 = d2.
Proof.
  revert d2. induction d1; intros d2; destruct d2; simpl; intros H;
    try discriminate; try reflexivity;
    injection H as H; f_equal; by apply IHd1.
Qed.

Lemma of_uint_acc_horner (d : Decimal.uint) (acc : positive) :
  N.pos (Pos.of_uint_acc d acc) = horner (digits d) (N.pos acc).
Proof.
  revert acc. induction d; intros acc; simpl; [reflexivity | rewrite IHd; f_equal; lia ..].
Qed.

Lemma of_uint_horner (d : Decimal.uint) : N.of_uint d = horner (digits d) 0.
Proof.
  unfold N.of_uint.
  induction d; simpl; [reflexivity | exact IHd | apply of_uint_acc_horner ..].
Qed.

Lemma decimal_digits (n : N) : decimal n = digit_string (digits (N.to_uint n)).
Proof. apply string_of_uint_digits. Qed.

Lemma decimal_value (n : N) : horner (digits (N.to_uint n)) 0 = n.
Proof. rewrite <- of_uint_horner. apply DecimalN.Unsigned.of_to. Qed.

Lemma digit_string_length (l : list N) : String.length (digit_string l) = length l.
Proof. induction l; simpl; congruence. Qed.

Lemma digit_char_code (n : N) : small n -> N_of_ascii (digit_char n) = (48 + n)%N.
Proof. unfold small, digit_char. intros H. apply N_ascii_embedding. lia. Qed.

Lemma digit_char_inj (n1 n2 : N) :
  small n1 -> small n2 -> digit_char n1 = digit_char n2 -> n1 = n2.
Proof.
  intros H1 H2 Heq. apply (f_equal N_of_ascii) in Heq.
  rewrite !digit_char_code in Heq by assumption. lia.
Qed.

Lemma digit_char_compare (n1 n2 : N) :
  small n1 -> small n2 ->
  Ascii.compare (digit_char n1) (digit_char n2) = (n1 ?= n2)%N.
Proof.
  intros H1 H2. unfold Ascii.compare. rewrite !digit_char_code by assumption.
  destruct (N.compare_spec n1 n2) as [->|Hlt|Hgt].
  - apply N.compare_refl.
  - apply N.compare_lt_iff. lia.
  - apply N.compare_gt_iff. lia.
Qed.

Lemma digit_char_not_underscore (n : N) : small n -> digit_char n <> "_"%char.
Proof.
  intros H Heq. apply (f_equal N_of_ascii) in Heq.
  rewrite digit_char_code in Heq by assumption. unfold small in H. simpl in Heq. lia.
Qed.

(** A larger accumulator wins whatever the digits that follow. *)
Lemma horner_mono (l1 l2 : list N) (a1 a2 : N) :
  length l1 = length l2 -> Forall small l1 -> Forall small l2 ->
  (a1 < a2)%N -> (horner l1 a1 < horner l2 a2)%N.
Proof.
  revert l2 a1 a2. induction l1 as [|n1 l1 IH]; intros [|n2 l2] a1 a2 Hlen F1 F2 Hlt;
    simpl in *; try discriminate; [exact Hlt|].
  inversion F1; inversion F2; subst. apply IH; try assumption; [congruence|].
  unfold small in *. lia.
Qed.

(** Among digit sequences of one length, the order of the numbers is the
    lexicographic order. *)
Lemma horner_lex (l1 l2 : list N) (a : N) :
  length l1 = length l2 -> Forall small l1 -> Forall small l2 ->
  (horner l1 a < horner l2 a)%N -> lex l1 l2 = Lt.
Proof.
  revert l2 a. induction l1 as [|n1 l1 IH]; intros [|n2 l2] a Hlen F1 F2 Hlt;
    simpl in *; try discriminate; [lia|].
  inversion F1; inversion F2; subst.
  destruct (N.compare_spec n1 n2) as [->|Hn|Hn]; [|reflexivity|].
  - eapply IH; try eassumption. congruence.
  - exfalso.
    assert (horner l2 (10 * a + n2) < horner l1 (10 * a + n1))%N
      by (apply horner_mono; try assumption; [congruence | lia]).
    lia.
Qed.

Lemma compare_digit_string (l1 l2 : list N) (s1 s2 : string) :
  length l1 = length l2 -> Forall small l1 -> Forall small l2 ->
  lex l1 l2 = Lt ->
  String.compare (digit_string l1 +:+ s1) (digit_string l2 +:+ s2) = Lt.
Proof.
  revert l2. induction l1 as [|n1 l1 IH]; intros [|n2 l2] Hlen F1 F2 Hlex;
    simpl in *; try discriminate.
  inversion F1; inversion F2; subst.
  rewrite digit_char_compare by assumption.
  destruct (n1 ?= n2)%N; try discriminate; [|reflexivity].
  apply IH; try assumption. congruence.
Qed.

Lemma compare_same_prefix (p s1 s2 : string) :
  String.compare (p +:+ s1) (p +:+ s2) = String.compare s1 s2.
Proof.
  induction p as [|c p IH]; simpl; [reflexivity|].
  unfold Ascii.compare. by rewrite N.compare_refl.
Qed.

Lemma digit_string_split (l1 l2 : list N) (r1 r2 : string) :
  Forall small l1 -> Forall small l2 ->
  digit_string l1 +:+ String "_" r1 = digit_string l2 +:+ String "_" r2 ->
  l1 = l2 /\ r1 = r2.
Proof.
  revert l2. induction l1 as [|n1 l1 IH]; intros [|n2 l2] F1 F2 Heq; simpl in *.
  - injection Heq as ->. by split.
  - inversion F2; subst. injection Heq as Hc _.
    symmetry in Hc. by apply digit_char_not_underscore in Hc.
  - inversion F1; subst. injection Heq as Hc _.
    by apply digit_char_not_underscore in Hc.
  - inversion F1; inversion F2; subst. injection Heq as Hc Hrest.
    apply digit_char_inj in Hc as ->; try assumption.
    destruct (IH l2 ltac:(assumption) ltac:(assumption) Hrest) as [-> ->]. by split.
Qed.

(** ** Identity and order of message ids *)

Lemma generateMessageId_form (env : Env) :
  generateMessageId env
  = "msg_" +:+ (digit_string (digits (N.to_uint (dateNow env)))
                +:+ String "_" (random36 env)).
Proof. unfold generateMessageId. by rewrite decimal_digits. Qed.

(** The ids allocated to the room messages among some emissions, in the
    order of allocation. *)
Definition allocated_ids (effects : list Effect) : list string :=
  omap (fun e =>
          match e with
          | io_to_emit _ event payload =>
              if String.eqb event "new_message" then
                match get_field "id" payload with
                | JStr id => Some id
                | _ => None
                end
              else None
          | _ => None
          end) effects.

(** C5, as the code has it.  A message id is [msg_], the clock reading in
    milliseconds, [_], and a random suffix.  Two allocations yield the same
    id exactly when clock reading and suffix both coincide; an allocation
    at a later clock reading with as many decimal digits yields a greater
    id (in the order of strings); and within one clock reading the ids
    compare as their random suffixes do. *)
Theorem message_id_order (env1 env2 : Env) :
  (generateMessageId env1 = generateMessageId env2
   <-> dateNow env1 = dateNow env2 /\ random36 env1 = random36 env2)
  /\ (String.length (decimal (dateNow env1)) = String.length (decimal (dateNow env2)) ->
      (dateNow env1 < dateNow env2)%N ->
      String.ltb (generateMessageId env1) (generateMessageId env2) = true)
  /\ (dateNow env1 = dateNow env2 ->
      String.compare (generateMessageId env1) (generateMessageId env2)
      = String.compare (random36 env1) (random36 env2)).
Proof.
  rewrite !generateMessageId_form. split; [split|split].
  - intros Heq. injection Heq as Heq.
    apply digit_string_split in Heq as [Hd ->]; try apply digits_small.
    split; [|reflexivity].
    by apply DecimalN.Unsigned.to_uint_inj, digits_inj.
  - intros [-> ->]. reflexivity.
  - intros Hlen Hlt. rewrite !decimal_digits, !digit_string_length in Hlen.
    unfold String.ltb. rewrite compare_same_prefix.
    rewrite compare_digit_string; try apply digits_small; try done.
    apply (horner_lex _ _ 0); try apply digits_small; try done.
    by rewrite !decimal_value.
  - intros ->. rewrite !compare_same_prefix. reflexivity.
Qed.

Definition env_at (clock : N) (suffix : string) : Env :=
  {| dateNow := clock; isoNow := isoNow env0; random36 := suffix;
     i18n__ := i18n__ env0; JSON_stringify := JSON_stringify env0;
     JSON_parse := JSON_parse env0 |}.

Lemma message_id_order_witness :
  String.ltb (generateMessageId (env_at 1700000000000 "zzzzzzzzz"))
             (generateMessageId (env_at 1700000000001 "aaaaaaaaa")) = true
  /\ String.compare (generateMessageId (env_at 1700000000000 "zzzzzzzzz"))
                    (generateMessageId (env_at 1700000000000 "aaaaaaaaa"))
     = String.compare "zzzzzzzzz" "aaaaaaaaa".
Proof.
  split.
  - apply (proj1 (proj2 (message_id_order (env_at 1700000000000 "zzzzzzzzz")
                                          (env_at 1700000000001 "aaaaaaaaa")))).
    + reflexivity.
    + reflexivity.
  - apply (proj2 (proj2 (message_id_order (env_at 1700000000000 "zzzzzzzzz")
                                          (env_at 1700000000000 "aaaaaaaaa")))).
    reflexivity.
Defined.

(** C5 fails as stated: alice sends two messages to "general" within one
    millisecond; the id allocated to the second is smaller than the id
    allocated to the first. *)
Lemma message_id_counterexample :
  let w := run [(env0, connection alice1); (env0, join_room alice1 "general" JNull)]
             (initial redis_up) in
  let first := (env_at 1700000000000 "zzzzzzzzz",
                send_message alice1 "general" (JStr "one") None None) in
  let second := (env_at 1700000000000 "aaaaaaaaa",
                 send_message alice1 "general" (JStr "two") None None) in
  allocated_ids (sent_during [first; second] w)
  = ["msg_1700000000000_zzzzzzzzz"; "msg_1700000000000_aaaaaaaaa"]
  /\ String.ltb "msg_1700000000000_aaaaaaaaa" "msg_1700000000000_zzzzzzzzz" = true.
Proof. vm_compute. split; reflexivity. Qed.

(** * More of the cache ([src/utils/cache.js])

    The remaining key operations of [CacheManager], as functions of the
    cache like [cache_get] and [cache_set] (what they log is left out).
    Redis forgets a key when its expiry lapses; the passing of time is not
    part of the model, an entry records the expiry it was written with. *)

Definition with_keyspace (f : gmap string Entry -> gmap string Entry)
    (c : CacheManager) : CacheManager :=
  {| client := (fun r => {| keyspace := f (keyspace r);
                            commandsFail := commandsFail r |}) <$> client c;
     isConnected := isConnected c |}.

(** [del(key)]: [DEL] answers the number of keys removed; [result > 0].
    Like [get] and [set] it calls [logWarning] when Redis is not ready. *)
Definition cache_del (key : string) (c : CacheManager) : Outcome (CacheManager * bool) :=
  if isReady c then
    match client c with
    | Some r =>
        if commandsFail r then Return (c, false)
        else Return (with_keyspace (delete key) c,
                     bool_decide (is_Some (keyspace r !! key)))
    | None => Return (c, false)
    end
  else Throw logWarning_raises.

(** The cache a call of [del] leaves behind. *)
Definition after_del (key : string) (c : CacheManager) : CacheManager :=
  match cache_del key c with
  | Return (c', _) => c'
  | Throw _ => c
  end.

(** [exists(key)]: [result === 1]. *)
Definition cache_exists (key : string) (c : CacheManager) : bool :=
  if isReady c then
    match client c with
    | Some r => if commandsFail r then false
                else bool_decide (is_Some (keyspace r !! key))
    | None => false
    end
  else false.

(** [expire(key, ttl)]: [EXPIRE] answers 1 when the key exists; a timeout
    that is not positive deletes the key. *)
Definition cache_expire (key : string) (seconds : Z) (c : CacheManager)
  : CacheManager * bool :=
  if isReady c then
    match client c with
    | Some r =>
        if commandsFail r then (c, false)
        else match keyspace r !! key with
             | Some e =>
                 (if 0 <? seconds
                  then with_keyspace <[key := {| value := value e; ttl := Some seconds |}]> c
                  else with_keyspace (delete key) c, true)
             | None => (c, false)
             end
    | None => (c, false)
    end
  else (c, false).

(** [mget(keys)], with the default options: nothing for an empty list of
    keys; a text that [JSON.parse] rejects is answered as it is. *)
Definition cache_mget (env : Env) (keys : list string) (c : CacheManager) : list JVal :=
  if isReady c && negb (bool_decide (keys = [])) then
    match client c with
    | Some r =>
        if commandsFail r then []
        else map (fun key => match keyspace r !! key with
                             | Some e => default (JStr (value e)) (JSON_parse env (value e))
                             | None => JNull
                             end) keys
    | None => []
    end
  else [].

(** [flush()]: [FLUSHDB]. *)
Definition cache_flush (c : CacheManager) : CacheManager * bool :=
  if isReady c then
    match client c with
    | Some r => if commandsFail r then (c, false)
                else (with_keyspace (fun _ => ∅) c, true)
    | None => (c, false)
    end
  else (c, false).

(** ** [RedisSessionStore] *)

Record RedisSessionStore := { prefix : string; session_ttl : Z }.

(** [this.prefix = options.prefix || 'sess:'; this.ttl = options.ttl || 86400] *)
Definition new_RedisSessionStore (opt_prefix : option string) (opt_ttl : option Z)
  : RedisSessionStore :=
  {| prefix := match opt_prefix with
               | Some (String c p) => String c p
               | _ => "sess:"
               end;
     session_ttl := match opt_ttl with
                    | Some t => if t =? 0 then 86400 else t
                    | None => 86400
                    end |}.

Definition session_get (env : Env) (store : RedisSessionStore) (sid : string)
    (c : CacheManager) : Outcome JVal :=
  cache_get env (prefix store +:+ sid) c.

(** [set], [destroy] and [touch] answer nothing: what is left is the cache,
    or the exception. *)
Definition session_set (env : Env) (store : RedisSessionStore) (sid : string)
    (session : JVal) (c : CacheManager) : Outcome CacheManager :=
  match cache_set env (prefix store +:+ sid) session (session_ttl store) c with
  | Return (c', _) => Return c'
  | Throw e => Throw e
  end.

Definition session_destroy (store : RedisSessionStore) (sid : string) (c : CacheManager)
  : Outcome CacheManager :=
  match cache_del (prefix store +:+ sid) c with
  | Return (c', _) => Return c'
  | Throw e => Throw e
  end.

Definition session_touch (store : RedisSessionStore) (sid : string) (c : CacheManager)
  : CacheManager :=
  fst (cache_expire (prefix store +:+ sid) (session_ttl store) c).

(** ** Properties *)

Lemma available_client (c : CacheManager) :
  available c = true ->
  exists ks, c = {| client := Some {| keyspace := ks; commandsFail := false |};
                    isConnected := true |}.
Proof.
  unfold available. destruct c as [[[ks cf]|] conn]; simpl; [|discriminate].
  destruct conn, cf; simpl; try discriminate. intros _. by exists ks.
Qed.

(** What [get] reads back after [set]: the value that [JSON.parse] makes of
    the text written, [null] when it rejects the text.  An object or array
    comes back as the parse of its JSON text; a string is written as it is,
    so it comes back as whatever its own text parses to, and as [null] when
    it is no JSON text.  The entry carries the expiry asked for (none when
    it is not positive) and the other keys read as before. *)
Theorem cache_set_then_get (env : Env) (c : CacheManager) (key : string) (v : JVal)
    (seconds : Z) :
  available c = true ->
  let c' := after_set env key v seconds c in
  cache_set env key v seconds c = Return (c', true)
  /\ cache_get env key c'
     = Return (default JNull (JSON_parse env (if is_object v then JSON_stringify env v
                                              else js_string v)))
  /\ cache_exists key c' = true
  /\ ttl <$> stored key c' = Some (if 0 <? seconds then Some seconds else None)
  /\ (forall key', key' <> key -> cache_get env key' c' = cache_get env key' c).
Proof.
  intros Hav c'.
  destruct (cache_set_available env key v seconds c Hav) as (Hset & Hav' & Hkey & Hother).
  fold c' in Hset, Hav', Hkey, Hother.
  split; [exact Hset|]. split; [|split; [|split]].
  - rewrite cache_get_available by exact Hav'. by rewrite Hkey.
  - destruct (available_client c' Hav') as [ks Hc']. revert Hkey. rewrite Hc'.
    unfold cache_exists, stored. simpl. intros ->. reflexivity.
  - by rewrite Hkey.
  - intros key' Hne. rewrite !cache_get_available by assumption. by rewrite Hother.
Qed.

Lemma cache_set_then_get_witness :
  let c' := after_set env0 "k" (JStr "websocket.connected") 0 redis_up in
  cache_set env0 "k" (JStr "websocket.connected") 0 redis_up = Return (c', true)
  /\ cache_get env0 "k" c'
     = Return (default JNull
                 (JSON_parse env0 (if is_object (JStr "websocket.connected")
                                   then JSON_stringify env0 (JStr "websocket.connected")
                                   else js_string (JStr "websocket.connected"))))
  /\ cache_exists "k" c' = true
  /\ ttl <$> stored "k" c' = Some (if 0 <? 0 then Some 0 else None)
  /\ (forall key', key' <> "k" -> cache_get env0 key' c' = cache_get env0 key' redis_up).
Proof.
  apply (cache_set_then_get env0 redis_up "k" (JStr "websocket.connected") 0).
  reflexivity.
Defined.

(** With the sample JSON: a phrase reads back as [null], the string [12] as
    the number, an object as itself. *)
Example read_back :
  let read v := cache_get env0 "k" (after_set env0 "k" v 60 redis_up) in
  read (JStr "websocket.connected") = Return JNull
  /\ read (JStr "12") = Return (JNum 12)
  /\ read (JBool false) = Return (JBool false)
  /\ read (JObj [("members", JArr [JStr "alice"])])
     = Return (JObj [("members", JArr [JStr "alice"])]).
Proof. vm_compute. repeat split. Qed.

(** While Redis is not ready, [get], [set] and [del] raise the [TypeError]
    of the undefined [logWarning] instead of answering [null] and [false];
    [exists], [expire], [mget] and [flush], which do not log, answer their
    fallback.  The cache is as it was. *)
Theorem cache_not_ready (env : Env) (c : CacheManager) (key : string) (v : JVal)
    (seconds : Z) (keys : list string) :
  isReady c = false ->
  cache_get env key c = Throw logWarning_raises
  /\ cache_set env key v seconds c = Throw logWarning_raises
  /\ cache_del key c = Throw logWarning_raises
  /\ cache_exists key c = false
  /\ cache_expire key seconds c = (c, false)
  /\ cache_mget env keys c = []
  /\ cache_flush c = (c, false).
Proof.
  intros Hnr.
  unfold cache_get, cache_set, cache_del, cache_exists, cache_expire, cache_mget,
    cache_flush.
  rewrite Hnr. by repeat split.
Qed.

Lemma cache_not_ready_witness :
  cache_get env0 "k" redis_down = Throw logWarning_raises
  /\ cache_set env0 "k" (JNum 7) 60 redis_down = Throw logWarning_raises
  /\ cache_del "k" redis_down = Throw logWarning_raises
  /\ cache_exists "k" redis_down = false
  /\ cache_expire "k" 60 redis_down = (redis_down, false)
  /\ cache_mget env0 ["k"] redis_down = []
  /\ cache_flush redis_down = (redis_down, false).
Proof. apply (cache_not_ready env0 redis_down "k" (JNum 7) 60 ["k"]). reflexivity. Defined.

(** Deleting a key that was written answers [true] and the key then reads
    as absent; deleting a key that is not stored answers [false]; in both
    cases the other keys read as before. *)
Theorem cache_del_removes (env : Env) (c : CacheManager) (key : string) :
  available c = true ->
  let c' := after_del key c in
  cache_del key c = Return (c', cache_exists key c)
  /\ cache_get env key c' = Return JNull
  /\ cache_exists key c' = false
  /\ (forall key', key' <> key -> cache_get env key' c' = cache_get env key' c).
Proof.
  intros Hav. destruct (available_client c Hav) as [ks ->].
  cbn. rewrite !lookup_delete_eq. repeat split.
  intros key' Hne. by rewrite lookup_delete_ne.
Qed.

Lemma cache_del_removes_witness :
  let c := after_set env0 "k" (JNum 7) 60 redis_up in
  let c' := after_del "k" c in
  cache_del "k" c = Return (c', cache_exists "k" c)
  /\ cache_get env0 "k" c' = Return JNull
  /\ cache_exists "k" c' = false
  /\ (forall key', key' <> "k" -> cache_get env0 key' c' = cache_get env0 key' c).
Proof.
  apply (cache_del_removes env0 (after_set env0 "k" (JNum 7) 60 redis_up) "k").
  reflexivity.
Defined.

Lemma string_app_inv_head (p s1 s2 : string) : p +:+ s1 = p +:+ s2 -> s1 = s2.
Proof.
  induction p as [|a p IH]; simpl; [tauto|]. intros H. injection H as H. by apply IH.
Qed.

(** A session object whose JSON text parses back to it is read back after
    [set], also after a [touch], and reads as [null] after [destroy]; the
    sessions under other ids are not affected. *)
Theorem session_store_roundtrip (env : Env) (store : RedisSessionStore) (sid : string)
    (session : JVal) (c : CacheManager) :
  available c = true ->
  0 < session_ttl store ->
  is_object session = true ->
  JSON_parse env (JSON_stringify env session) = Some session ->
  exists c1 c2,
    session_set env store sid session c = Return c1
    /\ session_get env store sid c1 = Return session
    /\ session_get env store sid (session_touch store sid c1) = Return session
    /\ session_destroy store sid c1 = Return c2
    /\ session_get env store sid c2 = Return JNull
    /\ (forall sid', sid' <> sid ->
          session_get env store sid' c1 = session_get env store sid' c
          /\ session_get env store sid' c2 = session_get env store sid' c).
Proof.
  intros Hav Httl Hobj Hparse. destruct (available_client c Hav) as [ks ->].
  unfold session_get, session_set, session_touch, session_destroy.
  apply Z.ltb_lt in Httl.
  unfold cache_set, cache_get, cache_del, cache_expire, with_keyspace, serialized, isReady.
  cbn. rewrite ?Hobj, ?Httl.
  do 2 eexists. split; [reflexivity|]. cbn.
  rewrite ?lookup_insert_eq. cbn. rewrite ?Httl. cbn.
  rewrite ?lookup_insert_eq. cbn. rewrite ?Hparse.
  split; [reflexivity|]. split; [reflexivity|]. split; [reflexivity|].
  cbn. rewrite !lookup_delete_eq. split; [reflexivity|].
  intros sid' Hne.
  assert (prefix store +:+ sid <> prefix store +:+ sid')
    by (intros Heq; apply string_app_inv_head in Heq; congruence).
  split.
  - by rewrite lookup_insert_ne.
  - by rewrite lookup_delete_ne, lookup_insert_ne.
Qed.

Lemma session_store_roundtrip_witness :
  let store := new_RedisSessionStore None None in
  let session := JObj [("user", JStr "alice")] in
  exists c1 c2,
    session_set env0 store "abc" session redis_up = Return c1
    /\ session_get env0 store "abc" c1 = Return session
    /\ session_get env0 store "abc" (session_touch store "abc" c1) = Return session
    /\ session_destroy store "abc" c1 = Return c2
    /\ session_get env0 store "abc" c2 = Return JNull
    /\ (forall sid', sid' <> "abc" ->
          session_get env0 store sid' c1 = session_get env0 store sid' redis_up
          /\ session_get env0 store sid' c2 = session_get env0 store sid' redis_up).
Proof.
  apply (session_store_roundtrip env0 (new_RedisSessionStore None None) "abc"
           (JObj [("user", JStr "alice")]) redis_up).
  - reflexivity.
  - reflexivity.
  - reflexivity.
  - vm_compute. reflexivity.
Defined.

(** * Invariants of the coordinator's state *)

(** A property of the coordinator's own state, seen as a frame: once it
    holds it holds afterwards. *)
Definition keeps (Inv : WebSocketManager -> Prop) : relation World :=
  fun w w' => Inv (this w) -> Inv (this w').

#[export] Instance keeps_preorder Inv : PreOrder (keeps Inv).
Proof. split; [intros w H; exact H | intros a b c Hab Hbc H; auto]. Qed.
#[export] Instance keeps_log Inv : FrameLog (keeps Inv).
Proof. intros w l m H. exact H. Qed.
#[export] Instance keeps_outbox Inv : FrameOutbox (keeps Inv).
Proof. intros w e H. exact H. Qed.
#[export] Instance keeps_cache Inv : FrameCache (keeps Inv).
Proof. intros w c H. exact H. Qed.
#[export] Instance keeps_sockets Inv : FrameSockets (keeps Inv).
Proof. intros w f H. exact H. Qed.

(** An invariant kept by every handler holds after every run. *)
Lemma keeps_run (Inv : WebSocketManager -> Prop) (events : list (Env * Event))
    (w : World) :
  (forall env ev, preserves (keeps Inv) (step env ev)) ->
  Inv (this w) -> Inv (this (run events w)).
Proof.
  intros Hstep. revert w. induction events as [|[env ev] events IH]; intros w Hw.
  - exact Hw.
  - simpl. apply IH. by apply (Hstep env ev w).
Qed.

(** Splits [preserves (keeps Inv) (step env ev)] into the updates of the
    coordinator's state that the handlers make. *)
Ltac keeps_step :=
  unfold step, handleConnection, handleDisconnection, handleJoinRoom, handleLeaveRoom,
    handleSendMessage, handlePrivateMessage, sendNotificationToUser, periodicCleanup,
    cleanupEmptyRooms, validateRoomAccess, is_empty_message, logInfo, logError;
  frame;
  try (apply preserves_foldr; [typeclasses eauto | intros ? ? ?; frame]).

(** ** No room without a member *)

Definition no_empty_room (m : WebSocketManager) : Prop :=
  forall roomId members, rooms m !! roomId = Some members -> members <> ∅.

Lemma cleanup_fold_other (entries : list (string * gset string)) (m : WebSocketManager) :
  connectedUsers (foldl cleanupRoom m entries) = connectedUsers m
  /\ userSockets (foldl cleanupRoom m entries) = userSockets m
  /\ connectionStats (foldl cleanupRoom m entries) = connectionStats m.
Proof.
  revert m. induction entries as [|[k v] entries IH]; intros m; cbn [foldl]; [done|].
  destruct (IH (cleanupRoom m (k, v))) as (H1 & H2 & H3).
  rewrite H1, H2, H3. unfold cleanupRoom. by destruct (bool_decide _).
Qed.

Lemma no_empty_room_step (env : Env) (ev : Event) :
  preserves (keeps no_empty_room) (step env ev).
Proof.
  destruct ev; keeps_step.
  all: intros Hinv; try exact Hinv.
  - (* disconnect: cleanupEmptyRooms *)
    intros k v Hk. simpl in Hk. apply cleanup_fold_rooms in Hk as [Hk _].
    by apply (Hinv k v).
  - (* join_room *)
    intros k v Hk. simpl in Hk.
    destruct (decide (k = roomId)) as [->|Hne].
    + rewrite lookup_alter_eq in Hk. case_bool_decide as Hsome.
      * destruct Hsome as [old Hold]. rewrite Hold in Hk. injection Hk as <-.
        set_solver.
      * rewrite lookup_insert_eq in Hk. injection Hk as <-. set_solver.
    + rewrite lookup_alter_ne in Hk by done. case_bool_decide.
      * by apply (Hinv k v).
      * rewrite lookup_insert_ne in Hk by done. by apply (Hinv k v).
  - (* leave_room *)
    intros k v Hk. simpl in Hk.
    destruct (rooms (this w) !! roomId) as [old|] eqn:Hold; [|by apply (Hinv k v)].
    case_bool_decide as Hsize; simpl in Hk.
    + destruct (decide (k = roomId)) as [->|Hne].
      * by rewrite lookup_delete_eq in Hk.
      * rewrite lookup_delete_ne in Hk by done. by apply (Hinv k v).
    + destruct (decide (k = roomId)) as [->|Hne].
      * rewrite lookup_insert_eq in Hk. injection Hk as <-.
        intros Hempty. apply Hsize. by rewrite Hempty.
      * rewrite lookup_insert_ne in Hk by done. by apply (Hinv k v).
  - (* sweep: cleanupEmptyRooms *)
    intros k v Hk. simpl in Hk. apply cleanup_fold_rooms in Hk as [Hk _].
    by apply (Hinv k v).
Qed.

Lemma cleanup_fold_id (entries : list (string * gset string)) (m : WebSocketManager) :
  Forall (fun entry => entry.2 <> ∅) entries -> foldl cleanupRoom m entries = m.
Proof.
  intros Hall. revert m. induction Hall as [|[k v] entries Hv _ IH]; intros m; [done|].
  cbn [foldl]. rewrite IH. unfold cleanupRoom. simpl in Hv.
  rewrite bool_decide_eq_false_2; [done|]. intros Hsize.
  apply size_empty_iff in Hsize. apply Hv. by apply leibniz_equiv.
Qed.

Lemma cleanupEmptyRooms_id (w : World) :
  no_empty_room (this w) -> this (exec cleanupEmptyRooms w) = this w.
Proof.
  intros Hinv. unfold cleanupEmptyRooms, exec, modify. simpl.
  apply cleanup_fold_id. apply Forall_forall. intros [k v] Hin. simpl.
  apply elem_of_map_to_list in Hin. by apply (Hinv k v).
Qed.

(** In every state the coordinator reaches, each room it tracks has a
    member: a room is created with its first member and deleted with its
    last, so [cleanupEmptyRooms] finds nothing to remove. *)
Theorem tracked_rooms_have_members (events : list (Env * Event)) (c : CacheManager) :
  let w := run events (initial c) in
  no_empty_room (this w) /\ this (exec cleanupEmptyRooms w) = this w.
Proof.
  assert (Hinv : no_empty_room (this (run events (initial c)))).
  { apply keeps_run; [apply no_empty_room_step|]. intros k v Hk. simpl in Hk.
    by rewrite lookup_empty in Hk. }
  split; [exact Hinv | by apply cleanupEmptyRooms_id].
Qed.

(** ** The in-memory room records are never filled *)

Definition never_populated (m : WebSocketManager) : Prop :=
  activeRooms m = ∅ /\ messageHistory m = ∅.

Lemma cleanup_fold_never_populated (entries : list (string * gset string))
    (m : WebSocketManager) :
  never_populated m -> never_populated (foldl cleanupRoom m entries).
Proof.
  revert m. induction entries as [|[k v] entries IH]; intros m Hm; [exact Hm|].
  cbn [foldl]. apply IH. unfold cleanupRoom. destruct (bool_decide _); [|exact Hm].
  destruct Hm as [Ha Hh]. split; simpl; [rewrite Ha | rewrite Hh]; apply delete_empty.
Qed.

Lemma never_populated_step (env : Env) (ev : Event) :
  preserves (keeps never_populated) (step env ev).
Proof.
  destruct ev; keeps_step.
  all: intros Hinv; try exact Hinv.
  - by apply cleanup_fold_never_populated.
  - simpl. destruct (rooms (this w) !! roomId) as [old|]; [|exact Hinv].
    destruct (bool_decide _); [|exact Hinv].
    destruct Hinv as [Ha Hh]. split; simpl; [rewrite Ha; apply delete_empty | exact Hh].
  - by apply cleanup_fold_never_populated.
  - destruct Hinv as [Ha Hh]. split; simpl; [exact Ha|]. rewrite Hh. apply fmap_empty.
Qed.

(** No handler ever writes [activeRooms] or [messageHistory]: both maps are
    empty in every state the coordinator reaches, and the periodic sweep,
    which prunes them, leaves the coordinator's state as it is. *)
Theorem in_memory_records_stay_empty (events : list (Env * Event)) (c : CacheManager)
    (env : Env) (Date_parse : JVal -> option Z) :
  let w := run events (initial c) in
  activeRooms (this w) = ∅
  /\ messageHistory (this w) = ∅
  /\ this (exec (periodicCleanup env Date_parse) w) = this w.
Proof.
  assert (Hnp : never_populated (this (run events (initial c))))
    by (apply keeps_run; [apply never_populated_step | by split]).
  assert (Hne : no_empty_room (this (run events (initial c)))).
  { apply keeps_run; [apply no_empty_room_step|]. intros k v Hk. simpl in Hk.
    by rewrite lookup_empty in Hk. }
  destruct Hnp as [Ha Hh]. split; [exact Ha | split; [exact Hh|]].
  unfold periodicCleanup. rewrite exec_bind.
  change (cleanupEmptyRooms (run events (initial c)))
    with (Return tt, exec cleanupEmptyRooms (run events (initial c))).
  cbv iota beta. unfold exec at 1, modify. simpl snd.
  pose proof (cleanupEmptyRooms_id _ Hne) as Hid.
  destruct (exec cleanupEmptyRooms (run events (initial c))) as [m c' sr ob lg].
  simpl in *. subst m.
  destruct (this (run events (initial c))) as [cu us rm ar mh st]. simpl in *.
  unfold set_messageHistory. simpl. subst mh. by rewrite fmap_empty.
Qed.

(** ** The registry is keyed by the user of the socket *)

Definition registry_keyed (m : WebSocketManager) : Prop :=
  forall user socket, connectedUsers m !! user = Some socket -> userId socket = user.

Lemma registry_keyed_step (env : Env) (ev : Event) :
  preserves (keeps registry_keyed) (step env ev).
Proof.
  destruct ev; keeps_step.
  all: intros Hinv; try exact Hinv.
  - intros u s Hu. simpl in Hu. destruct (decide (userId socket = u)) as [<-|Hne].
    + rewrite lookup_insert_eq in Hu. by injection Hu as <-.
    + rewrite lookup_insert_ne in Hu by done. by apply Hinv.
  - intros u s Hu. simpl in Hu. destruct (decide (userId socket = u)) as [<-|Hne].
    + by rewrite lookup_delete_eq in Hu.
    + rewrite lookup_delete_ne in Hu by done. by apply Hinv.
  - intros u s Hu. simpl in Hu.
    rewrite (proj1 (cleanup_fold_other _ _)) in Hu. by apply Hinv.
  - simpl. destruct (rooms (this w) !! roomId); [destruct (bool_decide _)|]; exact Hinv.
  - intros u s Hu. simpl in Hu.
    rewrite (proj1 (cleanup_fold_other _ _)) in Hu. by apply Hinv.
Qed.

(** Whatever the events, a user the registry resolves is resolved to a
    socket of that user: the target of a private message or notification
    is never another user's socket. *)
Theorem registry_resolves_own_socket (events : list (Env * Event)) (c : CacheManager)
    (user : string) (socket : Socket) :
  resolve user (run events (initial c)) = Some socket -> userId socket = user.
Proof.
  unfold resolve.
  apply (keeps_run registry_keyed events (initial c) registry_keyed_step).
  intros u s Hu. simpl in Hu. by rewrite lookup_empty in Hu.
Qed.

Lemma registry_resolves_own_socket_witness :
  userId alice2 = "alice".
Proof.
  apply (registry_resolves_own_socket
           [(env0, connection alice1); (env0, connection alice2)] redis_up
           "alice" alice2).
  vm_compute. reflexivity.
Defined.

(** * Connections and the counters *)

(** [getConnectionStats()], with [uptime] standing for [process.uptime()]:
    the stored counters, the number of users and of rooms read off the
    maps. *)
Definition getConnectionStats (uptime : Z) (w : World) : ConnectionStats * Z :=
  ({| totalConnections := totalConnections (connectionStats (this w));
      activeUsers := Z.of_nat (size (connectedUsers (this w)));
      totalRooms := Z.of_nat (size (rooms (this w)));
      messagesCount := messagesCount (connectionStats (this w)) |}, uptime).

(** The coordinator's state after [handleConnection]. *)
Lemma handleConnection_this (env : Env) (socket : Socket) (w : World) :
  this (exec (handleConnection env socket) w)
  = set_userSockets <[socket_id socket := userId socket]>
      (set_connectedUsers <[userId socket := socket]>
         (set_connectionStats (fun s =>
            {| totalConnections := totalConnections s + 1;
               activeUsers := Z.of_nat (size (connectedUsers (this w))) + 1;
               totalRooms := totalRooms s;
               messagesCount := messagesCount s |}) (this w))).
Proof.
  unfold handleConnection, logInfo, log, socket_join.
  rewrite !exec_modify_bind.
  match goal with |- context [exec ?rest ?w1] =>
    assert (Ht : preserves same_this rest) by frame;
    rewrite (Ht w1)
  end.
  reflexivity.
Qed.

(** Every connection counts as one more connection and sets the stored
    number of active users to one more than the registry held.  When the
    user already had an entry the registry does not grow, so the stored
    number is one too many; [getConnectionStats] reports the size of the
    registry itself. *)
Theorem connection_counters (env : Env) (socket : Socket) (uptime : Z) (w : World) :
  let w' := exec (handleConnection env socket) w in
  let before := size (connectedUsers (this w)) in
  totalConnections (connectionStats (this w'))
  = totalConnections (connectionStats (this w)) + 1
  /\ activeUsers (connectionStats (this w')) = Z.of_nat before + 1
  /\ activeUsers (fst (getConnectionStats uptime w'))
     = Z.of_nat (if bool_decide (is_Some (resolve (userId socket) w))
                 then before else S before).
Proof.
  intros w' before. subst w'. unfold getConnectionStats.
  rewrite !handleConnection_this. simpl.
  repeat split. f_equal. unfold resolve. case_bool_decide as Hreg.
  - by apply map_size_insert_Some.
  - apply map_size_insert_None. by apply eq_None_not_Some.
Qed.

(** ** Disconnection *)






(** The registry, the socket index, the counters and the sockets' rooms
    are as before. *)
Definition same_registry : relation World := fun w w' =>
  connectedUsers (this w') = connectedUsers (this w)
  /\ userSockets (this w') = userSockets (this w)
  /\ connectionStats (this w') = connectionStats (this w)
  /\ socketRooms w' = socketRooms w.

#[export] Instance same_registry_preorder : PreOrder same_registry.
Proof.
  split; [intros w; by repeat split|].
  intros a b c (H1 & H2 & H3 & H4) (G1 & G2 & G3 & G4). repeat split; congruence.
Qed.
#[export] Instance same_registry_log : FrameLog same_registry.
Proof. intros w l m. by repeat split. Qed.
#[export] Instance same_registry_outbox : FrameOutbox same_registry.
Proof. intros w e. by repeat split. Qed.
#[export] Instance same_registry_cache : FrameCache same_registry.
Proof. intros w c. by repeat split. Qed.

(** What [handleDisconnection] does to the registry, whether it returns or
    raises: the updates come before the first [await]. *)
Lemma handleDisconnection_registry (env : Env) (socket : Socket) (reason : string)
    (w : World) :
  let w' := exec (handleDisconnection env socket reason) w in
  connectedUsers (this w') = delete (userId socket) (connectedUsers (this w))
  /\ userSockets (this w') = delete (socket_id socket) (userSockets (this w))
  /\ activeUsers (connectionStats (this w'))
     = Z.of_nat (size (delete (userId socket) (connectedUsers (this w))))
  /\ totalConnections (connectionStats (this w'))
     = totalConnections (connectionStats (this w))
  /\ socketRooms w' = socketRooms w.
Proof.
  unfold handleDisconnection, logInfo, log.
  rewrite !exec_modify_bind.
  match goal with |- context [exec ?rest ?w1] =>
    assert (Hr : preserves same_registry rest)
  end.
  { unfold updateUserOnlineStatus, broadcastToRoom, cleanupEmptyRooms. frame.
    - apply preserves_foldr; [typeclasses eauto | intros ? ? ?; frame].
    - pose proof (cleanup_fold_other (map_to_list (rooms (this w0))) (this w0))
        as (H1 & H2 & H3).
      by repeat split. }
  match goal with |- context [exec ?rest ?w1] =>
    destruct (Hr w1) as (H1 & H2 & H3 & H4)
  end.
  cbv zeta. rewrite H1, H2, H3, H4. by repeat split.
Qed.




Lemma handleConnection_socketRooms (env : Env) (socket : Socket) (w : World) :
  socketRooms (exec (handleConnection env socket) w)
  = <[socket_id socket :=
        set_add ("role:" +:+ userRole socket)
          (set_add ("user:" +:+ userId socket) (rooms_of (socket_id socket) w))]>
      (socketRooms w).
Proof.
  unfold handleConnection, logInfo, log, socket_join.
  rewrite !exec_modify_bind.
  match goal with |- context [exec ?rest ?w1] =>
    assert (Hs : preserves same_socketRooms rest) by frame;
    rewrite (Hs w1)
  end.
  unfold rooms_of. simpl. rewrite lookup_insert_eq. simpl.
  by rewrite insert_insert_eq.
Qed.

(** A connection followed by the close of the same socket leaves the
    registry, [userSockets] and the sockets' rooms as they were, for a user
    and a socket that were not known before; only the connection counter
    has grown. *)
Theorem connect_then_disconnect (env1 env2 : Env) (socket : Socket) (reason : string)
    (w : World) :
  resolve (userId socket) w = None ->
  userSockets (this w) !! socket_id socket = None ->
  is_open (socket_id socket) w = false ->
  let w' := run [(env1, connection socket); (env2, disconnect socket reason)] w in
  connectedUsers (this w') = connectedUsers (this w)
  /\ userSockets (this w') = userSockets (this w)
  /\ socketRooms w' = socketRooms w
  /\ totalConnections (connectionStats (this w'))
     = totalConnections (connectionStats (this w)) + 1.
Proof.
  intros Hcu Hus Hopen w'. unfold resolve, is_open in *.
  apply bool_decide_eq_false in Hopen. apply eq_None_not_Some in Hopen.
  subst w'. unfold run. cbn [foldl fst snd step].
  rewrite !exec_modify_bind.
  set (w0 := with_socketRooms _ w).
  set (w1 := with_socketRooms _ (exec (handleConnection env1 socket) w0)).
  destruct (handleDisconnection_registry env2 socket reason w1)
    as (Hcu2 & Hus2 & _ & Htc & Hsr).
  cbv zeta in Hcu2, Hus2, Htc, Hsr.
  rewrite Hcu2, Hus2, Htc, Hsr. subst w1. simpl.
  rewrite handleConnection_socketRooms, !handleConnection_this.
  subst w0. simpl. repeat split.
  - by apply delete_insert_id.
  - by apply delete_insert_id.
  - rewrite insert_insert_eq. by apply delete_insert_id.
Qed.

Lemma connect_then_disconnect_witness :
  let w := run [(env0, connection alice1)] (initial redis_up) in
  let w' := run [(env0, connection bob1); (env0, disconnect bob1 "transport close")] w in
  connectedUsers (this w') = connectedUsers (this w)
  /\ userSockets (this w') = userSockets (this w)
  /\ socketRooms w' = socketRooms w
  /\ totalConnections (connectionStats (this w'))
     = totalConnections (connectionStats (this w)) + 1.
Proof.
  apply (connect_then_disconnect env0 env0 bob1 "transport close"
           (run [(env0, connection alice1)] (initial redis_up))).
  - vm_compute. reflexivity.
  - vm_compute. reflexivity.
  - vm_compute. reflexivity.
Defined.

(** * Runs that only touch the cache *)

(** Between the two worlds nothing was sent and nothing of the coordinator
    or of the sockets changed; Redis is as ready and as available as
    before, and the keys outside the family [touched] hold what they
    held. *)
Definition quiet (touched : string -> bool) : relation World := fun w w' =>
  this w' = this w /\ socketRooms w' = socketRooms w /\ outbox w' = outbox w
  /\ isReady (cache w') = isReady (cache w)
  /\ available (cache w') = available (cache w)
  /\ forall k, touched k = false -> stored k (cache w') = stored k (cache w).

#[export] Instance quiet_preorder touched : PreOrder (quiet touched).
Proof.
  split; [intros w; by repeat split|].
  intros a b c (H1 & H2 & H3 & H4 & H5 & H6) (G1 & G2 & G3 & G4 & G5 & G6).
  repeat split; try congruence. intros k Hk. rewrite (G6 k Hk). by apply H6.
Qed.

#[export] Instance quiet_log touched : FrameLog (quiet touched).
Proof. intros w l m. by repeat split. Qed.

Lemma quiet_weaken (t1 t2 : string -> bool) (w w' : World) :
  (forall k, t1 k = true -> t2 k = true) -> quiet t1 w w' -> quiet t2 w w'.
Proof.
  intros Hsub (H1 & H2 & H3 & H4 & H5 & H6). repeat split; try assumption.
  intros k Hk. apply H6. destruct (t1 k) eqn:Ht; [|done].
  apply Hsub in Ht. congruence.
Qed.

Lemma cache_get_agree (env : Env) (key : string) (c c' : CacheManager) :
  isReady c' = isReady c -> available c' = available c ->
  stored key c' = stored key c ->
  cache_get env key c' = cache_get env key c.
Proof.
  intros Hre Hav Hst. destruct (isReady c) eqn:Hr.
  - destruct (available c) eqn:Hc.
    + rewrite !cache_get_available by assumption. by rewrite Hst.
    + by rewrite !cache_get_failing.
  - by rewrite !cache_get_not_ready.
Qed.

Lemma quiet_held (touched : string -> bool) (env : Env) (key : string) (w w' : World) :
  quiet touched w w' -> touched key = false ->
  cache_get env key (cache w') = cache_get env key (cache w).
Proof. intros (_ & _ & _ & Hre & Hav & Hst) Hk. apply cache_get_agree; auto. Qed.

Lemma cacheGet_quiet_run (env : Env) (key : string) (touched : string -> bool)
    (w : World) (v : JVal) :
  cache_get env key (cache w) = Return v ->
  exists w1, cacheGet env key w = (Return v, w1) /\ quiet touched w w1.
Proof.
  intros Hget. destruct (cacheGet_run env key w v Hget) as (w1 & Hrun & Ht & Hc & Hs & Ho).
  exists w1. split; [exact Hrun|]. repeat split; try assumption; by rewrite Hc.
Qed.

Lemma cacheSet_quiet (touched : string -> bool) (env : Env) (key : string) (v : JVal)
    (seconds : Z) :
  touched key = true -> preserves (quiet touched) (cacheSet env key v seconds).
Proof.
  intros Hkey w.
  assert (Hne : forall k, touched k = false -> key <> k) by (intros k Hk ->; congruence).
  unfold quiet, exec, cacheSet, client_set, logError, logWarning, log, try_catch, throw,
    gets, modify, mbind, M_bind, mret, M_ret, stored, isReady, available.
  destruct w as [t [[[ks cf]|] conn] sr ob lg]; simpl;
    destruct conn; simpl; try (by repeat split);
    destruct cf, (0 <? seconds); simpl; repeat split;
    intros k Hk; rewrite lookup_insert_ne; auto.
Qed.

Lemma cacheSet_quiet_run (env : Env) (key : string) (v : JVal) (seconds : Z)
    (touched : string -> bool) (w : World) :
  touched key = true ->
  isReady (cache w) = true ->
  exists ok w1, cacheSet env key v seconds w = (Return ok, w1)
                /\ cache w1 = after_set env key v seconds (cache w)
                /\ quiet touched w w1.
Proof.
  intros Hkey Hready.
  destruct (cacheSet_run env key v seconds w Hready) as (ok & w1 & Hrun & _ & Hc & _).
  pose proof (cacheSet_quiet touched env key v seconds Hkey w) as Hq.
  unfold exec in Hq. rewrite Hrun in Hq. by exists ok, w1.
Qed.

(** The cache key of a translation. *)
Definition i18n_cache_key (env : Env) (key : string) (params : JVal) (locale : string)
  : string :=
  "i18n:" +:+ locale +:+ ":" +:+ key +:+ ":" +:+ JSON_stringify env params.

(** [translate] writes at most its own cache key. *)
Lemma translate_quiet (touched : string -> bool) (env : Env) (key : string)
    (params : JVal) (locale : string) :
  touched (i18n_cache_key env key params locale) = true ->
  preserves (quiet touched) (translate env key params locale).
Proof.
  intros Hkey. unfold translate. frame. by apply cacheSet_quiet.
Qed.

Lemma translate_key_run (env : Env) (key : string) (params : JVal) (locale : string)
    (touched : string -> bool) (w : World) :
  touched (i18n_cache_key env key params locale) = true ->
  exists w1,
    translate env key params locale w
    = (Return (JPromise (translation env key params locale w)), w1)
    /\ quiet touched w w1.
Proof.
  intros Hkey. pose proof (translate_value env key params locale w) as Hv.
  pose proof (translate_quiet touched env key params locale Hkey w) as Hq.
  unfold exec in Hq.
  destruct (translate env key params locale w) as [[v|e] w1]; simpl in *; [|discriminate].
  injection Hv as ->. by exists w1.
Qed.

Lemma translate_quiet_run (env : Env) (key : string) (params : JVal) (locale : string)
    (touched : string -> bool) (w : World) :
  (forall k, i18n_key k = true -> touched k = true) ->
  exists w1,
    translate env key params locale w
    = (Return (JPromise (translation env key params locale w)), w1)
    /\ quiet touched w w1.
Proof. intros Hsub. apply translate_key_run, Hsub. reflexivity. Qed.

(** * Room metadata *)

Lemma field_lookup_assign_eq (k : string) (v : JVal) (fields : list (string * JVal)) :
  field_lookup k (field_assign k v fields) = v.
Proof.
  induction fields as [|[k' v'] fields IH]; simpl.
  - by rewrite String.eqb_refl.
  - destruct (String.eqb k k') eqn:Hk; simpl; rewrite ?String.eqb_refl, ?Hk; auto.
Qed.

Lemma field_lookup_assign_ne (k k' : string) (v : JVal) (fields : list (string * JVal)) :
  k <> k' -> field_lookup k (field_assign k' v fields) = field_lookup k fields.
Proof.
  intros Hne. apply String.eqb_neq in Hne.
  induction fields as [|[k2 v2] fields IH]; simpl.
  - by rewrite Hne.
  - destruct (String.eqb k' k2) eqn:Hk; simpl.
    + apply String.eqb_eq in Hk as <-. by rewrite Hne.
    + by rewrite IH.
Qed.

(** A metadata object as [updateRoomMetadata] expects and writes it. *)
Definition wf_metadata (metadata : JVal) (members activity : list JVal) : Prop :=
  exists fields, metadata = JObj fields
                 /\ field_lookup "members" fields = JArr members
                 /\ field_lookup "activity" fields = JArr activity.

Definition members_after (userId action : string) (members : list JVal) : list JVal :=
  if String.eqb action "joined" then
    if existsb (is_str userId) members then members else members ++ [JStr userId]
  else if String.eqb action "left" then
    List.filter (fun id => negb (is_str userId id)) members
  else members.

Definition activity_entry (env : Env) (userId action : string) : JVal :=
  JObj [("userId", JStr userId); ("action", JStr action);
        ("timestamp", JStr (isoNow env))].

Lemma update_members_run (userId action : string) (metadata : JVal)
    (members activity : list JVal) (w : World) :
  wf_metadata metadata members activity ->
  exists metadata',
    update_members userId action metadata w = (Return metadata', w)
    /\ wf_metadata metadata' (members_after userId action members) activity.
Proof.
  intros (fields & -> & Hm & Ha). unfold update_members, members_after. simpl.
  rewrite Hm.
  assert (Hset : forall ms, wf_metadata (set_field "members" (JArr ms) (JObj fields))
                              ms activity).
  { intros ms. eexists. split; [reflexivity|]. split.
    - apply field_lookup_assign_eq.
    - by rewrite field_lookup_assign_ne. }
  assert (Hsame : wf_metadata (JObj fields) members activity) by (by exists fields).
  destruct (String.eqb action "joined").
  - destruct (existsb (is_str userId) members); eexists; split; try reflexivity;
      first [exact Hsame | exact (Hset _)].
  - destruct (String.eqb action "left"); eexists; split; try reflexivity;
      first [exact Hsame | exact (Hset _)].
Qed.

Definition metadata_key (roomId : string) : string := "room:" +:+ roomId +:+ ":metadata".

Definition activity_after (env : Env) (userId action : string) (activity : list JVal)
  : list JVal :=
  slice_last 100 (activity ++ [activity_entry env userId action]).

(** The metadata [updateRoomMetadata] starts from,
    [(await cache.get(key)) || { members: [], activity: [] }], when [get]
    answers. *)
Definition room_metadata (env : Env) (roomId : string) (c : CacheManager) : option JVal :=
  match cache_get env (metadata_key roomId) c with
  | Return v => Some (js_or v (JObj [("members", JArr []); ("activity", JArr [])]))
  | Throw _ => None
  end.

Lemma room_metadata_ready (env : Env) (roomId : string) (c : CacheManager) (v : JVal) :
  room_metadata env roomId c = Some v -> isReady c = true.
Proof.
  unfold room_metadata. destruct (cache_get env _ c) eqn:Hget; [|discriminate].
  intros _. by eapply cache_get_returns.
Qed.

Lemma updateRoomMetadata_run (env : Env) (roomId userId action : string)
    (metadata : JVal) (members activity : list JVal) (touched : string -> bool)
    (w : World) :
  room_metadata env roomId (cache w) = Some metadata ->
  wf_metadata metadata members activity ->
  touched (metadata_key roomId) = true ->
  exists metadata' w1,
    updateRoomMetadata env roomId userId action w = (Return tt, w1)
    /\ wf_metadata metadata' (members_after userId action members)
         (activity_after env userId action activity)
    /\ cache w1 = after_set env (metadata_key roomId) metadata' 86400 (cache w)
    /\ quiet touched w w1.
Proof.
  intros Hmeta Hwf Htouched. unfold updateRoomMetadata. fold (metadata_key roomId).
  pose proof (room_metadata_ready _ _ _ _ Hmeta) as Hready.
  unfold room_metadata in Hmeta.
  destruct (cache_get env (metadata_key roomId) (cache w)) as [v0|] eqn:Hv0;
    [|discriminate].
  injection Hmeta as Hmeta.
  destruct (cacheGet_quiet_run env (metadata_key roomId) touched w v0 Hv0)
    as (w0 & Hget & Hq0).
  rewrite (bind_run _ _ _ _ _ Hget). cbv beta zeta. rewrite Hmeta.
  destruct (update_members_run userId action _ members activity w0 Hwf)
    as (meta1 & Hupd & fields & -> & Hm & Ha).
  rewrite (bind_run _ _ _ _ _ Hupd). simpl get_field. rewrite Ha. simpl as_array.
  unfold mbind at 1. unfold M_bind, mret, M_ret.
  fold (activity_entry env userId action).
  set (act' := if (100 <? _)%nat then _ else _).
  assert (Hact : act' = activity_after env userId action activity).
  { subst act'. unfold activity_after, slice_last.
    destruct (Nat.ltb_spec 100 (length (activity ++ [activity_entry env userId action])))
      as [Hlt|Hge]; [reflexivity|].
    replace (_ - 100)%nat with 0%nat by lia. reflexivity. }
  assert (Hceq : cache w0 = cache w).
  { destruct (cacheGet_run env (metadata_key roomId) w v0 Hv0)
      as (w0' & Hget' & _ & Hc' & _).
    rewrite Hget in Hget'. by injection Hget' as ->. }
  destruct (cacheSet_quiet_run env (metadata_key roomId)
              (set_field "activity" (JArr act') (JObj fields)) 86400 touched w0 Htouched)
    as (ok & w1 & Hset & Hc & Hq1); [by rewrite Hceq|].
  rewrite (bind_run _ _ _ _ _ Hset).
  exists (set_field "activity" (JArr act') (JObj fields)), w1.
  split; [reflexivity|]. split; [|split].
  - eexists. split; [reflexivity|]. split.
    + by rewrite field_lookup_assign_ne.
    + rewrite field_lookup_assign_eq. by rewrite Hact.
  - by rewrite Hc, Hceq.
  - by etransitivity.
Qed.

Lemma is_str_true (userId : string) (v : JVal) : is_str userId v = true <-> v = JStr userId.
Proof.
  destruct v; simpl; try (split; [discriminate | intros; discriminate]).
  rewrite String.eqb_eq. split; [by intros -> | by intros [= ->]].
Qed.

Lemma existsb_is_str (userId : string) (l : list JVal) :
  existsb (is_str userId) l = true <-> JStr userId ∈ l.
Proof.
  rewrite existsb_exists. split.
  - intros (v & Hin & Hv). apply is_str_true in Hv as ->. by apply list_elem_of_In.
  - intros Hin. exists (JStr userId). split; [by apply list_elem_of_In|].
    by apply is_str_true.
Qed.

Lemma members_after_joined (userId : string) (members : list JVal) :
  let members' := members_after userId "joined" members in
  JStr userId ∈ members'
  /\ (forall other, other <> JStr userId -> (other ∈ members' <-> other ∈ members))
  /\ (NoDup members -> NoDup members').
Proof.
  unfold members_after. simpl.
  destruct (existsb (is_str userId) members) eqn:Hex.
  - apply existsb_is_str in Hex. by repeat split.
  - assert (Hnot : JStr userId ∉ members).
    { intros Hin. apply existsb_is_str in Hin. congruence. }
    repeat split.
    + set_solver.
    + set_solver.
    + set_solver.
    + intros Hnd. apply NoDup_app. repeat split; [exact Hnd | | apply NoDup_singleton].
      set_solver.
Qed.

Lemma NoDup_List_filter {A} (f : A -> bool) (l : list A) :
  NoDup l -> NoDup (List.filter f l).
Proof.
  induction 1 as [|x l Hx Hl IH]; simpl; [constructor|].
  destruct (f x); [|exact IH]. constructor; [|exact IH].
  intros Hin. apply Hx. apply list_elem_of_In, filter_In in Hin as [Hin _].
  by apply list_elem_of_In.
Qed.

Lemma members_after_left (userId : string) (members : list JVal) :
  let members' := members_after userId "left" members in
  (JStr userId ∉ members')
  /\ (forall other, other <> JStr userId -> (other ∈ members' <-> other ∈ members))
  /\ (NoDup members -> NoDup members').
Proof.
  unfold members_after. simpl. repeat split.
  - intros Hin. apply list_elem_of_In, filter_In in Hin as [_ Hneg].
    apply negb_true_iff in Hneg. assert (is_str userId (JStr userId) = true)
      by (by apply is_str_true). congruence.
  - intros Hin. apply list_elem_of_In, filter_In in Hin as [Hin _].
    by apply list_elem_of_In.
  - intros Hin. apply list_elem_of_In, filter_In. split; [by apply list_elem_of_In|].
    apply negb_true_iff. destruct (is_str userId other) eqn:Hs; [|done].
    by apply is_str_true in Hs.
  - apply NoDup_List_filter.
Qed.

Lemma activity_after_shape (env : Env) (userId action : string) (activity : list JVal) :
  last (activity_after env userId action activity) = Some (activity_entry env userId action)
  /\ length (activity_after env userId action activity)
     = Nat.min 100 (length activity + 1).
Proof.
  unfold activity_after, slice_last. rewrite length_app. simpl length.
  rewrite drop_app_le by lia. split.
  - apply last_snoc.
  - rewrite length_app, length_drop. cbn [length]. lia.
Qed.

(** With the store available and a well-formed (or absent) metadata object
    under the room's key, [updateRoomMetadata] writes the object back, as
    JSON text, with a 24-hour expiry: after a join the user is a member,
    once; after a leave the user is not; the other members stay; the
    activity log ends with the new entry and never holds more than 100
    entries. *)
Theorem room_metadata_update (env : Env) (roomId userId action : string)
    (metadata : JVal) (members activity : list JVal) (w : World) :
  available (cache w) = true ->
  room_metadata env roomId (cache w) = Some metadata ->
  wf_metadata metadata members activity ->
  action = "joined" \/ action = "left" ->
  let w' := exec (updateRoomMetadata env roomId userId action) w in
  exists metadata' members' activity',
    stored (metadata_key roomId) (cache w')
    = Some {| value := JSON_stringify env metadata'; ttl := Some 86400 |}
    /\ wf_metadata metadata' members' activity'
    /\ (JStr userId ∈ members' <-> action = "joined")
    /\ (forall other, other <> JStr userId -> (other ∈ members' <-> other ∈ members))
    /\ (NoDup members -> NoDup members')
    /\ last activity' = Some (activity_entry env userId action)
    /\ length activity' = Nat.min 100 (length activity + 1).
Proof.
  intros Hav Hmeta Hwf Haction w'.
  destruct (updateRoomMetadata_run env roomId userId action metadata members activity
              (String.eqb (metadata_key roomId)) w Hmeta Hwf (String.eqb_refl _))
    as (metadata' & w1 & Hrun & Hwf' & Hc & _).
  exists metadata', (members_after userId action members),
    (activity_after env userId action activity).
  subst w'. unfold exec. rewrite Hrun. simpl snd. rewrite Hc.
  destruct (cache_set_available env (metadata_key roomId) metadata' 86400 (cache w) Hav)
    as (_ & _ & Hkey & _).
  destruct (activity_after_shape env userId action activity) as [Hlast Hlen].
  split.
  { rewrite Hkey. destruct Hwf' as (fields & -> & _). reflexivity. }
  split; [exact Hwf'|].
  destruct Haction as [-> | ->].
  - destruct (members_after_joined userId members) as (Hin & Hother & Hnd).
    repeat split; auto; apply Hother; auto.
  - destruct (members_after_left userId members) as (Hin & Hother & Hnd).
    repeat split; auto; try (apply Hother; auto); try done.
Qed.

Lemma room_metadata_update_witness :
  let w' := exec (updateRoomMetadata env0 "general" "alice" "joined") (initial redis_up) in
  exists metadata' members' activity',
    stored (metadata_key "general") (cache w')
    = Some {| value := JSON_stringify env0 metadata'; ttl := Some 86400 |}
    /\ wf_metadata metadata' members' activity'
    /\ (JStr "alice" ∈ members' <-> "joined" = "joined")
    /\ (forall other, other <> JStr "alice" -> (other ∈ members' <-> other ∈ []))
    /\ (NoDup (@nil JVal) -> NoDup members')
    /\ last activity' = Some (activity_entry env0 "alice" "joined")
    /\ length activity' = Nat.min 100 (length (@nil JVal) + 1).
Proof.
  apply (room_metadata_update env0 "general" "alice" "joined"
           (JObj [("members", JArr []); ("activity", JArr [])]) [] []
           (initial redis_up)).
  - reflexivity.
  - reflexivity.
  - eexists. split; [reflexivity|]. split; reflexivity.
  - by left.
Defined.

(** * Joining and leaving rooms *)

Lemma exec_ret_bind {A B} (a : A) (k : A -> M B) (w : World) :
  exec (mret a ≫= k) w = exec (k a) w.
Proof. reflexivity. Qed.

(** The updates [handleJoinRoom] makes before it touches the store. *)
Definition joined (socket : Socket) (roomId : string) (w : World) : World :=
  with_this (set_rooms (fun rooms =>
    let rooms := if bool_decide (is_Some (rooms !! roomId)) then rooms
                 else <[roomId := ∅]> rooms in
    alter (fun members => members ∪ {[userId socket]}) roomId rooms))
    (with_socketRooms
       <[socket_id socket := set_add roomId (rooms_of (socket_id socket) w)]> w).

Lemma handleJoinRoom_state (env : Env) (socket : Socket) (roomId : string)
    (password : JVal) (w : World) :
  let w' := exec (handleJoinRoom env socket roomId password) w in
  this w' = this (joined socket roomId w)
  /\ socketRooms w' = socketRooms (joined socket roomId w).
Proof.
  unfold handleJoinRoom.
  split.
  - rewrite (try_catch_after same_this _ _ w) by (intros e; unfold logError; frame).
    unfold validateRoomAccess. rewrite exec_ret_bind. cbn [fst negb].
    unfold socket_join. rewrite !exec_modify_bind.
    match goal with |- context [exec ?rest ?w1] =>
      assert (Ht : preserves same_this rest) by (unfold logInfo; frame);
      rewrite (Ht w1)
    end.
    reflexivity.
  - rewrite (try_catch_after same_socketRooms _ _ w)
      by (intros e; unfold logError; frame).
    unfold validateRoomAccess. rewrite exec_ret_bind. cbn [fst negb].
    unfold socket_join. rewrite !exec_modify_bind.
    match goal with |- context [exec ?rest ?w1] =>
      assert (Hs : preserves same_socketRooms rest) by (unfold logInfo; frame);
      rewrite (Hs w1)
    end.
    reflexivity.
Qed.

Lemma set_add_elem (x : string) (l : list string) : x ∈ set_add x l.
Proof. unfold set_add. case_bool_decide; set_solver. Qed.

(** A join is always recorded, whatever the store holds and whether or not
    the handler ends with [join_room_error]: the user is a member of the
    room in the tracker, together with the members the room had, the
    socket is in the room, and no other room and no registry entry has
    changed. *)
Theorem join_records_membership (env : Env) (socket : Socket) (roomId : string)
    (password : JVal) (w : World) :
  let w' := exec (handleJoinRoom env socket roomId password) w in
  rooms (this w') !! roomId
  = Some (default ∅ (rooms (this w) !! roomId) ∪ {[userId socket]})
  /\ (forall other, other <> roomId -> rooms (this w') !! other = rooms (this w) !! other)
  /\ roomId ∈ rooms_of (socket_id socket) w'
  /\ (forall sid, sid <> socket_id socket -> rooms_of sid w' = rooms_of sid w)
  /\ connectedUsers (this w') = connectedUsers (this w)
  /\ connectionStats (this w') = connectionStats (this w).
Proof.
  intros w'. destruct (handleJoinRoom_state env socket roomId password w) as [Ht Hs].
  fold w' in Ht, Hs. unfold rooms_of. rewrite Ht, Hs. simpl.
  repeat split.
  - rewrite lookup_alter_eq. case_bool_decide as Hsome.
    + destruct Hsome as [old Hold]. by rewrite Hold.
    + rewrite lookup_insert_eq. apply eq_None_not_Some in Hsome. rewrite Hsome. simpl.
      reflexivity.
  - intros other Hne. rewrite lookup_alter_ne by done.
    case_bool_decide; [done | by rewrite lookup_insert_ne].
  - rewrite lookup_insert_eq. simpl. apply set_add_elem.
  - intros sid Hne. by rewrite lookup_insert_ne.
Qed.

Definition messages_key (roomId : string) : string := "room:" +:+ roomId +:+ ":messages".

Lemma translation_agree (env : Env) (key : string) (params : JVal) (locale : string)
    (w w' : World) :
  cache_get env (i18n_cache_key env key params locale) (cache w')
  = cache_get env (i18n_cache_key env key params locale) (cache w) ->
  translation env key params locale w' = translation env key params locale w.
Proof. unfold translation, i18n_cache_key. by intros ->. Qed.

Lemma i18n_key_not_room (env : Env) (key : string) (params : JVal) (locale rest : string) :
  i18n_cache_key env key params locale <> "room:" +:+ rest.
Proof. unfold i18n_cache_key. simpl. discriminate. Qed.

Lemma messages_key_not_metadata (roomId : string) :
  messages_key roomId <> metadata_key roomId.
Proof.
  unfold messages_key, metadata_key. intros Heq.
  do 2 apply string_app_inv_head in Heq. discriminate.
Qed.

Lemma i18n_keys_differ (env : Env) (key key' : string) (params params' : JVal)
    (locale : string) :
  (forall s s', key +:+ s <> key' +:+ s') ->
  i18n_cache_key env key params locale <> i18n_cache_key env key' params' locale.
Proof.
  intros Hne Heq. unfold i18n_cache_key in Heq.
  do 3 apply string_app_inv_head in Heq. by apply Hne in Heq.
Qed.

Definition only_key (key : string) : string -> bool := fun k => bool_decide (k = key).

Lemma only_key_eq (key : string) : only_key key key = true.
Proof. unfold only_key. by apply bool_decide_eq_true_2. Qed.

Lemma only_key_ne (key k : string) : k <> key -> only_key key k = false.
Proof. unfold only_key. intros. by apply bool_decide_eq_false_2. Qed.

(** The three events of a join. *)
Definition joined_room (env : Env) (socket : Socket) (roomId : string) (w : World)
  : Effect :=
  socket_emit (socket_id socket) "joined_room"
    (JObj [("roomId", JStr roomId);
           ("message", JPromise (translation env "websocket.joined_room"
                                   (JObj [("roomId", JStr roomId)])
                                   (userLanguage socket) w));
           ("timestamp", JStr (isoNow env))]).

Definition user_joined_room (env : Env) (socket : Socket) (roomId : string) (w : World)
  : Effect :=
  socket_to_emit (socket_id socket) roomId "user_joined_room"
    (JObj [("userId", JStr (userId socket)); ("roomId", JStr roomId);
           ("message", JPromise (translation env "websocket.user_joined"
                                   (JObj [("userId", JStr (userId socket))])
                                   (userLanguage socket) w));
           ("timestamp", JStr (isoNow env))]).

Definition message_history (env : Env) (socket : Socket) (roomId : string)
    (messages : JVal) : Effect :=
  socket_emit (socket_id socket) "message_history"
    (JObj [("roomId", JStr roomId); ("messages", messages);
           ("timestamp", JStr (isoNow env))]).

Lemma sendMessageHistory_run (env : Env) (socket : Socket) (roomId : string)
    (history : list JVal) (w : World) :
  held env (messages_key roomId) (cache w) = Some (JArr history) ->
  exists w1,
    sendMessageHistory env socket roomId w = (Return tt, w1)
    /\ outbox w1
       = outbox w ++ [message_history env socket roomId (JArr (slice_last 20 history))]
    /\ this w1 = this w /\ socketRooms w1 = socketRooms w /\ cache w1 = cache w.
Proof.
  intros Hheld. unfold sendMessageHistory. fold (messages_key roomId).
  destruct (held_run env (messages_key roomId) w _ Hheld)
    as (v0 & w0 & Hget & Hv0 & Ht & Hc & Hs & Ho).
  rewrite (bind_run _ _ _ _ _ Hget). cbv beta. rewrite Hv0. simpl last_20.
  eexists. split; [reflexivity|]. simpl. rewrite Ho, Ht, Hs, Hc. by repeat split.
Qed.

Lemma handleJoinRoom_run (env : Env) (socket : Socket) (roomId : string)
    (password metadata : JVal) (members activity history : list JVal) (w : World) :
  room_metadata env roomId (cache w) = Some metadata ->
  wf_metadata metadata members activity ->
  held env (messages_key roomId) (cache w) = Some (JArr history) ->
  exists w',
    handleJoinRoom env socket roomId password w = (Return tt, w')
    /\ outbox w'
       = outbox w ++ [joined_room env socket roomId w;
                      user_joined_room env socket roomId w;
                      message_history env socket roomId (JArr (slice_last 20 history))]
    /\ cache_get env (messages_key roomId) (cache w')
       = cache_get env (messages_key roomId) (cache w).
Proof.
  intros Hmeta Hwf Hheld. unfold handleJoinRoom, try_catch.
  match goal with |- context [match ?body w with _ => _ end] =>
    cut (exists w', body w = (Return tt, w')
           /\ outbox w'
              = outbox w ++ [joined_room env socket roomId w;
                             user_joined_room env socket roomId w;
                             message_history env socket roomId
                               (JArr (slice_last 20 history))]
           /\ cache_get env (messages_key roomId) (cache w')
              = cache_get env (messages_key roomId) (cache w))
  end.
  { intros (w' & -> & Hrest). by exists w'. }
  unfold validateRoomAccess.
  rewrite (bind_run _ _ w w (true, JNull) eq_refl). cbn [fst snd negb].
  unfold socket_join. rewrite !modify_bind_run.
  fold (joined socket roomId w).
  set (w2 := joined socket roomId w).
  assert (Hc2 : cache w2 = cache w) by reflexivity.
  assert (Ho2 : outbox w2 = outbox w) by reflexivity.
  set (k1 := i18n_cache_key env "websocket.joined_room" (JObj [("roomId", JStr roomId)])
               (userLanguage socket)).
  set (k2 := i18n_cache_key env "websocket.user_joined"
               (JObj [("userId", JStr (userId socket))]) (userLanguage socket)).
  assert (Hk1m : k1 <> metadata_key roomId) by apply i18n_key_not_room.
  assert (Hk2m : k2 <> metadata_key roomId) by apply i18n_key_not_room.
  assert (Hk21 : k2 <> k1).
  { apply i18n_keys_differ. intros s s'. simpl. discriminate. }
  assert (Hmm : messages_key roomId <> metadata_key roomId)
    by apply messages_key_not_metadata.
  assert (Hmk1 : messages_key roomId <> k1)
    by (intros Heq; symmetry in Heq; revert Heq; apply i18n_key_not_room).
  assert (Hmk2 : messages_key roomId <> k2)
    by (intros Heq; symmetry in Heq; revert Heq; apply i18n_key_not_room).
  (* the metadata *)
  destruct (updateRoomMetadata_run env roomId (userId socket) "joined" metadata members
              activity (only_key (metadata_key roomId)) w2)
    as (metadata' & w3 & Hupd & _ & _ & Hq3).
  { by rewrite Hc2. }
  { exact Hwf. }
  { apply only_key_eq. }
  rewrite (bind_run _ _ _ _ _ Hupd). cbv beta.
  (* the confirmation *)
  destruct (translate_key_run env "websocket.joined_room" (JObj [("roomId", JStr roomId)])
              (userLanguage socket) (only_key k1) w3 (only_key_eq k1))
    as (w4 & Htr1 & Hq4).
  rewrite (bind_run _ _ _ _ _ Htr1). cbv beta.
  assert (Ht1 : translation env "websocket.joined_room" (JObj [("roomId", JStr roomId)])
                  (userLanguage socket) w3
                = translation env "websocket.joined_room" (JObj [("roomId", JStr roomId)])
                    (userLanguage socket) w).
  { apply translation_agree. fold k1.
    rewrite (quiet_held _ env k1 _ _ Hq3) by (by apply only_key_ne). by rewrite Hc2. }
  rewrite Ht1. unfold emit. rewrite modify_bind_run.
  fold (joined_room env socket roomId w).
  set (w5 := push_outbox _ w4).
  (* the notification *)
  destruct (translate_key_run env "websocket.user_joined"
              (JObj [("userId", JStr (userId socket))])
              (userLanguage socket) (only_key k2) w5 (only_key_eq k2))
    as (w6 & Htr2 & Hq6).
  rewrite (bind_run _ _ _ _ _ Htr2). cbv beta.
  assert (Ht2 : translation env "websocket.user_joined"
                  (JObj [("userId", JStr (userId socket))]) (userLanguage socket) w5
                = translation env "websocket.user_joined"
                    (JObj [("userId", JStr (userId socket))]) (userLanguage socket) w).
  { apply translation_agree. fold k2. change (cache w5) with (cache w4).
    rewrite (quiet_held _ env k2 _ _ Hq4) by (by apply only_key_ne).
    rewrite (quiet_held _ env k2 _ _ Hq3) by (by apply only_key_ne). by rewrite Hc2. }
  rewrite Ht2. rewrite modify_bind_run.
  fold (user_joined_room env socket roomId w).
  set (w7 := push_outbox _ w6).
  (* the history *)
  assert (Hm7 : cache_get env (messages_key roomId) (cache w7)
                = cache_get env (messages_key roomId) (cache w)).
  { change (cache w7) with (cache w6).
    rewrite (quiet_held _ env (messages_key roomId) _ _ Hq6) by (by apply only_key_ne).
    change (cache w5) with (cache w4).
    rewrite (quiet_held _ env (messages_key roomId) _ _ Hq4) by (by apply only_key_ne).
    rewrite (quiet_held _ env (messages_key roomId) _ _ Hq3) by (by apply only_key_ne).
    by rewrite Hc2. }
  destruct (sendMessageHistory_run env socket roomId history w7)
    as (w8 & Hhist & Ho8 & _ & _ & Hc8).
  { unfold held. by rewrite Hm7. }
  rewrite (bind_run _ _ _ _ _ Hhist).
  eexists. split; [reflexivity|]. simpl. rewrite Ho8, Hc8. split; [|exact Hm7].
  destruct Hq3 as (_ & _ & Ho3 & _). destruct Hq4 as (_ & _ & Ho4 & _).
  destruct Hq6 as (_ & _ & Ho6 & _).
  subst w7 w5. simpl. rewrite Ho6. simpl. rewrite Ho4, Ho3, Ho2.
  by rewrite <- !app_assoc.
Qed.

(** When the store answers the two reads of a join (so Redis is ready),
    the room's metadata in it is absent or well formed and the room's
    history is absent or an array, a join sends exactly three events:
    [joined_room] to the socket, [user_joined_room] to the rest of the
    room, and [message_history] to the socket with the last 20 stored
    messages. *)
Theorem join_sends (env : Env) (socket : Socket) (roomId : string)
    (password metadata : JVal) (members activity history : list JVal) (w : World) :
  room_metadata env roomId (cache w) = Some metadata ->
  wf_metadata metadata members activity ->
  held env (messages_key roomId) (cache w) = Some (JArr history) ->
  sent (handleJoinRoom env socket roomId password) w
  = [joined_room env socket roomId w;
     user_joined_room env socket roomId w;
     message_history env socket roomId (JArr (slice_last 20 history))].
Proof.
  intros Hmeta Hwf Hheld.
  destruct (handleJoinRoom_run env socket roomId password metadata members activity
              history w Hmeta Hwf Hheld) as (w' & Hrun & Ho & _).
  unfold sent, exec. rewrite Hrun. simpl. rewrite Ho. by rewrite drop_app_length.
Qed.

(** A lobby with one member and one stored message, and a second user
    connected. *)
Definition lobby : World :=
  run [(env0, connection alice1); (env0, join_room alice1 "lobby" JNull);
       (env0, send_message alice1 "lobby" (JStr "hello") None None);
       (env0, connection bob1)] (initial redis_up).

Lemma join_sends_witness :
  sent (handleJoinRoom env0 bob1 "lobby" JNull) lobby
  = [joined_room env0 bob1 "lobby" lobby;
     user_joined_room env0 bob1 "lobby" lobby;
     message_history env0 bob1 "lobby"
       (JArr (slice_last 20 [roomMessage env0 alice1 "lobby" "hello" None None]))].
Proof.
  apply (join_sends env0 bob1 "lobby" JNull
           (JObj [("members", JArr [JStr "alice"]);
                  ("activity", JArr [activity_entry env0 "alice" "joined"])])
           [JStr "alice"] [activity_entry env0 "alice" "joined"]).
  - vm_compute. reflexivity.
  - eexists. split; [reflexivity|]. split; reflexivity.
  - vm_compute. reflexivity.
Defined.

(** The metadata update of a join cannot succeed: reading the metadata
    raises (Redis is not ready), or what is read has a [members] field
    without an [includes] method, one that is no array and no string. *)
Definition members_unusable (env : Env) (roomId : string) (c : CacheManager) : Prop :=
  match room_metadata env roomId c with
  | Some metadata =>
      let members := get_field "members" metadata in
      (forall l, members <> JArr l) /\ (forall s, members <> JStr s)
  | None => True
  end.

Lemma update_members_joined_throws (userId : string) (metadata : JVal) (w : World) :
  (forall l, get_field "members" metadata <> JArr l) ->
  (forall s, get_field "members" metadata <> JStr s) ->
  exists e, update_members userId "joined" metadata w = (Throw e, w).
Proof.
  intros Harr Hstr. unfold update_members. simpl.
  destruct (get_field "members" metadata) as [| | | s | l | |]; try (by eexists).
  - by destruct (Hstr s).
  - by destruct (Harr l).
Qed.

(** A join whose metadata update fails, on unusable metadata or because
    Redis is not ready, is reported to the socket as [join_room_error] and
    nothing else is sent, yet the socket has joined the room and the user
    is recorded as a member of it. *)
Theorem join_failure_keeps_membership (env : Env) (socket : Socket) (roomId : string)
    (password : JVal) (w : World) :
  members_unusable env roomId (cache w) ->
  let w' := exec (handleJoinRoom env socket roomId password) w in
  sent (handleJoinRoom env socket roomId password) w
  = [socket_emit (socket_id socket) "join_room_error"
       (JObj [("error", JStr "Failed to join room"); ("roomId", JStr roomId)])]
  /\ (exists members, rooms (this w') !! roomId = Some members /\ userId socket ∈ members)
  /\ roomId ∈ rooms_of (socket_id socket) w'
  /\ cache w' = cache w.
Proof.
  intros Hbad w'.
  destruct (handleJoinRoom_state env socket roomId password w) as [Ht Hs].
  fold w' in Ht, Hs.
  assert (Hrun : exists w1,
             handleJoinRoom env socket roomId password w = (Return tt, w1)
             /\ outbox w1
                = outbox w ++ [socket_emit (socket_id socket) "join_room_error"
                                 (JObj [("error", JStr "Failed to join room");
                                        ("roomId", JStr roomId)])]
             /\ cache w1 = cache w).
  { unfold handleJoinRoom, try_catch, validateRoomAccess.
    rewrite (bind_run _ _ w w (true, JNull) eq_refl). cbn [fst snd negb].
    unfold socket_join. rewrite !modify_bind_run. fold (joined socket roomId w).
    set (w2 := joined socket roomId w).
    assert (Hthrow : exists e w3,
               updateRoomMetadata env roomId (userId socket) "joined" w2 = (Throw e, w3)
               /\ outbox w3 = outbox w /\ cache w3 = cache w).
    { unfold updateRoomMetadata. fold (metadata_key roomId).
      unfold members_unusable, room_metadata in Hbad.
      change (cache w) with (cache w2) in Hbad.
      destruct (cache_get env (metadata_key roomId) (cache w2)) as [v0|e0] eqn:Hv0.
      - destruct Hbad as [Harr Hstr].
        destruct (cacheGet_run env (metadata_key roomId) w2 v0 Hv0)
          as (w3 & Hget & _ & Hc & _ & Ho).
        rewrite (bind_run _ _ _ _ _ Hget). cbv beta zeta.
        destruct (update_members_joined_throws (userId socket) _ w3 Harr Hstr) as [e He].
        exists e, w3. split; [|by split]. by apply bind_throw.
      - assert (Hnr : isReady (cache w2) = false).
        { destruct (isReady (cache w2)) eqn:Hr; [|reflexivity].
          destruct (cache_get_ready env (metadata_key roomId) _ Hr) as [v Hv].
          congruence. }
        exists logWarning_raises, w2. split; [|by split].
        apply bind_throw. by apply cacheGet_not_ready. }
    destruct Hthrow as (e & w3 & Hthrow & Ho & Hc).
    rewrite (bind_throw _ _ _ _ _ Hthrow).
    eexists. split; [reflexivity|]. simpl. by rewrite Ho, Hc. }
  destruct Hrun as (w1 & Hrun & Ho & Hc).
  assert (Hw' : w' = w1) by (unfold w', exec; by rewrite Hrun).
  split; [|split; [|split]].
  - unfold sent. fold w'. rewrite Hw', Ho. by rewrite drop_app_length.
  - rewrite Ht. simpl. rewrite lookup_alter_eq. case_bool_decide as Hsome.
    + destruct Hsome as [old Hold]. rewrite Hold. simpl. eexists. split; [reflexivity|].
      set_solver.
    + rewrite lookup_insert_eq. simpl. eexists. split; [reflexivity|]. set_solver.
  - unfold rooms_of. rewrite Hs. simpl. rewrite lookup_insert_eq. simpl.
    apply set_add_elem.
  - by rewrite Hw'.
Qed.

(** A store in which another writer left an object without members under
    the metadata key of the lobby. *)
Definition foreign_metadata : World :=
  with_cache (after_set env0 (metadata_key "lobby") (JObj [("topic", JStr "news")]) 0
                redis_up)
    (run [(env0, connection alice1)] (initial redis_up)).

Lemma join_failure_keeps_membership_witness :
  let w' := exec (handleJoinRoom env0 alice1 "lobby" JNull) foreign_metadata in
  sent (handleJoinRoom env0 alice1 "lobby" JNull) foreign_metadata
  = [socket_emit "s1" "join_room_error"
       (JObj [("error", JStr "Failed to join room"); ("roomId", JStr "lobby")])]
  /\ (exists members, rooms (this w') !! "lobby" = Some members /\ "alice" ∈ members)
  /\ "lobby" ∈ rooms_of "s1" w'
  /\ cache w' = cache foreign_metadata.
Proof.
  apply (join_failure_keeps_membership env0 alice1 "lobby" JNull foreign_metadata).
  vm_compute. split; intros; discriminate.
Defined.

Lemma handleLeaveRoom_socketRooms (env : Env) (socket : Socket) (roomId : string)
    (w : World) :
  socketRooms (exec (handleLeaveRoom env socket roomId) w)
  = <[socket_id socket := set_remove roomId (rooms_of (socket_id socket) w)]>
      (socketRooms w).
Proof.
  unfold handleLeaveRoom.
  rewrite (try_catch_after same_socketRooms _ _ w) by (intros e; unfold logError; frame).
  unfold socket_leave. rewrite !exec_modify_bind.
  match goal with |- context [exec ?rest ?w1] =>
    assert (Hs : preserves same_socketRooms rest) by (unfold logInfo; frame);
    rewrite (Hs w1)
  end.
  reflexivity.
Qed.

Lemma set_remove_not_elem (x : string) (l : list string) : x ∉ set_remove x l.
Proof. unfold set_remove. rewrite list_elem_of_filter. tauto. Qed.

(** A leave takes the socket out of the room and the user out of the
    room's member set, whether or not the store can be updated and
    whatever other sockets of the same user are still in the room.  The
    other users of the room, the other rooms and the room lists of the
    other sockets are as before. *)
Theorem leave_removes_user (env : Env) (socket : Socket) (roomId : string) (w : World) :
  let w' := exec (handleLeaveRoom env socket roomId) w in
  (roomId ∉ rooms_of (socket_id socket) w')
  /\ (forall sid, sid <> socket_id socket -> rooms_of sid w' = rooms_of sid w)
  /\ (userId socket ∉ default ∅ (rooms (this w') !! roomId))
  /\ (forall user, user <> userId socket ->
        (user ∈ default ∅ (rooms (this w') !! roomId)
         <-> user ∈ default ∅ (rooms (this w) !! roomId)))
  /\ (forall other, other <> roomId ->
        rooms (this w') !! other = rooms (this w) !! other).
Proof.
  intros w'. subst w'. unfold rooms_of.
  rewrite handleLeaveRoom_socketRooms, handleLeaveRoom_this.
  split; [|split].
  - rewrite lookup_insert_eq. simpl. apply set_remove_not_elem.
  - intros sid Hne. by rewrite lookup_insert_ne.
  - destruct (rooms (this w) !! roomId) as [members|] eqn:Hroom.
    + case_bool_decide as Hsize; simpl.
      * rewrite lookup_delete_eq. simpl.
        apply size_empty_iff in Hsize. apply leibniz_equiv in Hsize.
        split; [set_solver|]. split; [|intros other Hne; by rewrite lookup_delete_ne].
        intros user Hne. set_solver.
      * rewrite lookup_insert_eq. simpl.
        split; [set_solver|]. split; [|intros other Hne; by rewrite lookup_insert_ne].
        intros user Hne. set_solver.
    + rewrite Hroom. simpl. split; [set_solver|]. split; [tauto | done].
Qed.

(** Two sockets of one user in a room: when one of them leaves, the other
    is still in the room but the user is no longer tracked as a member. *)
Example leave_with_second_socket :
  let w := run [(env0, connection alice1); (env0, connection alice2);
                (env0, join_room alice1 "general" JNull);
                (env0, join_room alice2 "general" JNull);
                (env0, leave_room alice1 "general")] (initial redis_up) in
  is_open "s2" w = true /\ "general" ∈ rooms_of "s2" w
  /\ rooms (this w) !! "general" = None.
Proof. vm_compute. repeat split. apply list_elem_of_In. simpl. tauto. Qed.

(** * Room messages and their history *)

Lemma last_drop {A} (k : nat) (l : list A) :
  (k < length l)%nat -> last (drop k l) = last l.
Proof.
  revert k. induction l as [|x l IH]; intros k Hk; [simpl in Hk; lia|].
  destruct k as [|k]; [reflexivity|]. simpl drop. simpl in Hk.
  rewrite IH by lia. destruct l; [simpl in Hk; lia | reflexivity].
Qed.

Lemma last_slice_last {A} (n : nat) (l : list A) :
  (0 < n)%nat -> last (slice_last n l) = last l.
Proof.
  intros Hn. unfold slice_last. destruct l as [|x l]; [reflexivity|].
  apply last_drop. simpl. lia.
Qed.

Lemma last_append_bounded (capacity : nat) (l : list JVal) (x : JVal) :
  (0 < capacity)%nat -> last (append_bounded capacity l x) = Some x.
Proof.
  intros Hc. unfold append_bounded, shift.
  destruct (Nat.ltb_spec capacity (length (l ++ [x]))) as [Hlt|Hge].
  - change (tail (l ++ [x])) with (drop 1 (l ++ [x])).
    rewrite last_drop by lia. apply last_snoc.
  - apply last_snoc.
Qed.

Lemma held_after_set (env env' : Env) (key : string) (l : list JVal) (seconds : Z)
    (c : CacheManager) :
  available c = true ->
  JSON_parse env' (JSON_stringify env (JArr l)) = Some (JArr l) ->
  held env' key (after_set env key (JArr l) seconds c) = Some (JArr l).
Proof.
  intros Hav Hparse. destruct (cache_set_available env key (JArr l) seconds c Hav)
    as (_ & Hav' & Hkey & _).
  unfold held. rewrite cache_get_available by exact Hav'. rewrite Hkey.
  unfold parsed, serialized. simpl. by rewrite Hparse.
Qed.

(** An accepted room message can be read back: with the store available
    and the JSON text of the new history parsing back to that history, the
    history that [sendMessageHistory] sends right after the message was
    handled ends with that message, and the messages counter has grown by
    one. *)
Theorem sent_message_reaches_history (env env' : Env) (socket reader : Socket)
    (roomId s : string) (messageType metadata : option JVal) (history : list JVal)
    (w : World) :
  available (cache w) = true ->
  whitespace_only s = false ->
  roomId ∈ rooms_of (socket_id socket) w ->
  held env (messages_key roomId) (cache w) = Some (JArr history) ->
  let messageObj := roomMessage env socket roomId s messageType metadata in
  JSON_parse env' (JSON_stringify env (JArr (append_bounded 50 history messageObj)))
  = Some (JArr (append_bounded 50 history messageObj)) ->
  let w' := exec (handleSendMessage env socket roomId (JStr s) messageType metadata) w in
  let recent := slice_last 20 (append_bounded 50 history messageObj) in
  sent (sendMessageHistory env' reader roomId) w'
  = [message_history env' reader roomId (JArr recent)]
  /\ last recent = Some messageObj
  /\ messagesCount (connectionStats (this w'))
     = messagesCount (connectionStats (this w)) + 1.
Proof.
  intros Hav Hws Hin Hheld messageObj Hparse w' recent.
  destruct (storeMessage_run env messageObj history w Hheld)
    as (w1 & Hstore & Hc1 & Honly).
  destruct (handleSendMessage_accepted_run env socket roomId s messageType metadata
              w w1 Hws Hin Hstore Honly) as (w2 & Hrun & _ & Hc2 & _ & Hcount).
  assert (Hw' : w' = w2) by (unfold w', exec; by rewrite Hrun).
  rewrite Hw'. split; [|split; [|exact Hcount]].
  - destruct (sendMessageHistory_run env' reader roomId
                (append_bounded 50 history messageObj) w2) as (w3 & Hhist & Ho & _).
    { rewrite Hc2, Hc1. by apply held_after_set. }
    unfold sent, exec. rewrite Hhist. simpl. rewrite Ho. by rewrite drop_app_length.
  - unfold recent. rewrite last_slice_last by lia. apply last_append_bounded. lia.
Qed.

Lemma sent_message_reaches_history_witness :
  let messageObj := roomMessage env0 bob1 "lobby" "hi there" None None in
  let w' := exec (handleSendMessage env0 bob1 "lobby" (JStr "hi there") None None)
              (exec (handleJoinRoom env0 bob1 "lobby" JNull) lobby) in
  let recent :=
    slice_last 20
      (append_bounded 50 [roomMessage env0 alice1 "lobby" "hello" None None] messageObj) in
  sent (sendMessageHistory env0 alice1 "lobby") w'
  = [message_history env0 alice1 "lobby" (JArr recent)]
  /\ last recent = Some messageObj
  /\ messagesCount (connectionStats (this w'))
     = messagesCount
         (connectionStats (this (exec (handleJoinRoom env0 bob1 "lobby" JNull) lobby))) + 1.
Proof.
  apply (sent_message_reaches_history env0 env0 bob1 alice1 "lobby" "hi there" None None
           [roomMessage env0 alice1 "lobby" "hello" None None]
           (exec (handleJoinRoom env0 bob1 "lobby" JNull) lobby)).
  - vm_compute. reflexivity.
  - vm_compute. reflexivity.
  - vm_compute. apply list_elem_of_In. simpl. tauto.
  - vm_compute. reflexivity.
  - vm_compute. reflexivity.
Defined.

(** A Redis that is connected while each of its commands fails. *)
Definition redis_failing : CacheManager :=
  {| client := Some {| keyspace := ∅; commandsFail := true |}; isConnected := true |}.

(** While Redis is connected but its commands fail, the store steps aside:
    [get] answers [null] and [set] answers [false], having logged the
    error; [storeMessage] returns, [sendMessageHistory] sends an empty
    history, and a room message that passed validation is broadcast to the
    room and acknowledged to its sender.  The cache is as before. *)
Theorem failing_commands_do_not_block_delivery (env : Env) (socket : Socket)
    (roomId s : string) (messageType metadata : option JVal) (w : World) :
  isReady (cache w) = true ->
  available (cache w) = false ->
  whitespace_only s = false ->
  roomId ∈ rooms_of (socket_id socket) w ->
  let messageObj := roomMessage env socket roomId s messageType metadata in
  let handler := handleSendMessage env socket roomId (JStr s) messageType metadata in
  (forall key, cache_get env key (cache w) = Return JNull)
  /\ (forall key v seconds, cache_set env key v seconds (cache w) = Return (cache w, false))
  /\ fst (storeMessage env messageObj w) = Return tt
  /\ sent (sendMessageHistory env socket roomId) w
     = [message_history env socket roomId (JArr [])]
  /\ sent handler w
     = [io_to_emit roomId "new_message" messageObj;
        socket_emit (socket_id socket) "message_sent"
          (JObj [("messageId", JStr (generateMessageId env));
                 ("timestamp", JStr (isoNow env))])]
  /\ messagesCount (connectionStats (this (exec handler w)))
     = messagesCount (connectionStats (this w)) + 1
  /\ cache (exec handler w) = cache w.
Proof.
  intros Hready Hun Hws Hin messageObj handler.
  assert (Hget : forall key, cache_get env key (cache w) = Return JNull)
    by (intros; by apply cache_get_failing).
  assert (Hset : forall key v seconds,
             cache_set env key v seconds (cache w) = Return (cache w, false))
    by (intros; by apply cache_set_failing).
  assert (Hheld : forall key, held env key (cache w) = Some (JArr []))
    by (intros key; unfold held; by rewrite Hget).
  destruct (storeMessage_run env messageObj [] w (Hheld _))
    as (w1 & Hstore & Hc1 & Honly).
  destruct (handleSendMessage_accepted_run env socket roomId s messageType metadata
              w w1 Hws Hin Hstore Honly) as (w2 & Hrun & Ho2 & Hc2 & _ & Hcount).
  destruct (sendMessageHistory_run env socket roomId [] w (Hheld _))
    as (w3 & Hhist & Ho3 & _).
  split; [exact Hget|]. split; [exact Hset|].
  split; [by rewrite Hstore|].
  split; [unfold sent, exec; rewrite Hhist; simpl; rewrite Ho3;
          by rewrite drop_app_length|].
  unfold sent, exec. fold handler in Hrun. rewrite Hrun. simpl.
  split; [by rewrite Ho2, drop_app_length|].
  split; [exact Hcount|].
  rewrite Hc2, Hc1. unfold after_set. by rewrite Hset.
Qed.

Lemma failing_commands_do_not_block_delivery_witness :
  let w := run [(env0, connection alice1); (env0, join_room alice1 "general" JNull)]
             (initial redis_failing) in
  let messageObj := roomMessage env0 alice1 "general" "hello" None None in
  let handler := handleSendMessage env0 alice1 "general" (JStr "hello") None None in
  (forall key, cache_get env0 key (cache w) = Return JNull)
  /\ (forall key v seconds,
        cache_set env0 key v seconds (cache w) = Return (cache w, false))
  /\ fst (storeMessage env0 messageObj w) = Return tt
  /\ sent (sendMessageHistory env0 alice1 "general") w
     = [message_history env0 alice1 "general" (JArr [])]
  /\ sent handler w
     = [io_to_emit "general" "new_message" messageObj;
        socket_emit "s1" "message_sent"
          (JObj [("messageId", JStr (generateMessageId env0));
                 ("timestamp", JStr (isoNow env0))])]
  /\ messagesCount (connectionStats (this (exec handler w)))
     = messagesCount (connectionStats (this w)) + 1
  /\ cache (exec handler w) = cache w.
Proof.
  apply (failing_commands_do_not_block_delivery env0 alice1 "general" "hello" None None
           (run [(env0, connection alice1); (env0, join_room alice1 "general" JNull)]
              (initial redis_failing))).
  - vm_compute. reflexivity.
  - vm_compute. reflexivity.
  - reflexivity.
  - refine (proj1 (bool_decide_eq_true _) _). vm_compute. reflexivity.
Defined.

Lemma call_trim_throws (message : JVal) (w : World) :
  (forall s, message <> JStr s) ->
  call_trim message w = (Throw "TypeError: message.trim is not a function", w).
Proof. intros Hns. destruct message; try reflexivity. by destruct (Hns s). Qed.

(** A room message whose body is truthy but not a string makes the handler
    fail on [message.trim()]: the sender gets one [message_error] with the
    [websocket.message_failed] text, nothing is broadcast, and the
    coordinator, the sockets and the room histories are as before. *)
Theorem malformed_room_message (env : Env) (socket : Socket) (roomId : string)
    (message : JVal) (messageType metadata : option JVal) (w : World) :
  falsy message = false ->
  (forall s, message <> JStr s) ->
  let handler := handleSendMessage env socket roomId message messageType metadata in
  let w' := exec handler w in
  sent handler w
  = [socket_emit (socket_id socket) "message_error"
       (JObj [("error", JPromise (translation env "websocket.message_failed" (JObj [])
                                    (userLanguage socket) w))])]
  /\ this w' = this w
  /\ socketRooms w' = socketRooms w
  /\ (forall room, stored (messages_key room) (cache w') = stored (messages_key room) (cache w)).
Proof.
  intros Htruthy Hns handler w'.
  destruct (message_error_run env socket "websocket.message_failed"
              (push_log "error" "Failed to send message" w))
    as (w1 & Hrun & Ht & Hs & Ho & Hc).
  assert (Heq : handler w
                = message_error env socket "websocket.message_failed"
                    (push_log "error" "Failed to send message" w)).
  { unfold handler, handleSendMessage, try_catch.
    assert (Hbody : is_empty_message message w
                    = (Throw "TypeError: message.trim is not a function", w)).
    { unfold is_empty_message. rewrite Htruthy.
      apply bind_throw. by apply call_trim_throws. }
    rewrite (bind_throw _ _ _ _ _ Hbody). reflexivity. }
  rewrite Hrun in Heq.
  split; [|split; [|split]].
  - eapply sent_push_outbox; [exact Heq | exact Ho].
  - unfold w', exec. rewrite Heq. simpl. exact Ht.
  - unfold w', exec. rewrite Heq. simpl. exact Hs.
  - intros room. unfold w', exec. rewrite Heq. simpl.
    rewrite Hc; [reflexivity|]. reflexivity.
Qed.

Lemma malformed_room_message_witness :
  let handler := handleSendMessage env0 alice1 "lobby" (JNum 7) None None in
  let w' := exec handler lobby in
  sent handler lobby
  = [socket_emit "s1" "message_error"
       (JObj [("error", JPromise (translation env0 "websocket.message_failed" (JObj [])
                                    "en" lobby))])]
  /\ this w' = this lobby
  /\ socketRooms w' = socketRooms lobby
  /\ (forall room, stored (messages_key room) (cache w')
                   = stored (messages_key room) (cache lobby)).
Proof.
  apply (malformed_room_message env0 alice1 "lobby" (JNum 7) None None lobby).
  - reflexivity.
  - intros s. discriminate.
Defined.

(** A private message whose body is not a string, sent to a user who is
    online, is dropped without a word: nothing is sent to either side, the
    failure is only logged, and the coordinator, the sockets and the store
    are as before. *)
Theorem malformed_private_message (env : Env) (socket targetSocket : Socket)
    (targetUserId : string) (message : JVal) (messageType : option JVal) (w : World) :
  resolve targetUserId w = Some targetSocket ->
  (forall s, message <> JStr s) ->
  let handler := handlePrivateMessage env socket targetUserId message messageType in
  let w' := exec handler w in
  sent handler w = []
  /\ this w' = this w /\ socketRooms w' = socketRooms w /\ cache w' = cache w
  /\ logs w' = logs w ++ [("error", "Failed to send private message")].
Proof.
  intros Hon Hns handler w'.
  assert (Heq : handler w
                = (Return tt, push_log "error" "Failed to send private message" w)).
  { unfold handler, handlePrivateMessage, try_catch.
    rewrite gets_bind_run. unfold resolve in Hon. rewrite Hon.
    rewrite (bind_throw _ _ _ _ _ (call_trim_throws message w Hns)). reflexivity. }
  unfold sent, w', exec. rewrite Heq. simpl. by rewrite drop_all.
Qed.

Lemma malformed_private_message_witness :
  let handler := handlePrivateMessage env0 bob1 "alice" JNull None in
  let w' := exec handler lobby in
  sent handler lobby = []
  /\ this w' = this lobby /\ socketRooms w' = socketRooms lobby
  /\ cache w' = cache lobby
  /\ logs w' = logs lobby ++ [("error", "Failed to send private message")].
Proof.
  apply (malformed_private_message env0 bob1 alice1 "alice" JNull None lobby).
  - vm_compute. reflexivity.
  - intros s. discriminate.
Defined.

(** * Notifications *)

(** The event and the queue entry made from a notification:
    [{ ...notification, timestamp }]. *)
Definition stamped (env : Env) (notification : list (string * JVal)) : JVal :=
  JObj (field_assign "timestamp" (JStr (isoNow env)) notification).

(** [sendNotificationToUser] never throws and answers [true] exactly when
    the user has a socket in the registry.  Then the notification goes to
    that socket, with a timestamp, and the store is not written; otherwise
    nothing is sent.  The coordinator and the sockets are as before in both
    cases. *)
Theorem notification_delivery (env : Env) (userId : string)
    (notification : list (string * JVal)) (w : World) :
  let handler := sendNotificationToUser env userId notification in
  exists w',
    handler w = (Return (bool_decide (is_Some (resolve userId w))), w')
    /\ sent handler w
       = match resolve userId w with
         | Some socket => [socket_emit (socket_id socket) "notification"
                             (stamped env notification)]
         | None => []
         end
    /\ this w' = this w /\ socketRooms w' = socketRooms w
    /\ (is_Some (resolve userId w) -> cache w' = cache w).
Proof.
  intros handler. unfold handler, sent, exec, sendNotificationToUser, try_catch, resolve.
  rewrite gets_bind_run.
  destruct (connectedUsers (this w) !! userId) as [socket|] eqn:Hon.
  - eexists. split; [reflexivity|]. simpl. rewrite drop_app_length. by repeat split.
  - assert (Ht : preserves same_this (storeOfflineNotification env userId notification))
      by frame.
    assert (Hs : preserves same_socketRooms
                   (storeOfflineNotification env userId notification)) by frame.
    assert (Ho : preserves same_outbox
                   (storeOfflineNotification env userId notification)) by frame.
    specialize (Ht w). specialize (Hs w). specialize (Ho w). unfold exec in *.
    unfold same_this, same_socketRooms, same_outbox in *.
    destruct (storeOfflineNotification env userId notification w) as [[[]|e] w1] eqn:Hst;
      [rewrite (bind_run _ _ _ _ _ Hst) | rewrite (bind_throw _ _ _ _ _ Hst)];
      simpl in *; eexists; (split; [reflexivity|]); simpl; rewrite Ho, drop_all;
      repeat split; try assumption; by intros [? ?].
Qed.

Lemma storeOfflineNotification_run (env : Env) (userId : string)
    (notification : list (string * JVal)) (kept : list JVal) (w : World) :
  held env ("offline_notifications:" +:+ userId) (cache w) = Some (JArr kept) ->
  exists w1,
    storeOfflineNotification env userId notification w = (Return tt, w1)
    /\ cache w1
       = after_set env ("offline_notifications:" +:+ userId)
           (JArr (append_bounded 50 kept (stamped env notification))) (86400 * 3)
           (cache w)
    /\ only_cache w w1.
Proof.
  intros Hheld. unfold storeOfflineNotification.
  set (key := "offline_notifications:" +:+ userId) in *.
  pose proof (held_ready _ _ _ _ Hheld) as Hready.
  destruct (held_run env key w _ Hheld) as (v0 & w0 & Hget & Hv0 & Ht0 & Hc0 & Hs0 & Ho0).
  rewrite (bind_run _ _ _ _ _ Hget). cbv beta. rewrite Hv0. simpl as_array.
  unfold mbind at 1. unfold M_bind, mret, M_ret.
  fold (stamped env notification).
  fold (append_bounded 50 kept (stamped env notification)).
  destruct (cacheSet_run env key (JArr (append_bounded 50 kept (stamped env notification)))
              (86400 * 3) w0) as (ok & w1 & Hset & _ & Hc1 & Ht1 & Hs1 & Ho1);
    [by rewrite Hc0|].
  rewrite (bind_run _ _ _ _ _ Hset).
  exists w1. split; [reflexivity|]. split; [by rewrite Hc1, Hc0|].
  repeat split; congruence.
Qed.

(** A notification for a user without a socket in the registry is put at
    the end of the user's offline queue, which keeps at most the 50 newest
    entries, as JSON text, for three days; the other keys of the store are
    not written. *)
Theorem offline_notification_queued (env : Env) (userId : string)
    (notification : list (string * JVal)) (kept : list JVal) (w : World) :
  resolve userId w = None ->
  available (cache w) = true ->
  held env ("offline_notifications:" +:+ userId) (cache w) = Some (JArr kept) ->
  (length kept <= 50)%nat ->
  let w' := exec (sendNotificationToUser env userId notification) w in
  let queue := slice_last 50 (kept ++ [stamped env notification]) in
  stored ("offline_notifications:" +:+ userId) (cache w')
  = Some {| value := JSON_stringify env (JArr queue); ttl := Some 259200 |}
  /\ last queue = Some (stamped env notification)
  /\ (length queue <= 50)%nat
  /\ (forall key, key <> "offline_notifications:" +:+ userId ->
        stored key (cache w') = stored key (cache w)).
Proof.
  intros Hoff Hav Hheld Hlen w' queue.
  destruct (storeOfflineNotification_run env userId notification kept w Hheld)
    as (w1 & Hrun & Hc & _).
  assert (Hw' : cache w' = cache w1).
  { unfold w', exec, sendNotificationToUser, try_catch. rewrite gets_bind_run.
    unfold resolve in Hoff. rewrite Hoff. by rewrite (bind_run _ _ _ _ _ Hrun). }
  rewrite Hw', Hc. rewrite append_bounded_slice by exact Hlen. fold queue.
  destruct (cache_set_available env ("offline_notifications:" +:+ userId) (JArr queue)
              (86400 * 3) (cache w) Hav) as (_ & _ & Hkey & Hother).
  split; [exact Hkey|]. split; [|split; [|exact Hother]].
  - unfold queue. rewrite last_slice_last by lia. apply last_snoc.
  - unfold queue, slice_last. rewrite length_drop. lia.
Qed.

Lemma offline_notification_queued_witness :
  let w := run [(env0, notification "bob" [("type", JStr "welcome")])] lobby in
  let w' := exec (sendNotificationToUser env0 "carol" [("type", JStr "invite")]) w in
  let queue := slice_last 50 ([] ++ [stamped env0 [("type", JStr "invite")]]) in
  stored "offline_notifications:carol" (cache w')
  = Some {| value := JSON_stringify env0 (JArr queue); ttl := Some 259200 |}
  /\ last queue = Some (stamped env0 [("type", JStr "invite")])
  /\ (length queue <= 50)%nat
  /\ (forall key, key <> "offline_notifications:carol" ->
        stored key (cache w') = stored key (cache w)).
Proof.
  apply (offline_notification_queued env0 "carol" [("type", JStr "invite")] []
           (run [(env0, notification "bob" [("type", JStr "welcome")])] lobby)).
  - vm_compute. reflexivity.
  - vm_compute. reflexivity.
  - vm_compute. reflexivity.
  - simpl. lia.
Defined.

(** * The stored counters over a run *)

Definition is_connection (ev : Env * Event) : bool :=
  match ev.2 with
  | connection _ => true
  | _ => false
  end.

Definition counters (connections : Z) (m : WebSocketManager) : Prop :=
  totalConnections (connectionStats m) = connections
  /\ totalRooms (connectionStats m) = 0.

Lemma counters_step (n : Z) (env : Env) (ev : Event) :
  is_connection (env, ev) = false ->
  preserves (keeps (counters n)) (step env ev).
Proof.
  destruct ev; try discriminate; intros _; keeps_step.
  all: intros Hinv; try exact Hinv.
  - unfold counters. simpl. by rewrite (proj2 (proj2 (cleanup_fold_other _ _))).
  - simpl. destruct (rooms (this w) !! roomId); [destruct (bool_decide _)|]; exact Hinv.
  - unfold counters. simpl. by rewrite (proj2 (proj2 (cleanup_fold_other _ _))).
Qed.

Lemma counters_connection (n : Z) (env : Env) (socket : Socket) (w : World) :
  counters n (this w) -> counters (n + 1) (this (exec (step env (connection socket)) w)).
Proof.
  intros [Hc Hr]. unfold step. rewrite exec_modify_bind, handleConnection_this.
  unfold counters. simpl. by rewrite Hc, Hr.
Qed.

Lemma counters_run (events : list (Env * Event)) (n : Z) (w : World) :
  counters n (this w) ->
  counters (n + Z.of_nat (length (List.filter is_connection events)))
    (this (run events w)).
Proof.
  revert n w. induction events as [|[env ev] events IH]; intros n w Hw.
  - simpl. by rewrite Z.add_0_r.
  - cbn [run foldl fst snd List.filter]. fold (run events (exec (step env ev) w)).
    destruct (is_connection (env, ev)) eqn:Hev.
    + destruct ev; try discriminate.
      cbn [length]. replace (n + Z.of_nat (S (length (List.filter is_connection events))))
        with (n + 1 + Z.of_nat (length (List.filter is_connection events))) by lia.
      apply IH. by apply counters_connection.
    + apply IH. by apply (counters_step n env ev Hev w).
Qed.

(** Over any run from the initial state, the stored [totalConnections] is
    the number of connections handled (disconnections do not lower it) and
    the stored [totalRooms] is still 0: no handler writes it, the number of
    rooms that [getConnectionStats] reports is taken from the room map. *)
Theorem stored_counters (events : list (Env * Event)) (c : CacheManager) (uptime : Z) :
  let w := run events (initial c) in
  totalConnections (connectionStats (this w))
  = Z.of_nat (length (List.filter is_connection events))
  /\ totalRooms (connectionStats (this w)) = 0
  /\ totalRooms (fst (getConnectionStats uptime w)) = Z.of_nat (size (rooms (this w))).
Proof.
  intros w. destruct (counters_run events 0 (initial c)) as [Hc Hr]; [by split|].
  fold w in Hc, Hr. rewrite Z.add_0_l in Hc. by repeat split.
Qed.

(** * Authentication of a socket *)

(** [s.replace(pattern, replacement)] with a string pattern: the first
    occurrence is replaced. *)
Fixpoint string_drop (n : nat) (s : string) : string :=
  match n, s with
  | O, _ => s
  | S n', String _ rest => string_drop n' rest
  | S _, EmptyString => EmptyString
  end.

Fixpoint replace_first (pattern replacement s : string) : string :=
  if starts_with pattern s then replacement +:+ string_drop (String.length pattern) s
  else match s with
       | EmptyString => EmptyString
       | String c rest => String c (replace_first pattern replacement rest)
       end.

(** What [authenticateSocket] reads of [socket.handshake]. *)
Record Handshake := {
  auth_token : JVal;                 (* handshake.auth.token *)
  authorization : option string;     (* handshake.headers.authorization *)
  query_token : JVal                 (* handshake.query.token *)
}.

(** What it writes on the socket before it calls [next()]. *)
Record Identity := {
  id_userId : JVal;
  id_userRole : JVal;
  id_userLanguage : JVal;
  connectedAt : N
}.

(** The call of [next]: [next()] after the socket was given an identity,
    or [next(new Error(message))]. *)
Inductive Next : Type :=
| next_ok (identity : Identity)
| next_error (message : string).

Definition handshake_token (handshake : Handshake) : JVal :=
  js_or (js_or (auth_token handshake)
           match authorization handshake with
           | Some header => JStr (replace_first "Bearer " "" header)
           | None => JNull
           end)
    (query_token handshake).

(** [jwt.verify(token, config.jwt.secret)]: [verify] stands for the check
    of a string against the secret, [None] for a rejected token; a token
    that is no string is rejected before any check. *)
Definition jwt_verify (verify : string -> option JVal) (token : JVal) : M JVal :=
  match token with
  | JStr s =>
      match verify s with
      | Some decoded => mret decoded
      | None => throw "JsonWebTokenError: invalid token"
      end
  | _ => throw "JsonWebTokenError: jwt must be a string"
  end.

(** [v.k]: reading a property of [undefined] or [null] raises. *)
Definition property (k : string) (v : JVal) : M JVal :=
  match v with
  | JNull => throw "TypeError: Cannot read properties of undefined"
  | _ => mret (get_field k v)
  end.

Definition authenticateSocket (env : Env) (verify : string -> option JVal)
    (handshake : Handshake) : M Next :=
  try_catch
    (let token := handshake_token handshake in
     if falsy token then mret (next_error "Authentication token required")
     else
       (* Verify JWT token *)
       decoded ← jwt_verify verify token;
       (* Check if token is blacklisted *)
       isBlacklisted ← cacheGet env ("blacklist:" +:+ js_string token);
       if negb (falsy isBlacklisted) then mret (next_error "Token is blacklisted")
       else
         (* Get user language preference *)
         language ← property "language" decoded;
         let userLanguage := js_or language (JStr "en") in
         (* Add user info to socket *)
         logInfo "Socket authenticated" ;;
         mret (next_ok {| id_userId := get_field "userId" decoded;
                          id_userRole := get_field "role" decoded;
                          id_userLanguage := userLanguage;
                          connectedAt := dateNow env |}))
    (fun error =>
       logError "Socket authentication failed" ;;
       mret (next_error "Authentication failed")).

(** The identity a decoded token gives a socket. *)
Definition identity_of (env : Env) (decoded : JVal) : Identity :=
  {| id_userId := get_field "userId" decoded;
     id_userRole := get_field "role" decoded;
     id_userLanguage := js_or (get_field "language" decoded) (JStr "en");
     connectedAt := dateNow env |}.





Lemma nonempty_truthy (s : string) : s <> EmptyString -> falsy (JStr s) = false.
Proof. by destruct s. Qed.



(** Without a token in the handshake the socket is refused with
    [Authentication token required]; the token is not verified, the store
    is not read and nothing is logged. *)
Theorem authentication_requires_token (env : Env) (verify : string -> option JVal)
    (handshake : Handshake) (w : World) :
  falsy (handshake_token handshake) = true ->
  authenticateSocket env verify handshake w
  = (Return (next_error "Authentication token required"), w).
Proof. intros Hnone. unfold authenticateSocket, try_catch. by rewrite Hnone. Qed.

Lemma authentication_requires_token_witness :
  authenticateSocket env0 (fun _ => Some (JObj [("userId", JStr "alice")]))
    {| auth_token := JNull; authorization := Some "Bearer "; query_token := JStr "" |}
    (initial redis_up)
  = (Return (next_error "Authentication token required"), initial redis_up).
Proof.
  apply (authentication_requires_token env0
           (fun _ => Some (JObj [("userId", JStr "alice")]))
           {| auth_token := JNull; authorization := Some "Bearer ";
              query_token := JStr "" |} (initial redis_up)).
  reflexivity.
Defined.

(** A token that [jwt.verify] rejects, or that is no string, is refused
    with [Authentication failed] before the blacklist is consulted; the
    failure is logged and nothing else changes. *)
Theorem invalid_token_refused (env : Env) (verify : string -> option JVal)
    (handshake : Handshake) (w : World) :
  falsy (handshake_token handshake) = false ->
  (forall s, handshake_token handshake = JStr s -> verify s = None) ->
  authenticateSocket env verify handshake w
  = (Return (next_error "Authentication failed"),
     push_log "error" "Socket authentication failed" w).
Proof.
  intros Htoken Hbad. unfold authenticateSocket, try_catch. rewrite Htoken.
  assert (Hthrow : exists e, jwt_verify verify (handshake_token handshake) w = (Throw e, w)).
  { unfold jwt_verify. destruct (handshake_token handshake) as [| | | s | | |];
      try (by eexists). rewrite (Hbad s eq_refl). by eexists. }
  destruct Hthrow as [e Hthrow]. by rewrite (bind_throw _ _ _ _ _ Hthrow).
Qed.

Lemma invalid_token_refused_witness :
  authenticateSocket env0 (fun _ => None)
    {| auth_token := JStr "forged"; authorization := None; query_token := JNull |}
    (initial redis_up)
  = (Return (next_error "Authentication failed"),
     push_log "error" "Socket authentication failed" (initial redis_up)).
Proof.
  apply (invalid_token_refused env0 (fun _ => None)
           {| auth_token := JStr "forged"; authorization := None; query_token := JNull |}
           (initial redis_up)).
  - reflexivity.
  - reflexivity.
Defined.

(** What [authenticateSocket] answers for a verified token, by what
    [cache.get] does with [blacklist:{token}]. *)
Definition verdict (env : Env) (token : string) (decoded : JVal) (c : CacheManager)
  : Next :=
  match cache_get env ("blacklist:" +:+ token) c with
  | Return isBlacklisted =>
      if falsy isBlacklisted then next_ok (identity_of env decoded)
      else next_error "Token is blacklisted"
  | Throw _ => next_error "Authentication failed"
  end.

(** A verified token is refused as blacklisted exactly when the store
    answers with a truthy value for [blacklist:{token}]; when it answers
    with a falsy one the socket gets the identity of the decoded token,
    with [en] as the default language.  While Redis is not ready the read
    raises and every verified token is refused with [Authentication
    failed]; while Redis is ready but its commands fail no token counts as
    blacklisted.  The store is not written. *)
Theorem verified_token_and_blacklist (env : Env) (verify : string -> option JVal)
    (handshake : Handshake) (token : string) (decoded : JVal) (w : World) :
  handshake_token handshake = JStr token ->
  token <> EmptyString ->
  verify token = Some decoded ->
  decoded <> JNull ->
  let outcome := fst (authenticateSocket env verify handshake w) in
  outcome = Return (verdict env token decoded (cache w))
  /\ (isReady (cache w) = false -> outcome = Return (next_error "Authentication failed"))
  /\ (isReady (cache w) = true -> available (cache w) = false ->
      outcome = Return (next_ok (identity_of env decoded)))
  /\ cache (exec (authenticateSocket env verify handshake) w) = cache w
  /\ this (exec (authenticateSocket env verify handshake) w) = this w.
Proof.
  intros Htoken Hne Hverify Hdecoded outcome.
  assert (Hrun : exists w1,
             authenticateSocket env verify handshake w
             = (Return (verdict env token decoded (cache w)), w1)
             /\ cache w1 = cache w /\ this w1 = this w).
  { unfold authenticateSocket, try_catch, verdict. rewrite Htoken.
    rewrite (nonempty_truthy token Hne).
    rewrite (bind_run _ _ w w decoded) by (unfold jwt_verify; by rewrite Hverify).
    simpl js_string.
    destruct (cache_get env ("blacklist:" +:+ token) (cache w)) as [v|e] eqn:Hv.
    - destruct (cacheGet_run env ("blacklist:" +:+ token) w v Hv)
        as (w1 & Hget & Ht & Hc & _).
      rewrite (bind_run _ _ _ _ _ Hget). cbv beta.
      destruct (falsy v); cbn [negb]; cbv iota.
      + rewrite (bind_run _ _ w1 w1 (get_field "language" decoded))
          by (by destruct decoded).
        eexists. split; [reflexivity|]. by split.
      + eexists. split; [reflexivity|]. by split.
    - assert (Hnr : isReady (cache w) = false).
      { destruct (isReady (cache w)) eqn:Hr; [|reflexivity].
        destruct (cache_get_ready env ("blacklist:" +:+ token) _ Hr) as [v Hv'].
        congruence. }
      rewrite (bind_throw _ _ _ _ _ (cacheGet_not_ready env _ w Hnr)).
      eexists. split; [reflexivity|]. by split. }
  destruct Hrun as (w1 & Hrun & Hc & Ht).
  unfold outcome, exec. rewrite Hrun. simpl. split; [reflexivity|].
  split; [|split; [|by split]].
  - intros Hnr. unfold verdict. by rewrite cache_get_not_ready.
  - intros Hr Hun. unfold verdict. by rewrite cache_get_failing.
Qed.

(** A store that holds a blacklist entry but has lost its connection. *)
Definition blacklist_unreachable : CacheManager :=
  {| client := Some {| keyspace := {[ "blacklist:revoked" :=
                                       {| value := "true"; ttl := Some 3600 |} ]};
                       commandsFail := false |};
     isConnected := false |}.

Lemma verified_token_and_blacklist_witness :
  let verify := fun _ : string => Some (JObj [("userId", JStr "alice"); ("role", JStr "user")]) in
  let handshake := {| auth_token := JStr "revoked"; authorization := None;
                      query_token := JNull |} in
  let decoded := JObj [("userId", JStr "alice"); ("role", JStr "user")] in
  let w := initial blacklist_unreachable in
  let outcome := fst (authenticateSocket env0 verify handshake w) in
  outcome = Return (verdict env0 "revoked" decoded (cache w))
  /\ (isReady (cache w) = false -> outcome = Return (next_error "Authentication failed"))
  /\ (isReady (cache w) = true -> available (cache w) = false ->
      outcome = Return (next_ok (identity_of env0 decoded)))
  /\ cache (exec (authenticateSocket env0 verify handshake) w) = cache w
  /\ this (exec (authenticateSocket env0 verify handshake) w) = this w.
Proof.
  apply (verified_token_and_blacklist env0
           (fun _ => Some (JObj [("userId", JStr "alice"); ("role", JStr "user")]))
           {| auth_token := JStr "revoked"; authorization := None; query_token := JNull |}
           "revoked" (JObj [("userId", JStr "alice"); ("role", JStr "user")])
           (initial blacklist_unreachable)).
  - reflexivity.
  - discriminate.
  - reflexivity.
  - discriminate.
Defined.

(** The three answers for one verified token: the entry is read and the
    token refused as blacklisted; Redis is not ready and the token is
    refused with the general failure; without an entry it is accepted. *)
Example blacklist_answers :
  let verify := fun _ : string => Some (JObj [("userId", JStr "alice")]) in
  let handshake := {| auth_token := JStr "revoked"; authorization := None;
                      query_token := JNull |} in
  let reachable :=
    {| client := client blacklist_unreachable; isConnected := true |} in
  fst (authenticateSocket env0 verify handshake (initial reachable))
  = Return (next_error "Token is blacklisted")
  /\ fst (authenticateSocket env0 verify handshake (initial blacklist_unreachable))
     = Return (next_error "Authentication failed")
  /\ fst (authenticateSocket env0 verify handshake (initial redis_up))
     = Return (next_ok (identity_of env0 (JObj [("userId", JStr "alice")]))).
Proof. vm_compute. repeat split. Qed.

(** * What a leave sends *)

Definition left_room (env : Env) (socket : Socket) (roomId : string) (w : World)
  : Effect :=
  socket_emit (socket_id socket) "left_room"
    (JObj [("roomId", JStr roomId);
           ("message", JPromise (translation env "websocket.left_room"
                                   (JObj [("roomId", JStr roomId)])
                                   (userLanguage socket) w));
           ("timestamp", JStr (isoNow env))]).

Definition user_left_room (env : Env) (socket : Socket) (roomId : string) (w : World)
  : Effect :=
  socket_to_emit (socket_id socket) roomId "user_left_room"
    (JObj [("userId", JStr (userId socket)); ("roomId", JStr roomId);
           ("message", JPromise (translation env "websocket.user_left"
                                   (JObj [("userId", JStr (userId socket))])
                                   (userLanguage socket) w));
           ("timestamp", JStr (isoNow env))]).

(** The metadata update of a leave cannot succeed: reading the metadata
    raises (Redis is not ready), or what is read has a [members] field
    without a [filter] method, one that is no array. *)
Definition members_no_array (env : Env) (roomId : string) (c : CacheManager) : Prop :=
  match room_metadata env roomId c with
  | Some metadata => forall l, get_field "members" metadata <> JArr l
  | None => True
  end.

Lemma handleLeaveRoom_run (env : Env) (socket : Socket) (roomId : string)
    (metadata : JVal) (members activity : list JVal) (w : World) :
  room_metadata env roomId (cache w) = Some metadata ->
  wf_metadata metadata members activity ->
  exists w',
    handleLeaveRoom env socket roomId w = (Return tt, w')
    /\ outbox w'
       = outbox w ++ [left_room env socket roomId w; user_left_room env socket roomId w].
Proof.
  intros Hmeta Hwf. unfold handleLeaveRoom, try_catch.
  match goal with |- context [match ?body w with _ => _ end] =>
    cut (exists w', body w = (Return tt, w')
           /\ outbox w'
              = outbox w ++ [left_room env socket roomId w;
                             user_left_room env socket roomId w])
  end.
  { intros (w' & -> & Hrest). by exists w'. }
  unfold socket_leave. rewrite !modify_bind_run.
  match goal with |- context [updateRoomMetadata _ _ _ _ ≫= _] =>
    match goal with |- context [(_ ≫= _) ?w0] => set (w2 := w0) end
  end.
  assert (Hc2 : cache w2 = cache w) by reflexivity.
  assert (Ho2 : outbox w2 = outbox w) by reflexivity.
  set (k1 := i18n_cache_key env "websocket.left_room" (JObj [("roomId", JStr roomId)])
               (userLanguage socket)).
  set (k2 := i18n_cache_key env "websocket.user_left"
               (JObj [("userId", JStr (userId socket))]) (userLanguage socket)).
  assert (Hk1m : k1 <> metadata_key roomId) by apply i18n_key_not_room.
  assert (Hk2m : k2 <> metadata_key roomId) by apply i18n_key_not_room.
  assert (Hk21 : k2 <> k1).
  { apply i18n_keys_differ. intros s s'. simpl. discriminate. }
  destruct (updateRoomMetadata_run env roomId (userId socket) "left" metadata members
              activity (only_key (metadata_key roomId)) w2)
    as (metadata' & w3 & Hupd & _ & _ & Hq3).
  { by rewrite Hc2. }
  { exact Hwf. }
  { apply only_key_eq. }
  rewrite (bind_run _ _ _ _ _ Hupd). cbv beta.
  destruct (translate_key_run env "websocket.left_room" (JObj [("roomId", JStr roomId)])
              (userLanguage socket) (only_key k1) w3 (only_key_eq k1))
    as (w4 & Htr1 & Hq4).
  rewrite (bind_run _ _ _ _ _ Htr1). cbv beta.
  assert (Ht1 : translation env "websocket.left_room" (JObj [("roomId", JStr roomId)])
                  (userLanguage socket) w3
                = translation env "websocket.left_room" (JObj [("roomId", JStr roomId)])
                    (userLanguage socket) w).
  { apply translation_agree. fold k1.
    rewrite (quiet_held _ env k1 _ _ Hq3) by (by apply only_key_ne). by rewrite Hc2. }
  rewrite Ht1. unfold emit. rewrite modify_bind_run.
  fold (left_room env socket roomId w).
  set (w5 := push_outbox _ w4).
  destruct (translate_key_run env "websocket.user_left"
              (JObj [("userId", JStr (userId socket))])
              (userLanguage socket) (only_key k2) w5 (only_key_eq k2))
    as (w6 & Htr2 & Hq6).
  rewrite (bind_run _ _ _ _ _ Htr2). cbv beta.
  assert (Ht2 : translation env "websocket.user_left"
                  (JObj [("userId", JStr (userId socket))]) (userLanguage socket) w5
                = translation env "websocket.user_left"
                    (JObj [("userId", JStr (userId socket))]) (userLanguage socket) w).
  { apply translation_agree. fold k2. change (cache w5) with (cache w4).
    rewrite (quiet_held _ env k2 _ _ Hq4) by (by apply only_key_ne).
    rewrite (quiet_held _ env k2 _ _ Hq3) by (by apply only_key_ne). by rewrite Hc2. }
  rewrite Ht2. rewrite modify_bind_run.
  fold (user_left_room env socket roomId w).
  eexists. split; [reflexivity|]. simpl.
  destruct Hq3 as (_ & _ & Ho3 & _). destruct Hq4 as (_ & _ & Ho4 & _).
  destruct Hq6 as (_ & _ & Ho6 & _).
  rewrite Ho6. subst w5. simpl. rewrite Ho4, Ho3, Ho2.
  by rewrite <- !app_assoc.
Qed.

(** When the store answers the read of the room's metadata (so Redis is
    ready) and the metadata is absent or well formed, a leave sends
    [left_room] to the socket and [user_left_room] to the room, and nothing
    else. *)
Theorem leave_sends (env : Env) (socket : Socket) (roomId : string)
    (metadata : JVal) (members activity : list JVal) (w : World) :
  room_metadata env roomId (cache w) = Some metadata ->
  wf_metadata metadata members activity ->
  sent (handleLeaveRoom env socket roomId) w
  = [left_room env socket roomId w; user_left_room env socket roomId w].
Proof.
  intros Hmeta Hwf.
  destruct (handleLeaveRoom_run env socket roomId metadata members activity w Hmeta Hwf)
    as (w' & Hrun & Ho).
  unfold sent, exec. rewrite Hrun. simpl. rewrite Ho. by rewrite drop_app_length.
Qed.

Lemma leave_sends_witness :
  sent (handleLeaveRoom env0 alice1 "lobby") lobby
  = [left_room env0 alice1 "lobby" lobby; user_left_room env0 alice1 "lobby" lobby].
Proof.
  apply (leave_sends env0 alice1 "lobby"
           (JObj [("members", JArr [JStr "alice"]);
                  ("activity", JArr [activity_entry env0 "alice" "joined"])])
           [JStr "alice"] [activity_entry env0 "alice" "joined"]).
  - vm_compute. reflexivity.
  - eexists. split; [reflexivity|]. split; reflexivity.
Defined.

(** A leave whose metadata update fails, on unusable metadata or because
    Redis is not ready, is not answered at all: the failure is only logged,
    nothing is sent to the socket or to the room, though the socket has
    left the room. *)
Theorem leave_failure_is_silent (env : Env) (socket : Socket) (roomId : string)
    (w : World) :
  members_no_array env roomId (cache w) ->
  let w' := exec (handleLeaveRoom env socket roomId) w in
  sent (handleLeaveRoom env socket roomId) w = []
  /\ (roomId ∉ rooms_of (socket_id socket) w')
  /\ cache w' = cache w
  /\ last (logs w') = Some ("error", "Failed to leave room").
Proof.
  intros Hno w'.
  assert (Hrun : exists w1,
             handleLeaveRoom env socket roomId w
             = (Return tt, push_log "error" "Failed to leave room" w1)
             /\ outbox w1 = outbox w /\ cache w1 = cache w).
  { unfold handleLeaveRoom, try_catch, socket_leave. rewrite !modify_bind_run.
    match goal with |- context [updateRoomMetadata _ _ _ _ ≫= _] =>
      match goal with |- context [(_ ≫= _) ?w0] => set (w2 := w0) end
    end.
    assert (Hthrow : exists e w3,
               updateRoomMetadata env roomId (userId socket) "left" w2 = (Throw e, w3)
               /\ outbox w3 = outbox w /\ cache w3 = cache w).
    { unfold updateRoomMetadata. fold (metadata_key roomId).
      unfold members_no_array, room_metadata in Hno.
      change (cache w) with (cache w2) in Hno.
      destruct (cache_get env (metadata_key roomId) (cache w2)) as [v0|e0] eqn:Hv0.
      - destruct (cacheGet_run env (metadata_key roomId) w2 v0 Hv0)
          as (w3 & Hget & _ & Hc & _ & Ho).
        rewrite (bind_run _ _ _ _ _ Hget). cbv beta zeta.
        assert (He : exists e,
                   update_members (userId socket) "left"
                     (js_or v0 (JObj [("members", JArr []); ("activity", JArr [])])) w3
                   = (Throw e, w3)).
        { unfold update_members. simpl.
          destruct (get_field "members" _) as [| | | | l | |] eqn:Hm; try (by eexists).
          by destruct (Hno l). }
        destruct He as [e He]. exists e, w3. split; [|by split]. by apply bind_throw.
      - assert (Hnr : isReady (cache w2) = false).
        { destruct (isReady (cache w2)) eqn:Hr; [|reflexivity].
          destruct (cache_get_ready env (metadata_key roomId) _ Hr) as [v Hv].
          congruence. }
        exists logWarning_raises, w2. split; [|by split].
        apply bind_throw. by apply cacheGet_not_ready. }
    destruct Hthrow as (e & w3 & Hthrow & Ho & Hc).
    rewrite (bind_throw _ _ _ _ _ Hthrow).
    exists w3. split; [reflexivity|]. by split. }
  destruct Hrun as (w1 & Hrun & Ho & Hc).
  assert (Hw' : w' = push_log "error" "Failed to leave room" w1)
    by (unfold w', exec; by rewrite Hrun).
  split; [|split; [|split]].
  - unfold sent. fold w'. rewrite Hw'. simpl. rewrite Ho. by rewrite drop_all.
  - unfold w', rooms_of. rewrite handleLeaveRoom_socketRooms.
    rewrite lookup_insert_eq. simpl. apply set_remove_not_elem.
  - by rewrite Hw'.
  - rewrite Hw'. simpl. apply last_snoc.
Qed.

Lemma leave_failure_is_silent_witness :
  let w := exec (handleJoinRoom env0 alice1 "lobby" JNull) foreign_metadata in
  let w' := exec (handleLeaveRoom env0 alice1 "lobby") w in
  sent (handleLeaveRoom env0 alice1 "lobby") w = []
  /\ ("lobby" ∉ rooms_of "s1" w')
  /\ cache w' = cache w
  /\ last (logs w') = Some ("error", "Failed to leave room").
Proof.
  apply (leave_failure_is_silent env0 alice1 "lobby"
           (exec (handleJoinRoom env0 alice1 "lobby" JNull) foreign_metadata)).
  vm_compute. intros l. discriminate.
Defined.
